(** * The position ledger: PositionTracker over the positions and
      position_flags tables

    A shallow embedding of [PositionTracker] (recordBuy, recordSell,
    getOpenPosition, flagIssue, mapPosition) together with the two tables of
    db/schema.sql it reads and writes, their primary keys and the
    UNIQUE(wallet_id, token, status) constraint of [positions].

    Modelling conventions.
    - JavaScript [number] amounts and the DECIMAL(18,9) columns are exact
      rationals [Q]: no rounding, no overflow, and no NaN or Infinity.
      [parseFloat] of a stored column is the identity.  Equality of amounts is
      [==] on [Q].
    - [new Date()] and the store's NOW() are one clock reading, passed to each
      call as [now].
    - Thrown [Error]s and the template strings of messages are kept as a tag
      with the interpolated values.
    - A call runs alone against the store: row locks between the pool and
      the transaction's client are not modelled, and a statement fails only
      by breaking the primary key or the UNIQUE constraint.
    - console output is not part of the persisted state and is left out.
    - Rows of [wallets] and [trades] referred to by foreign keys are taken to
      exist. *)

From Stdlib Require Import ZArith QArith List String Bool Lia Lqa.
Import ListNotations.

Local Open Scope Q_scope.

(* ------------------------------------------------------------------ *)
(** ** Type definitions *)

Definition Date := Z.
Bind Scope Z_scope with Date.

Inductive Status := OPEN | PARTIAL | CLOSED.

Definition Status_eqb (a b : Status) : bool :=
  match a, b with
  | OPEN, OPEN | PARTIAL, PARTIAL | CLOSED, CLOSED => true
  | _, _ => false
  end.

(** A row of [positions]; also the [Position] interface, whose fields are the
    same columns. *)
Record Position := mkPosition {
  id : Z;
  wallet_id : Z;
  token : string;
  status : Status;
  entry_trade_id : option Z;
  entry_timestamp : Date;
  total_entry_amount : Q;
  total_entry_cost : Q;
  avg_entry_price : Q;
  current_amount : Q;
  total_exit_amount : Q;
  total_exit_proceeds : Q;
  realized_pnl : Q;
  first_entry_at : Date;
  last_exit_at : option Date;
  closed_at : option Date;
  created_at : Date;
  updated_at : Date
}.

Module RecordBuyParams.
Record t := mk {
  walletId : Z;
  token : string;
  amount : Q;
  cost : Q;
  tradeId : Z
}.
End RecordBuyParams.

Module RecordSellParams.
Record t := mk {
  walletId : Z;
  token : string;
  amount : Q;
  proceeds : Q;
  tradeId : Z
}.
End RecordSellParams.

Module SellResult.
Record t := mk {
  position : Position;
  realized_pnl : Q;
  cost_basis : Q
}.
End SellResult.

Inductive FlagType :=
| sell_without_position
| sell_exceeds_position
| suspicious_pnl
| oversized_position
| balance_mismatch.

Inductive Severity := info | warning | critical.

(** The description templates of recordSell, with their interpolated values. *)
Inductive Description :=
| DescNoOpenPosition (amount : Q) (token : string) (walletId tradeId : Z)
| DescExceedsPosition (amount : Q) (token : string) (currentAmount : Q)
                      (positionId tradeId : Z)
| DescLargePosition (token : string) (positionValue : Q) (walletId : Z)
| DescSuspiciousPnl (realizedPnl : Q) (positionId tradeId : Z)
| DescText (text : string).

Module FlagParams.
Record t := mk {
  positionId : option Z;
  tradeId : option Z;
  walletId : Z;
  flagType : FlagType;
  severity : Severity;
  description : Description
}.
End FlagParams.

(** A row of [position_flags]. *)
Record Flag := mkFlag {
  flag_id : Z;
  position_id : option Z;
  trade_id : option Z;
  flag_wallet_id : Z;
  flag_type : FlagType;
  severity : Severity;
  description : Description;
  resolved : bool;
  flag_created_at : Date
}.

(** What a call can throw. *)
Inductive Error :=
| InvalidBuyAmount (amount : Q)
| InvalidBuyCost (cost : Q)
| InvalidSellAmount (amount : Q)
| InvalidProceeds (proceeds : Q)
| NoOpenPosition (amount : Q) (token : string) (walletId : Z)
| InsufficientPosition (amount : Q) (token : string) (currentAmount : Q)
                       (positionId : Z)
| UniqueViolation
| TypeError.

Inductive Result (A : Type) :=
| Ok (a : A)
| Err (e : Error).
Arguments Ok {A} a.
Arguments Err {A} e.

Definition is_ok {A} (r : Result A) : bool :=
  match r with Ok _ => true | Err _ => false end.

(* ------------------------------------------------------------------ *)
(** ** Comparisons of amounts *)

Definition Qlt_bool (x y : Q) : bool := negb (Qle_bool y x).

(* ------------------------------------------------------------------ *)
(** ** The store *)

Record Db := mkDb {
  positions : list Position;
  position_flags : list Flag;
  positions_id_seq : Z;
  position_flags_id_seq : Z
}.

Definition empty_db : Db := mkDb [] [] 1%Z 1%Z.

(** During [transaction], [store] is what is committed (and what the pool's
    [query] reads and writes) and [view] is the [positions] table as the
    transaction's client sees it, with its own uncommitted writes. *)
Record Session := mkSession {
  store : Db;
  view : list Position
}.

Definition M (A : Type) : Type := Session -> Result A * Session.

Definition ret {A} (a : A) : M A := fun s => (Ok a, s).

Definition throw {A} (e : Error) : M A := fun s => (Err e, s).

Definition bind {A B} (m : M A) (k : A -> M B) : M B :=
  fun s =>
    match m s with
    | (Ok a, s') => k a s'
    | (Err e, s') => (Err e, s')
    end.

Notation "x <- m ;; k" := (bind m (fun x => k))
  (at level 61, m at next level, right associativity).
Notation "m ;;; k" := (bind m (fun _ => k))
  (at level 61, right associativity).

(** Modelled from the spec: lib/db/client's [transaction] is not among the
    sources.  It is the "transactional query/execute primitive" of the spec,
    used as [transaction(async (client) => ...)]: the callback runs on its own
    client between BEGIN and COMMIT; when it returns, the client's writes are
    committed, and when it throws they are rolled back ("Transaction is rolled
    back", POSITION_TRACKER_README) and the error is thrown again.  The client
    of this module writes the [positions] table only; the id sequence, as in
    PostgreSQL, is not rolled back. *)
Definition transaction {A} (body : M A) (db : Db) : Result A * Db :=
  match body (mkSession db (positions db)) with
  | (Ok a, s) =>
      (Ok a, mkDb (view s) (position_flags (store s))
                  (positions_id_seq (store s)) (position_flags_id_seq (store s)))
  | (Err e, s) => (Err e, store s)
  end.

(* ------------------------------------------------------------------ *)
(** ** Statements on [positions] *)

Definition open_or_partial (st : Status) : bool :=
  match st with OPEN | PARTIAL => true | CLOSED => false end.

(** WHERE wallet_id = $1 AND token = $2 AND status IN ('OPEN', 'PARTIAL') *)
Definition open_for (w : Z) (t : string) (r : Position) : bool :=
  (wallet_id r =? w)%Z && String.eqb (token r) t && open_or_partial (status r).

(** ORDER BY first_entry_at ASC LIMIT 1; among equal timestamps the row that
    comes first in the table. *)
Fixpoint earliest (rows : list Position) : list Position :=
  match rows with
  | [] => []
  | r :: rest =>
      match earliest rest with
      | r' :: _ => if (first_entry_at r <=? first_entry_at r')%Z then [r] else [r']
      | [] => [r]
      end
  end.

Definition select_open (rows : list Position) (w : Z) (t : string)
  : list Position :=
  earliest (filter (open_for w t) rows).

(** UNIQUE(wallet_id, token, status) *)
Definition same_key (a b : Position) : bool :=
  (wallet_id a =? wallet_id b)%Z && String.eqb (token a) (token b)
  && Status_eqb (status a) (status b).

(** A written row [r] breaks the primary key or the UNIQUE constraint against
    the other rows. *)
Definition insert_violates (rows : list Position) (r : Position) : bool :=
  existsb (fun o => (id o =? id r)%Z || same_key o r) rows.

Definition update_violates (rows : list Position) (i : Z) : bool :=
  existsb (fun r => (id r =? i)%Z
                    && existsb (fun o => negb (id o =? i)%Z && same_key o r) rows)
          rows.

Definition client_select_open (w : Z) (t : string) : M (list Position) :=
  fun s => (Ok (select_open (view s) w t), s).

(** INSERT INTO positions (...) VALUES ($1 .. $13) RETURNING * *)
Definition client_insert_position (w : Z) (t : string) (st : Status)
    (trade : Z) (entry_ts : Date) (tea tec aep ca txa txp rp : Q)
    (first_at : Date) (now : Date) : M (list Position) :=
  fun s =>
    let i := positions_id_seq (store s) in
    let row := mkPosition i w t st (Some trade) entry_ts tea tec aep ca txa txp rp
                          first_at None None now now in
    let store' := mkDb (positions (store s)) (position_flags (store s))
                       (i + 1)%Z (position_flags_id_seq (store s)) in
    if insert_violates (view s) row
    then (Err UniqueViolation, mkSession store' (view s))
    else (Ok [row], mkSession store' (view s ++ [row])).

Definition set_buy (tea tec aep ca : Q) (now : Date) (r : Position) : Position :=
  mkPosition (id r) (wallet_id r) (token r) (status r) (entry_trade_id r)
             (entry_timestamp r) tea tec aep ca (total_exit_amount r)
             (total_exit_proceeds r) (realized_pnl r) (first_entry_at r)
             (last_exit_at r) (closed_at r) (created_at r) now.

Definition set_sell (ca txa txp rp : Q) (st : Status) (last_exit : Date)
    (closed : option Date) (now : Date) (r : Position) : Position :=
  mkPosition (id r) (wallet_id r) (token r) st (entry_trade_id r)
             (entry_timestamp r) (total_entry_amount r) (total_entry_cost r)
             (avg_entry_price r) ca txa txp rp (first_entry_at r)
             (Some last_exit) closed (created_at r) now.

Definition update_where_id (f : Position -> Position) (i : Z)
    (rows : list Position) : list Position :=
  map (fun r => if (id r =? i)%Z then f r else r) rows.

Definition where_id (i : Z) (rows : list Position) : list Position :=
  filter (fun r => (id r =? i)%Z) rows.

(** UPDATE positions SET total_entry_amount = $1, total_entry_cost = $2,
    avg_entry_price = $3, current_amount = $4 WHERE id = $5 RETURNING *
    (the key columns are not written, so no constraint can break). *)
Definition client_update_buy (tea tec aep ca : Q) (i : Z) (now : Date)
  : M (list Position) :=
  fun s =>
    let rows := update_where_id (set_buy tea tec aep ca now) i (view s) in
    (Ok (where_id i rows), mkSession (store s) rows).

(** UPDATE positions SET current_amount = $1, total_exit_amount = $2,
    total_exit_proceeds = $3, realized_pnl = $4, status = $5,
    last_exit_at = $6, closed_at = $7 WHERE id = $8 RETURNING * *)
Definition client_update_sell (ca txa txp rp : Q) (st : Status)
    (last_exit : Date) (closed : option Date) (i : Z) (now : Date)
  : M (list Position) :=
  fun s =>
    let rows := update_where_id (set_sell ca txa txp rp st last_exit closed now)
                                i (view s) in
    if update_violates rows i
    then (Err UniqueViolation, s)
    else (Ok (where_id i rows), mkSession (store s) rows).

(** [rows[0]] handed to a function that reads its fields. *)
Definition first_row (rows : list Position) : M Position :=
  match rows with
  | r :: _ => ret r
  | [] => throw TypeError
  end.

(* ------------------------------------------------------------------ *)
(** ** PositionTracker *)

Definition mapPosition (row : Position) : Position :=
  mkPosition (id row) (wallet_id row) (token row) (status row)
             (entry_trade_id row) (entry_timestamp row)
             (total_entry_amount row) (total_entry_cost row)
             (avg_entry_price row) (current_amount row)
             (total_exit_amount row) (total_exit_proceeds row)
             (realized_pnl row) (first_entry_at row) (last_exit_at row)
             (closed_at row) (created_at row) (updated_at row).

(** [x || null] on an optional number: undefined and 0 both give null. *)
Definition or_null (x : option Z) : option Z :=
  match x with
  | Some 0%Z => None
  | Some v => Some v
  | None => None
  end.

(** Modelled from the spec: lib/db/client's [query] is not among the sources.
    It takes a statement and its values and no client: it runs the statement
    on the pool, outside any open transaction, and the statement is committed
    when it returns.  Here the statement is
    INSERT INTO position_flags (position_id, trade_id, wallet_id, flag_type,
    severity, description) VALUES ($1 .. $6); [resolved] and [created_at] take
    their defaults. *)
Definition query_insert_flag (pid tid : option Z) (w : Z) (ft : FlagType)
    (sev : Severity) (d : Description) (now : Date) (db : Db) : Db :=
  mkDb (positions db)
       (position_flags db
        ++ [mkFlag (position_flags_id_seq db) pid tid w ft sev d false now])
       (positions_id_seq db) (position_flags_id_seq db + 1)%Z.

Definition flagIssue (params : FlagParams.t) (now : Date) (db : Db) : Db :=
  query_insert_flag (or_null (FlagParams.positionId params))
                    (or_null (FlagParams.tradeId params))
                    (FlagParams.walletId params) (FlagParams.flagType params)
                    (FlagParams.severity params) (FlagParams.description params)
                    now db.

(** [await this.flagIssue(...)] from inside a transaction callback: the flag
    goes to the pool, not to the transaction's client. *)
Definition flagIssue_in_tx (params : FlagParams.t) (now : Date) : M unit :=
  fun s => (Ok tt, mkSession (flagIssue params now (store s)) (view s)).

Definition getOpenPosition (walletId : Z) (token : string) (db : Db)
  : option Position :=
  match select_open (positions db) walletId token with
  | [] => None
  | r :: _ => Some (mapPosition r)
  end.

(** The callback recordBuy hands to [transaction]. *)
Definition recordBuy_tx (params : RecordBuyParams.t) (now : Date) : M Position :=
  let walletId := RecordBuyParams.walletId params in
  let token := RecordBuyParams.token params in
  let amount := RecordBuyParams.amount params in
  let cost := RecordBuyParams.cost params in
  let tradeId := RecordBuyParams.tradeId params in
  existingRes <- client_select_open walletId token ;;
  match existingRes with
  | [] =>
      let avgPrice := cost / amount in
      insertRes <- client_insert_position walletId token OPEN tradeId now
                     amount cost avgPrice amount 0 0 0 now now ;;
      row <- first_row insertRes ;;
      ret (mapPosition row)
  | existing :: _ =>
      let newTotalEntryAmount := total_entry_amount existing + amount in
      let newTotalEntryCost := total_entry_cost existing + cost in
      let newAvgEntryPrice := newTotalEntryCost / newTotalEntryAmount in
      let newCurrentAmount := current_amount existing + amount in
      updateRes <- client_update_buy newTotalEntryAmount newTotalEntryCost
                     newAvgEntryPrice newCurrentAmount (id existing) now ;;
      row <- first_row updateRes ;;
      ret (mapPosition row)
  end.

Definition recordBuy (params : RecordBuyParams.t) (now : Date) (db : Db)
  : Result Position * Db :=
  let amount := RecordBuyParams.amount params in
  let cost := RecordBuyParams.cost params in
  if Qle_bool amount 0 then (Err (InvalidBuyAmount amount), db)
  else if Qle_bool cost 0 then (Err (InvalidBuyCost cost), db)
  else transaction (recordBuy_tx params now) db.

(** The callback recordSell hands to [transaction]. *)
Definition recordSell_tx (params : RecordSellParams.t) (now : Date)
  : M SellResult.t :=
  let walletId := RecordSellParams.walletId params in
  let token := RecordSellParams.token params in
  let amount := RecordSellParams.amount params in
  let proceeds := RecordSellParams.proceeds params in
  let tradeId := RecordSellParams.tradeId params in
  positionRes <- client_select_open walletId token ;;
  match positionRes with
  | [] =>
      flagIssue_in_tx
        (FlagParams.mk None (Some tradeId) walletId sell_without_position
           critical (DescNoOpenPosition amount token walletId tradeId))
        now ;;;
      throw (NoOpenPosition amount token walletId)
  | position :: _ =>
      let currentAmount := current_amount position in
      if Qlt_bool currentAmount amount then
        flagIssue_in_tx
          (FlagParams.mk (Some (id position)) (Some tradeId) walletId
             sell_exceeds_position critical
             (DescExceedsPosition amount token currentAmount
                (id position) tradeId))
          now ;;;
        throw (InsufficientPosition amount token currentAmount (id position))
      else
        let avgEntryPrice := avg_entry_price position in
        let costBasis := avgEntryPrice * amount in
        let realizedPnl := proceeds - costBasis in
        let newCurrentAmount := currentAmount - amount in
        let newTotalExitAmount := total_exit_amount position + amount in
        let newTotalExitProceeds := total_exit_proceeds position + proceeds in
        let newRealizedPnl := realized_pnl position + realizedPnl in
        let '(newStatus, closedAt) :=
          if Qeq_bool newCurrentAmount 0 then (CLOSED, Some now)
          else if Qlt_bool 0 newTotalExitAmount then (PARTIAL, None)
          else (OPEN, None) in
        updateRes <- client_update_sell newCurrentAmount newTotalExitAmount
                       newTotalExitProceeds newRealizedPnl newStatus now
                       closedAt (id position) now ;;
        updatedPosition <- (row <- first_row updateRes ;; ret (mapPosition row)) ;;
        let positionValue := currentAmount * avgEntryPrice in
        (if Qlt_bool 50000 positionValue then
           flagIssue_in_tx
             (FlagParams.mk (Some (id position)) (Some tradeId) walletId
                oversized_position warning
                (DescLargePosition token positionValue walletId))
             now
         else ret tt) ;;;
        (if Qlt_bool realizedPnl 0 && Qlt_bool (costBasis * 1.1) proceeds then
           flagIssue_in_tx
             (FlagParams.mk (Some (id position)) (Some tradeId) walletId
                suspicious_pnl warning
                (DescSuspiciousPnl realizedPnl (id position) tradeId))
             now
         else ret tt) ;;;
        ret (SellResult.mk updatedPosition realizedPnl costBasis)
  end.

Definition recordSell (params : RecordSellParams.t) (now : Date) (db : Db)
  : Result SellResult.t * Db :=
  let amount := RecordSellParams.amount params in
  let proceeds := RecordSellParams.proceeds params in
  if Qle_bool amount 0 then (Err (InvalidSellAmount amount), db)
  else if Qlt_bool proceeds 0 then (Err (InvalidProceeds proceeds), db)
  else transaction (recordSell_tx params now) db.

(* ------------------------------------------------------------------ *)
(** ** Sequences of calls *)

Inductive Call :=
| CallBuy (params : RecordBuyParams.t) (now : Date)
| CallSell (params : RecordSellParams.t) (now : Date).

Definition call (c : Call) (db : Db) : Db :=
  match c with
  | CallBuy p now => snd (recordBuy p now db)
  | CallSell p now => snd (recordSell p now db)
  end.

Definition run (cs : list Call) (db : Db) : Db :=
  fold_left (fun d c => call c d) cs db.

(* ------------------------------------------------------------------ *)
(** ** What one accepted trade writes *)

(** The row a buy writes over [existing]'s id. *)
Definition bought (existing : Position) (amount cost : Q) (now : Date)
  : Position -> Position :=
  set_buy (total_entry_amount existing + amount)
          (total_entry_cost existing + cost)
          ((total_entry_cost existing + cost)
           / (total_entry_amount existing + amount))
          (current_amount existing + amount) now.

(** The row the first buy of a pair inserts. *)
Definition opened (i : Z) (p : RecordBuyParams.t) (now : Date) : Position :=
  mkPosition i (RecordBuyParams.walletId p) (RecordBuyParams.token p) OPEN
             (Some (RecordBuyParams.tradeId p)) now
             (RecordBuyParams.amount p) (RecordBuyParams.cost p)
             (RecordBuyParams.cost p / RecordBuyParams.amount p)
             (RecordBuyParams.amount p) 0 0 0 now None None now now.

Definition sell_status (newCurrentAmount newTotalExitAmount : Q) : Status :=
  if Qeq_bool newCurrentAmount 0 then CLOSED
  else if Qlt_bool 0 newTotalExitAmount then PARTIAL
  else OPEN.

Definition sell_closed_at (newCurrentAmount : Q) (now : Date) : option Date :=
  if Qeq_bool newCurrentAmount 0 then Some now else None.

(** The row a sell writes over [position]'s id. *)
Definition sold (position : Position) (amount proceeds : Q) (now : Date)
  : Position -> Position :=
  set_sell (current_amount position - amount)
           (total_exit_amount position + amount)
           (total_exit_proceeds position + proceeds)
           (realized_pnl position
            + (proceeds - avg_entry_price position * amount))
           (sell_status (current_amount position - amount)
                        (total_exit_amount position + amount))
           now
           (sell_closed_at (current_amount position - amount) now) now.

Definition flag_no_position (p : RecordSellParams.t) : FlagParams.t :=
  FlagParams.mk None (Some (RecordSellParams.tradeId p))
    (RecordSellParams.walletId p) sell_without_position critical
    (DescNoOpenPosition (RecordSellParams.amount p) (RecordSellParams.token p)
       (RecordSellParams.walletId p) (RecordSellParams.tradeId p)).

Definition flag_exceeds (p : RecordSellParams.t) (position : Position)
  : FlagParams.t :=
  FlagParams.mk (Some (id position)) (Some (RecordSellParams.tradeId p))
    (RecordSellParams.walletId p) sell_exceeds_position critical
    (DescExceedsPosition (RecordSellParams.amount p) (RecordSellParams.token p)
       (current_amount position) (id position) (RecordSellParams.tradeId p)).

Definition flag_oversized (p : RecordSellParams.t) (position : Position)
  : FlagParams.t :=
  FlagParams.mk (Some (id position)) (Some (RecordSellParams.tradeId p))
    (RecordSellParams.walletId p) oversized_position warning
    (DescLargePosition (RecordSellParams.token p)
       (current_amount position * avg_entry_price position)
       (RecordSellParams.walletId p)).

Definition flag_suspicious (p : RecordSellParams.t) (position : Position)
  : FlagParams.t :=
  FlagParams.mk (Some (id position)) (Some (RecordSellParams.tradeId p))
    (RecordSellParams.walletId p) suspicious_pnl warning
    (DescSuspiciousPnl
       (RecordSellParams.proceeds p
        - avg_entry_price position * RecordSellParams.amount p)
       (id position) (RecordSellParams.tradeId p)).

(** The two tests that guard the advisory flags of a sell. *)
Definition is_oversized (position : Position) : bool :=
  Qlt_bool 50000 (current_amount position * avg_entry_price position).

Definition is_suspicious (p : RecordSellParams.t) (position : Position) : bool :=
  Qlt_bool (RecordSellParams.proceeds p
            - avg_entry_price position * RecordSellParams.amount p) 0
  && Qlt_bool (avg_entry_price position * RecordSellParams.amount p * 1.1)
              (RecordSellParams.proceeds p).

Definition raise_if (c : bool) (params : FlagParams.t) (now : Date) (db : Db)
  : Db :=
  if c then flagIssue params now db else db.

(** The store after the advisory checks of an accepted sell on [position]. *)
Definition advised (p : RecordSellParams.t) (position : Position) (now : Date)
    (db : Db) : Db :=
  raise_if (is_suspicious p position) (flag_suspicious p position) now
    (raise_if (is_oversized position) (flag_oversized p position) now db).

(** recordBuy and recordSell without the monad: one equation per call. *)
Definition recordBuy_flat (p : RecordBuyParams.t) (now : Date) (db : Db)
  : Result Position * Db :=
  if Qle_bool (RecordBuyParams.amount p) 0
  then (Err (InvalidBuyAmount (RecordBuyParams.amount p)), db)
  else if Qle_bool (RecordBuyParams.cost p) 0
  then (Err (InvalidBuyCost (RecordBuyParams.cost p)), db)
  else
    match select_open (positions db) (RecordBuyParams.walletId p)
                      (RecordBuyParams.token p) with
    | [] =>
        let row := opened (positions_id_seq db) p now in
        let db1 := mkDb (positions db) (position_flags db)
                        (positions_id_seq db + 1)%Z (position_flags_id_seq db) in
        if insert_violates (positions db) row then (Err UniqueViolation, db1)
        else (Ok (mapPosition row),
              mkDb (positions db ++ [row]) (position_flags db)
                   (positions_id_seq db + 1)%Z (position_flags_id_seq db))
    | existing :: _ =>
        let rows := update_where_id
                      (bought existing (RecordBuyParams.amount p)
                              (RecordBuyParams.cost p) now)
                      (id existing) (positions db) in
        match where_id (id existing) rows with
        | [] => (Err TypeError, db)
        | r :: _ =>
            (Ok (mapPosition r),
             mkDb rows (position_flags db) (positions_id_seq db)
                  (position_flags_id_seq db))
        end
    end.

Definition recordSell_flat (p : RecordSellParams.t) (now : Date) (db : Db)
  : Result SellResult.t * Db :=
  if Qle_bool (RecordSellParams.amount p) 0
  then (Err (InvalidSellAmount (RecordSellParams.amount p)), db)
  else if Qlt_bool (RecordSellParams.proceeds p) 0
  then (Err (InvalidProceeds (RecordSellParams.proceeds p)), db)
  else
    match select_open (positions db) (RecordSellParams.walletId p)
                      (RecordSellParams.token p) with
    | [] =>
        (Err (NoOpenPosition (RecordSellParams.amount p)
                (RecordSellParams.token p) (RecordSellParams.walletId p)),
         flagIssue (flag_no_position p) now db)
    | position :: _ =>
        if Qlt_bool (current_amount position) (RecordSellParams.amount p)
        then (Err (InsufficientPosition (RecordSellParams.amount p)
                     (RecordSellParams.token p) (current_amount position)
                     (id position)),
              flagIssue (flag_exceeds p position) now db)
        else
          let rows := update_where_id
                        (sold position (RecordSellParams.amount p)
                              (RecordSellParams.proceeds p) now)
                        (id position) (positions db) in
          if update_violates rows (id position) then (Err UniqueViolation, db)
          else
            match where_id (id position) rows with
            | [] => (Err TypeError, db)
            | r :: _ =>
                let dbf := advised p position now db in
                (Ok (SellResult.mk (mapPosition r)
                       (RecordSellParams.proceeds p
                        - avg_entry_price position * RecordSellParams.amount p)
                       (avg_entry_price position * RecordSellParams.amount p)),
                 mkDb rows (position_flags dbf) (positions_id_seq db)
                      (position_flags_id_seq dbf))
            end
    end.

(* ------------------------------------------------------------------ *)
(** ** Invariants of a store and of a row *)

(** The primary key of [positions]: ids are distinct and were all drawn from
    the sequence. *)
Definition wf (db : Db) : Prop :=
  NoDup (map id (positions db))
  /\ Forall (fun i => (i < positions_id_seq db)%Z) (map id (positions db)).

(** No row at all for the pair. *)
Definition not_of_pair (w : Z) (t : string) (r : Position) : Prop :=
  ((wallet_id r =? w)%Z && String.eqb (token r) t) = false.

Definition fresh (w : Z) (t : string) (db : Db) : Prop :=
  Forall (not_of_pair w t) (positions db).

Definition of_pair (w : Z) (t : string) (r : Position) : Prop :=
  wallet_id r = w /\ token r = t.

(** The accounting identity of a row. *)
Definition balanced (r : Position) : Prop :=
  current_amount r == total_entry_amount r - total_exit_amount r
  /\ 0 <= current_amount r.

(** The state of a row against its amounts, one case per state. *)
Definition staged (r : Position) : Prop :=
  0 <= total_exit_amount r
  /\ 0 <= current_amount r
  /\ match status r with
     | OPEN => total_exit_amount r == 0 /\ 0 < current_amount r
               /\ closed_at r = None
     | PARTIAL => 0 < total_exit_amount r /\ 0 < current_amount r
                  /\ closed_at r = None
     | CLOSED => current_amount r == 0 /\ 0 < total_exit_amount r
                 /\ closed_at r <> None
     end.

(** The lifecycle reading of a row's state: OPEN while nothing was sold,
    PARTIAL once something was sold and something remains, CLOSED exactly when
    nothing remains, and a close timestamp exactly on CLOSED rows. *)
Definition lifecycle (r : Position) : Prop :=
  (status r = OPEN <-> total_exit_amount r == 0)
  /\ (status r = PARTIAL <-> 0 < total_exit_amount r /\ 0 < current_amount r)
  /\ (status r = CLOSED <-> current_amount r == 0)
  /\ (status r = CLOSED <-> closed_at r <> None).

Definition rank (st : Status) : nat :=
  match st with OPEN => 0 | PARTIAL => 1 | CLOSED => 2 end.

Definition is_invalid_amount (e : Error) : bool :=
  match e with
  | InvalidBuyAmount _ | InvalidBuyCost _
  | InvalidSellAmount _ | InvalidProceeds _ => true
  | _ => false
  end.

(** The flags a call added to the table. *)
Definition new_flags (db db' : Db) : list Flag :=
  skipn (List.length (position_flags db)) (position_flags db').

Definition FlagType_eqb (a b : FlagType) : bool :=
  match a, b with
  | sell_without_position, sell_without_position
  | sell_exceeds_position, sell_exceeds_position
  | suspicious_pnl, suspicious_pnl
  | oversized_position, oversized_position
  | balance_mismatch, balance_mismatch => true
  | _, _ => false
  end.

Definition count_flags (ft : FlagType) (fs : list Flag) : nat :=
  List.length (filter (fun f => FlagType_eqb (flag_type f) ft) fs).

(** The row with a given id, if any. *)
Definition row_of (i : Z) (db : Db) : option Position :=
  find (fun r => (id r =? i)%Z) (positions db).

(* ------------------------------------------------------------------ *)
(** ** The outcomes of a call, as relations *)

(** When the sell of [p] is acceptable in [db]: the four conditions of
    recordSell's validation. *)
Definition sellable (p : RecordSellParams.t) (db : Db) : Prop :=
  0 < RecordSellParams.amount p
  /\ 0 <= RecordSellParams.proceeds p
  /\ exists position,
       getOpenPosition (RecordSellParams.walletId p)
                       (RecordSellParams.token p) db = Some position
       /\ RecordSellParams.amount p <= current_amount position.

Definition db_after_buy (rows : list Position) (seq : Z) (db : Db) : Db :=
  mkDb rows (position_flags db) seq (position_flags_id_seq db).

Inductive buy_outcome (p : RecordBuyParams.t) (now : Date) (db : Db)
  : Result Position * Db -> Prop :=
| BuyInvalid e :
    RecordBuyParams.amount p <= 0 \/ RecordBuyParams.cost p <= 0 ->
    is_invalid_amount e = true ->
    buy_outcome p now db (Err e, db)
| BuyConstraint :
    0 < RecordBuyParams.amount p -> 0 < RecordBuyParams.cost p ->
    getOpenPosition (RecordBuyParams.walletId p) (RecordBuyParams.token p) db
      = None ->
    insert_violates (positions db) (opened (positions_id_seq db) p now) = true ->
    buy_outcome p now db
      (Err UniqueViolation,
       db_after_buy (positions db) (positions_id_seq db + 1)%Z db)
| BuyOpened :
    0 < RecordBuyParams.amount p -> 0 < RecordBuyParams.cost p ->
    getOpenPosition (RecordBuyParams.walletId p) (RecordBuyParams.token p) db
      = None ->
    insert_violates (positions db) (opened (positions_id_seq db) p now) = false ->
    buy_outcome p now db
      (Ok (opened (positions_id_seq db) p now),
       db_after_buy (positions db ++ [opened (positions_id_seq db) p now])
                    (positions_id_seq db + 1)%Z db)
| BuyAdded existing r0 :
    0 < RecordBuyParams.amount p -> 0 < RecordBuyParams.cost p ->
    getOpenPosition (RecordBuyParams.walletId p) (RecordBuyParams.token p) db
      = Some existing ->
    In existing (positions db) ->
    open_for (RecordBuyParams.walletId p) (RecordBuyParams.token p) existing
      = true ->
    In r0 (positions db) -> id r0 = id existing ->
    buy_outcome p now db
      (Ok (bought existing (RecordBuyParams.amount p) (RecordBuyParams.cost p)
                  now r0),
       db_after_buy
         (update_where_id
            (bought existing (RecordBuyParams.amount p)
                    (RecordBuyParams.cost p) now)
            (id existing) (positions db))
         (positions_id_seq db) db).

Definition sold_rows (p : RecordSellParams.t) (position : Position)
    (now : Date) (db : Db) : list Position :=
  update_where_id
    (sold position (RecordSellParams.amount p) (RecordSellParams.proceeds p) now)
    (id position) (positions db).

Inductive sell_outcome (p : RecordSellParams.t) (now : Date) (db : Db)
  : Result SellResult.t * Db -> Prop :=
| SellInvalid e :
    RecordSellParams.amount p <= 0 \/ RecordSellParams.proceeds p < 0 ->
    is_invalid_amount e = true ->
    sell_outcome p now db (Err e, db)
| SellNoPosition :
    0 < RecordSellParams.amount p -> 0 <= RecordSellParams.proceeds p ->
    getOpenPosition (RecordSellParams.walletId p) (RecordSellParams.token p) db
      = None ->
    sell_outcome p now db
      (Err (NoOpenPosition (RecordSellParams.amount p)
              (RecordSellParams.token p) (RecordSellParams.walletId p)),
       flagIssue (flag_no_position p) now db)
| SellExceeds position :
    0 < RecordSellParams.amount p -> 0 <= RecordSellParams.proceeds p ->
    getOpenPosition (RecordSellParams.walletId p) (RecordSellParams.token p) db
      = Some position ->
    current_amount position < RecordSellParams.amount p ->
    sell_outcome p now db
      (Err (InsufficientPosition (RecordSellParams.amount p)
              (RecordSellParams.token p) (current_amount position)
              (id position)),
       flagIssue (flag_exceeds p position) now db)
| SellConstraint position :
    0 < RecordSellParams.amount p -> 0 <= RecordSellParams.proceeds p ->
    getOpenPosition (RecordSellParams.walletId p) (RecordSellParams.token p) db
      = Some position ->
    RecordSellParams.amount p <= current_amount position ->
    update_violates (sold_rows p position now db) (id position) = true ->
    sell_outcome p now db (Err UniqueViolation, db)
| SellAccepted position r0 :
    0 < RecordSellParams.amount p -> 0 <= RecordSellParams.proceeds p ->
    getOpenPosition (RecordSellParams.walletId p) (RecordSellParams.token p) db
      = Some position ->
    In position (positions db) ->
    open_for (RecordSellParams.walletId p) (RecordSellParams.token p) position
      = true ->
    RecordSellParams.amount p <= current_amount position ->
    update_violates (sold_rows p position now db) (id position) = false ->
    In r0 (positions db) -> id r0 = id position ->
    sell_outcome p now db
      (Ok (SellResult.mk
             (sold position (RecordSellParams.amount p)
                   (RecordSellParams.proceeds p) now r0)
             (RecordSellParams.proceeds p
              - avg_entry_price position * RecordSellParams.amount p)
             (avg_entry_price position * RecordSellParams.amount p)),
       mkDb (sold_rows p position now db)
            (position_flags (advised p position now db))
            (positions_id_seq db)
            (position_flags_id_seq (advised p position now db))).

(** A row property [P] holds of every row of the pair, in a store whose
    primary key is sound. *)
Definition holds (P : Position -> Prop) (w : Z) (t : string) (db : Db) : Prop :=
  wf db /\ forall r, In r (positions db) -> of_pair w t r -> P r.

(** A callback is one unit with its transaction when all it writes goes
    through the client: while it runs, the committed tables stay as they were,
    so that COMMIT or ROLLBACK decides for all of its writes at once. *)
Definition one_unit {A} (body : M A) : Prop :=
  forall db,
    positions (store (snd (body (mkSession db (positions db))))) = positions db
    /\ position_flags (store (snd (body (mkSession db (positions db)))))
       = position_flags db.

(** All-or-nothing on the persisted tables: a call that fails, and so rolls its
    transaction back, leaves both tables as they were. *)
Definition all_or_nothing {A} (f : Db -> Result A * Db) : Prop :=
  forall db,
    is_ok (fst (f db)) = false ->
    positions (snd (f db)) = positions db
    /\ position_flags (snd (f db)) = position_flags db.

(** The row flagIssue inserts when the sequence stands at [i]. *)
Definition flag_row (params : FlagParams.t) (i : Z) (now : Date) : Flag :=
  mkFlag i (or_null (FlagParams.positionId params))
         (or_null (FlagParams.tradeId params)) (FlagParams.walletId params)
         (FlagParams.flagType params) (FlagParams.severity params)
         (FlagParams.description params) false now.

(** The flag rows the advisory checks of an accepted sell insert. *)
Definition advisory (p : RecordSellParams.t) (position : Position) (now : Date)
    (db : Db) : list Flag :=
  (if is_oversized position
   then [flag_row (flag_oversized p position) (position_flags_id_seq db) now]
   else [])
  ++ (if is_suspicious p position
      then [flag_row (flag_suspicious p position)
                     (if is_oversized position
                      then position_flags_id_seq db + 1
                      else position_flags_id_seq db)%Z now]
      else []).

(* ------------------------------------------------------------------ *)
(** ** The scenario of the README: wallet 1 trades SOL *)

Definition buy_100 : RecordBuyParams.t :=
  RecordBuyParams.mk 1 "SOL" 100 1000 1001.

Definition sell_30 : RecordSellParams.t :=
  RecordSellParams.mk 1 "SOL" 30 360 1002.

Definition sell_70 : RecordSellParams.t :=
  RecordSellParams.mk 1 "SOL" 70 770 1003.

Definition sell_150 : RecordSellParams.t :=
  RecordSellParams.mk 1 "SOL" 150 1800 1004.

Definition buy_nothing : RecordBuyParams.t :=
  RecordBuyParams.mk 1 "SOL" 0 1000 1005.

(** The store after the first buy, at time 10. *)
Definition db_100 : Db := snd (recordBuy buy_100 10 empty_db).

(** A large holding: 6000 units bought for 60000, then 1000 sold for 12000. *)
Definition buy_6000 : RecordBuyParams.t :=
  RecordBuyParams.mk 2 "SOL" 6000 60000 2001.

Definition sell_1000 : RecordSellParams.t :=
  RecordSellParams.mk 2 "SOL" 1000 12000 2002.

Definition db_6000 : Db := snd (recordBuy buy_6000 10 db_100).

(* ------------------------------------------------------------------ *)
(** ** The life of one row *)

(** What one call can do to a row that is already in the table: nothing, or
    the rewrite of an accepted buy or sell that looked this row up. *)
Inductive row_step : Position -> Position -> Prop :=
| step_same r : row_step r r
| step_bought r amount cost now :
    open_or_partial (status r) = true -> 0 < amount -> 0 < cost ->
    row_step r (bought r amount cost now r)
| step_sold r amount proceeds now :
    open_or_partial (status r) = true -> 0 < amount -> 0 <= proceeds ->
    amount <= current_amount r ->
    row_step r (sold r amount proceeds now r).

(** A row property kept by every rewrite and true of every inserted row. *)
Definition row_invariant (P : Position -> Prop) : Prop :=
  (forall i p now,
     0 < RecordBuyParams.amount p -> 0 < RecordBuyParams.cost p ->
     P (opened i p now))
  /\ (forall r r', row_step r r' -> P r -> P r').

(** The average entry price of a row is its cumulative cost over its
    cumulative amount. *)
Definition priced (r : Position) : Prop :=
  avg_entry_price r == total_entry_cost r / total_entry_amount r.

(** A store that holds a position of another wallet only. *)
Definition db_other : Db := snd (recordBuy buy_6000 10 empty_db).

Definition calls_100_30 : list Call :=
  [CallBuy buy_100 20; CallSell sell_30 30].

From Stdlib Require Import Qround.

(* ------------------------------------------------------------------ *)
(** ** Further notions on the tables *)

(** How many rows of the pair are OPEN or PARTIAL. *)
Definition count_open (w : Z) (t : string) (db : Db) : nat :=
  List.length (filter (open_for w t) (positions db)).

(** What stays of a row, and what only grows, whatever is recorded: the
    columns no UPDATE of the tracker writes, and the four cumulative totals. *)
Definition evolves (r r' : Position) : Prop :=
  id r' = id r
  /\ wallet_id r' = wallet_id r
  /\ token r' = token r
  /\ entry_trade_id r' = entry_trade_id r
  /\ entry_timestamp r' = entry_timestamp r
  /\ first_entry_at r' = first_entry_at r
  /\ created_at r' = created_at r
  /\ total_entry_amount r <= total_entry_amount r'
  /\ total_entry_cost r <= total_entry_cost r'
  /\ total_exit_amount r <= total_exit_amount r'
  /\ total_exit_proceeds r <= total_exit_proceeds r'.

(** The primary key of [position_flags]. *)
Definition wf_flags (db : Db) : Prop :=
  NoDup (map flag_id (position_flags db))
  /\ Forall (fun i => (i < position_flags_id_seq db)%Z)
            (map flag_id (position_flags db)).

(** The store of the scenario after the position was closed and a second one
    opened by a new buy at time 40. *)
Definition db_reopened : Db :=
  call (CallBuy buy_100 40)
       (run [CallSell sell_30 20; CallSell sell_70 30] db_100).

Definition sell_100 : RecordSellParams.t :=
  RecordSellParams.mk 1 "SOL" 100 1100 1009.

Definition is_buy (c : Call) : bool :=
  match c with CallBuy _ _ => true | CallSell _ _ => false end.

(** The realized P&L of a row is its cumulative exit proceeds minus its
    average entry price times its cumulative exit amount. *)
Definition settled (r : Position) : Prop :=
  realized_pnl r
  == total_exit_proceeds r - avg_entry_price r * total_exit_amount r.

(** Nothing was sold from the row yet. *)
Definition unsold (r : Position) : Prop :=
  total_exit_amount r == 0 /\ total_exit_proceeds r == 0 /\ realized_pnl r == 0.

Definition buy_50 : RecordBuyParams.t :=
  RecordBuyParams.mk 1 "SOL" 50 600 1006.

(* ------------------------------------------------------------------ *)
(** ** A caller: handleTradeExecution *)

Inductive TradeAction := BUY | SELL.

Module Trade.
Record t := mk {
  id : Z;
  wallet_id : Z;
  tv_action : TradeAction;
  input_token : string;
  output_token : string;
  input_amount : Q;
  output_amount : Q;
  status : string
}.
End Trade.

(** A row of [trades], cut down to its key and the two columns the statements
    of handleTradeExecution write; [error.message] is kept as the error. *)
Record TradeRow := mkTradeRow {
  trade_row_id : Z;
  trade_status : string;
  trade_error_message : option Error
}.

(** The store with its [trades] table. *)
Record Ledger := mkLedger {
  ledger : Db;
  trades : list TradeRow
}.

(** UPDATE trades SET status = $1 WHERE id = $2 *)
Definition set_trade_status (st : string) (i : Z) (rows : list TradeRow)
  : list TradeRow :=
  map (fun r => if (trade_row_id r =? i)%Z
                then mkTradeRow (trade_row_id r) st (trade_error_message r)
                else r) rows.

(** UPDATE trades SET status = $1, error_message = $2 WHERE id = $3 *)
Definition set_trade_error (st : string) (e : Error) (i : Z)
    (rows : list TradeRow) : list TradeRow :=
  map (fun r => if (trade_row_id r =? i)%Z
                then mkTradeRow (trade_row_id r) st (Some e)
                else r) rows.

Definition handleTradeExecution (trade : Trade.t) (now : Date) (s : Ledger)
  : Result unit * Ledger :=
  match Trade.tv_action trade with
  | BUY =>
      match recordBuy (RecordBuyParams.mk (Trade.wallet_id trade)
                         (Trade.output_token trade) (Trade.output_amount trade)
                         (Trade.input_amount trade) (Trade.id trade))
                      now (ledger s) with
      | (Ok _, db) =>
          (Ok tt,
           mkLedger db (set_trade_status "position_tracked" (Trade.id trade)
                                         (trades s)))
      | (Err error, db) =>
          (Err error,
           mkLedger db (set_trade_error "position_error" error (Trade.id trade)
                                        (trades s)))
      end
  | SELL =>
      match recordSell (RecordSellParams.mk (Trade.wallet_id trade)
                          (Trade.input_token trade) (Trade.input_amount trade)
                          (Trade.output_amount trade) (Trade.id trade))
                       now (ledger s) with
      | (Ok _, db) =>
          (Ok tt,
           mkLedger db (set_trade_status "position_tracked" (Trade.id trade)
                                         (trades s)))
      | (Err error, db) =>
          (Err error,
           mkLedger db (set_trade_error "position_error" error (Trade.id trade)
                                        (trades s)))
      end
  end.

(** The mock trade of the examples, a sell of it, and a [trades] table. *)
Definition trade_8001 : Trade.t :=
  Trade.mk 8001 1 BUY "USDC" "SOL" 500 50 "executed".

Definition trade_8002 : Trade.t :=
  Trade.mk 8002 1 SELL "SOL" "USDC" 500 6000 "executed".

Definition ledger_100 : Ledger :=
  mkLedger db_100 [mkTradeRow 8001 "executed" None;
                   mkTradeRow 8002 "executed" None].

(* ------------------------------------------------------------------ *)
(** ** The set-up of the test suite *)

(** beforeEach: DELETE FROM position_flags WHERE wallet_id = $1, then
    DELETE FROM positions WHERE wallet_id = $1.  The two sequences go on from
    where they were. *)
Definition beforeEach (testWalletId : Z) (db : Db) : Db :=
  mkDb (filter (fun r => negb (wallet_id r =? testWalletId)%Z) (positions db))
       (filter (fun f => negb (flag_wallet_id f =? testWalletId)%Z)
               (position_flags db))
       (positions_id_seq db) (position_flags_id_seq db).

(* ------------------------------------------------------------------ *)
(** ** The token table (lib/config/tokens) *)

Module Tokens.

Local Open Scope string_scope.

Record TokenConfig := mkToken {
  symbol : string;
  mint : string;
  decimals : Z;
  name : string
}.

Definition TOKENS : list (string * TokenConfig) :=
  [("SOL", mkToken "SOL" "So11111111111111111111111111111111111111112" 9
                   "Solana");
   ("USDC", mkToken "USDC" "EPjFWdd5AufqSSqeM2qN1xzybapC8G4wEGGkZwyTDt1v" 6
                    "USD Coin");
   ("FARTCOIN", mkToken "FARTCOIN"
                        "9BB6NFEcjBCtnNLFko2FqVQBq8HHM13kCyYcdQbgpump" 6
                        "Fartcoin");
   ("FARTBOY", mkToken "FARTBOY" "y1AZt42vceCmStjW4zetK3VoNarC1VxJ5iDjpiupump" 6
                       "Fartboy");
   ("USELESS", mkToken "USELESS" "Dz9mQ9NzkBcCsuGPFJ3r1bS4wgqKMHBPiVuniW8Mbonk"
                       6 "Useless")].

(** The property names every object literal inherits from Object.prototype. *)
Definition object_prototype : list string :=
  ["constructor"; "__defineGetter__"; "__defineSetter__"; "hasOwnProperty";
   "__lookupGetter__"; "__lookupSetter__"; "isPrototypeOf";
   "propertyIsEnumerable"; "toString"; "valueOf"; "__proto__";
   "toLocaleString"].

(** What [TOKENS[key]] evaluates to: an entry of the table, an inherited
    member (truthy, but without [mint] or [decimals]), or undefined. *)
Inductive Lookup :=
| Own (token : TokenConfig)
| Inherited
| Absent.

Fixpoint own_property (key : string) (table : list (string * TokenConfig))
  : option TokenConfig :=
  match table with
  | [] => None
  | (k, v) :: rest => if String.eqb k key then Some v else own_property key rest
  end.

Definition lookup (key : string) : Lookup :=
  match own_property key TOKENS with
  | Some token => Own token
  | None => if existsb (String.eqb key) object_prototype then Inherited
            else Absent
  end.

(** getMintAddress: the thrown message on the left; on the right the mint,
    [None] standing for undefined. *)
Definition getMintAddress (toUpperCase : string -> string) (symbol : string)
  : string + option string :=
  match lookup (toUpperCase symbol) with
  | Own token => inr (Some (mint token))
  | Inherited => inr None
  | Absent => inl (String.append "Unknown token symbol: " symbol)
  end.

Definition getTokenDecimals (toUpperCase : string -> string) (symbol : string)
  : string + option Z :=
  match lookup (toUpperCase symbol) with
  | Own token => inr (Some (decimals token))
  | Inherited => inr None
  | Absent => inl (String.append "Unknown token symbol: " symbol)
  end.

End Tokens.

(* ------------------------------------------------------------------ *)
(** ** The webhook: parsing, routing, validation, amounts *)

Module Webhook.

Local Open Scope string_scope.

(** The values a request body can be: what express.json() parses, or
    undefined when there is no body. *)
#[warnings="-register-all"] Inductive JsValue :=
| JsUndefined
| JsNull
| JsBool (b : bool)
| JsNumber (n : Q)
| JsString (s : string)
| JsArray (items : list JsValue)
| JsObject (props : list (string * JsValue)).

Definition truthy (v : JsValue) : bool :=
  match v with
  | JsUndefined | JsNull => false
  | JsBool b => b
  | JsNumber n => negb (Qeq_bool n 0)
  | JsString s => negb (String.eqb s "")
  | JsArray _ | JsObject _ => true
  end.

(** typeof v === 'object' *)
Definition is_object (v : JsValue) : bool :=
  match v with
  | JsNull | JsArray _ | JsObject _ => true
  | _ => false
  end.

(** The last binding of a key, as JSON.parse keeps it. *)
Fixpoint last_binding (key : string) (props : list (string * JsValue))
  : option JsValue :=
  match props with
  | [] => None
  | (k, v) :: rest =>
      match last_binding key rest with
      | Some v' => Some v'
      | None => if String.eqb k key then Some v else None
      end
  end.

(** body.key for the keys read here, none of which an object or an array
    inherits. *)
Definition get (body : JsValue) (key : string) : JsValue :=
  match body with
  | JsObject props =>
      match last_binding key props with
      | Some v => v
      | None => JsUndefined
      end
  | _ => JsUndefined
  end.

(** The string [v] when [!v || typeof v !== 'string'] is false. *)
Definition nonempty_string (v : JsValue) : option string :=
  match v with
  | JsString s => if String.eqb s "" then None else Some s
  | _ => None
  end.

Record TradingViewWebhook := mkWebhook {
  symbol : string;
  action : string;
  timeframe : string;
  price : JsValue
}.

Inductive ParseResult :=
| ParseOk (data : TradingViewWebhook)
| ParseFail (error : string).

Definition validSymbols : list string :=
  ["SOLUSD"; "FARTCOIN"; "FARTBOY"; "USELESS"].

Definition parseWebhook (toUpperCase : string -> string) (body : JsValue)
  : ParseResult :=
  if negb (truthy body) || negb (is_object body)
  then ParseFail "Invalid request body"
  else
    let price := get body "price" in
    match nonempty_string (get body "symbol") with
    | None => ParseFail "Missing or invalid field: symbol"
    | Some symbol =>
        match nonempty_string (get body "action") with
        | None => ParseFail "Missing or invalid field: action"
        | Some action =>
            match nonempty_string (get body "timeframe") with
            | None => ParseFail "Missing or invalid field: timeframe"
            | Some timeframe =>
                let normalizedAction := toUpperCase action in
                if negb (String.eqb normalizedAction "BUY")
                   && negb (String.eqb normalizedAction "SELL")
                then ParseFail
                       (String.append "Invalid action: "
                          (String.append action " (must be BUY or SELL)"))
                else
                  let normalizedSymbol := toUpperCase symbol in
                  if negb (existsb (String.eqb normalizedSymbol) validSymbols)
                  then ParseFail
                         (String.append "Invalid symbol: "
                            (String.append symbol
                               (String.append " (must be one of "
                                  (String.append
                                     (String.concat ", " validSymbols) ")"))))
                  else ParseOk
                         (mkWebhook normalizedSymbol normalizedAction timeframe
                                    (if truthy price then price
                                     else JsString "0"))
            end
        end
    end.

(** The body that carries a parsed webhook. *)
Definition to_body (data : TradingViewWebhook) : JsValue :=
  JsObject [("symbol", JsString (symbol data));
            ("action", JsString (action data));
            ("timeframe", JsString (timeframe data));
            ("price", price data)].

Inductive WalletType :=
| sol_30m | sol_60m | sol_240m | fartcoin | fartboy | useless.

Definition walletNameMap (walletType : WalletType) : string :=
  match walletType with
  | sol_30m => "SOL_30M"
  | sol_60m => "SOL_60M"
  | sol_240m => "SOL_240M"
  | fartcoin => "FARTCOIN"
  | fartboy => "FARTBOY"
  | useless => "USELESS"
  end.

(** A row of [wallets], cut down to its key, the name routing selects by,
    and the three columns that say what the wallet trades. *)
Record WalletRow := mkWalletRow {
  wallet_row_id : Z;
  wallet_name : string;
  wallet_timeframe : option string;
  base_token : string;
  quote_token : string
}.

(** The six rows schema.sql inserts, with the ids SERIAL gives them. *)
Definition initial_wallets : list WalletRow :=
  [mkWalletRow 1 "SOL_30M" (Some "30") "USDC" "SOL";
   mkWalletRow 2 "SOL_60M" (Some "60") "USDC" "SOL";
   mkWalletRow 3 "SOL_240M" (Some "240") "USDC" "SOL";
   mkWalletRow 4 "FARTCOIN" None "SOL" "FARTCOIN";
   mkWalletRow 5 "FARTBOY" None "SOL" "FARTBOY";
   mkWalletRow 6 "USELESS" None "SOL" "USELESS"].

Record RouteInfo (Keypair : Type) := mkRoute {
  walletType : WalletType;
  wallet : Keypair;
  walletId : Z;
  inputToken : string;
  outputToken : string;
  inputMint : option string;
  outputMint : option string
}.
Arguments mkRoute {Keypair}.
Arguments walletType {Keypair}.
Arguments wallet {Keypair}.
Arguments walletId {Keypair}.
Arguments inputToken {Keypair}.
Arguments outputToken {Keypair}.
Arguments inputMint {Keypair}.
Arguments outputMint {Keypair}.

Inductive RouteResult (Keypair : Type) :=
| RouteOk (data : RouteInfo Keypair)
| RouteFail (error : string).
Arguments RouteOk {Keypair}.
Arguments RouteFail {Keypair}.

(** The wallet type and the two tokens of a symbol, action and timeframe, or
    the message of the routing error. *)
Definition route_tokens (symbol action timeframe : string)
  : string + (WalletType * string * string) :=
  if String.eqb symbol "SOLUSD" then
    match (if String.eqb timeframe "30" then Some sol_30m
           else if String.eqb timeframe "60" then Some sol_60m
           else if String.eqb timeframe "240" then Some sol_240m
           else None) with
    | None =>
        inl (String.append "Invalid timeframe for SOL trade: "
               (String.append timeframe " (must be 30, 60, or 240)"))
    | Some walletType =>
        inr (walletType,
             (if String.eqb action "BUY" then "USDC" else "SOL"),
             (if String.eqb action "BUY" then "SOL" else "USDC"))
    end
  else
    match (if String.eqb symbol "FARTCOIN" then Some fartcoin
           else if String.eqb symbol "FARTBOY" then Some fartboy
           else if String.eqb symbol "USELESS" then Some useless
           else None) with
    | None => inl (String.append "Unknown meme coin: " symbol)
    | Some walletType =>
        inr (walletType,
             (if String.eqb action "BUY" then "SOL" else symbol),
             (if String.eqb action "BUY" then symbol else "SOL"))
    end.

(** routeToWallet.  [getWalletForType] is the key derivation of
    lib/wallet/generator, which reads the environment: it gives a keypair or
    throws, the message on the left.  Whatever is thrown inside the try block
    comes back as a failed routing with that message. *)
Definition routeToWallet {Keypair : Type} (toUpperCase : string -> string)
    (getWalletForType : WalletType -> string + Keypair)
    (wallets : list WalletRow) (symbol action timeframe : string)
  : RouteResult Keypair :=
  match route_tokens symbol action timeframe with
  | inl error => RouteFail error
  | inr (walletType, inputToken, outputToken) =>
      match getWalletForType walletType with
      | inl message => RouteFail message
      | inr wallet =>
          match Tokens.getMintAddress toUpperCase inputToken with
          | inl message => RouteFail message
          | inr inputMint =>
              match Tokens.getMintAddress toUpperCase outputToken with
              | inl message => RouteFail message
              | inr outputMint =>
                  let walletName := walletNameMap walletType in
                  match filter (fun row => String.eqb (wallet_name row)
                                                      walletName) wallets with
                  | [] =>
                      RouteFail (String.append "Wallet not found in database: "
                                               walletName)
                  | row :: _ =>
                      RouteOk (mkRoute walletType wallet (wallet_row_id row)
                                       inputToken outputToken inputMint
                                       outputMint)
                  end
              end
          end
      end
  end.

(** Math.max on two numbers. *)
Definition Math_max (a b : Q) : Q := if Qle_bool a b then b else a.

Definition MIN_GAS_RESERVE : Q := 0.01.
Definition MIN_OUTPUT_AMOUNT : Q := 0.0001.

Inductive AmountsResult :=
| AmountsOk (inputAmount : Q) (inputAmountRaw : option Z) (outputToken : string)
| AmountsFail (error : string).

(** calculateAmounts.  [inputAmountRaw] is [None] when it is NaN, which is
    what Math.pow gives for the undefined decimals of an inherited member;
    reading the decimals of undefined throws, and the message comes back as
    a failure. *)
Definition calculateAmounts {Keypair : Type} (route : RouteInfo Keypair)
    (action : string) (balance : Q) : AmountsResult :=
  let inputAmount :=
    if String.eqb action "BUY" then
      if String.eqb (inputToken route) "SOL"
      then Math_max 0 (balance - MIN_GAS_RESERVE) else balance
    else
      if String.eqb (inputToken route) "SOL"
      then Math_max 0 (balance - MIN_GAS_RESERVE) else balance in
  if Qle_bool inputAmount 0
  then AmountsFail "No funds available to trade after gas reserve"
  else
    match Tokens.lookup (inputToken route) with
    | Tokens.Absent =>
        AmountsFail
          "Cannot read properties of undefined (reading 'decimals')"
    | Tokens.Inherited => AmountsOk inputAmount None (outputToken route)
    | Tokens.Own token =>
        AmountsOk inputAmount
                  (Some (Qfloor (inputAmount
                                 * inject_Z (10 ^ Tokens.decimals token))))
                  (outputToken route)
    end.

Inductive ValidateResult :=
| ValidOk (balance : Q)
| ValidFail (reason : string) (error : string + (string * Q * Q)).

(** preValidate.  The two calls to the Helius client are taken as what they
    give back: lamports, respectively the [uiAmount] of each token account
    ([None] for a null one), or the message of what they throw.  The error of
    a low balance is kept as token, balance and minimum. *)
Definition preValidate {Keypair : Type} (address : Keypair -> string)
    (getSolBalance : string -> string + Q)
    (getTokenAccountsByOwner : string -> option string
                               -> string + list (option Q))
    (db : Db) (route : RouteInfo Keypair) (action : string)
  : ValidateResult :=
  let walletAddress := address (wallet route) in
  match (if String.eqb (inputToken route) "SOL" then
           match getSolBalance walletAddress with
           | inl message => inl message
           | inr lamports => inr (lamports / 1000000000)
           end
         else
           match getTokenAccountsByOwner walletAddress (inputMint route) with
           | inl message => inl message
           | inr accounts =>
               inr (fold_left
                      (fun sum acc =>
                         sum + match acc with
                               | Some uiAmount =>
                                   if Qeq_bool uiAmount 0 then 0 else uiAmount
                               | None => 0
                               end)
                      accounts 0)
           end) with
  | inl message => ValidFail "validation_error" (inl message)
  | inr balance =>
      let minRequired :=
        if String.eqb (inputToken route) "SOL" then MIN_GAS_RESERVE
        else MIN_OUTPUT_AMOUNT in
      if Qlt_bool balance minRequired
      then ValidFail "insufficient_balance"
                     (inr (inputToken route, balance, minRequired))
      else if String.eqb action "SELL" then
        match getOpenPosition (walletId route) (inputToken route) db with
        | None =>
            ValidFail "no_open_position"
              (inl (String.append "Cannot SELL "
                      (String.append (inputToken route)
                                     ": no open position in wallet")))
        | Some position => ValidOk balance
        end
      else ValidOk balance
  end.

(** Step 11 of the webhook: the position tracker is told of the verified
    trade, the amounts being those of the verification; what it throws is
    logged and dropped. *)
Definition track_position {Keypair : Type} (route : RouteInfo Keypair)
    (action : string) (inputAmount outputAmount : Q) (tradeId : Z) (now : Date)
    (db : Db) : Db :=
  if String.eqb action "BUY"
  then snd (recordBuy (RecordBuyParams.mk (walletId route) (outputToken route)
                         outputAmount inputAmount tradeId) now db)
  else snd (recordSell (RecordSellParams.mk (walletId route) (inputToken route)
                          inputAmount outputAmount tradeId) now db).

(** The ASCII part of toUpperCase, for examples. *)
Definition upper_ascii (c : Ascii.ascii) : Ascii.ascii :=
  let n := Ascii.nat_of_ascii c in
  if ((97 <=? n) && (n <=? 122))%nat then Ascii.ascii_of_nat (n - 32) else c.

Fixpoint upper (s : string) : string :=
  match s with
  | EmptyString => EmptyString
  | String c rest => String (upper_ascii c) (upper rest)
  end.

(** *** updateTradeStatus *)

(** The optional [data] of updateTradeStatus; a field that is left out is
    [None]. *)
Record StatusData := mkStatusData {
  signature : option string;
  outputAmount : option Q;
  actualSlippage : option Q;
  error : option string;
  reason : option string;
  quoteJson : option JsValue;
  verificationJson : option JsValue
}.

Inductive SqlValue :=
| SqlId (i : Z)
| SqlNumber (n : Q)
| SqlText (s : string).

(** An element of [updates]: [column = $param], or [column = NOW()]. *)
Inductive Update :=
| Assign (column : string) (param : nat)
| AssignNow (column : string).

Definition column_of (u : Update) : string :=
  match u with Assign column _ | AssignNow column => column end.

Fixpoint params_of (updates : list Update) : list nat :=
  match updates with
  | [] => []
  | Assign _ param :: rest => param :: params_of rest
  | AssignNow _ :: rest => params_of rest
  end.

(** [data?.field] *)
Definition field {A} (data : option StatusData)
    (f : StatusData -> option A) : option A :=
  match data with
  | Some d => f d
  | None => None
  end.

(** The state of the builder: [updates], [values] and [paramIndex]. *)
Definition Builder : Type := list Update * list SqlValue * nat.

(** updates.push(`column = $${paramIndex++}`); values.push(value) *)
Definition push (column : string) (value : SqlValue) (b : Builder) : Builder :=
  let '(updates, values, paramIndex) := b in
  ((updates ++ [Assign column paramIndex])%list, (values ++ [value])%list,
   S paramIndex).

Definition push_now (column : string) (b : Builder) : Builder :=
  let '(updates, values, paramIndex) := b in
  ((updates ++ [AssignNow column])%list, values, paramIndex).

(** [if (value) { ... }] for a string that may be left out, and for a JSON
    value that may be. *)
Definition truthy_text (value : option string) : option string :=
  match value with
  | Some s => if String.eqb s "" then None else Some s
  | None => None
  end.

Definition truthy_json (value : option JsValue) : option JsValue :=
  match value with
  | Some v => if truthy v then Some v else None
  | None => None
  end.

(** One conditional block of the builder. *)
Definition when {A} (value : option A) (block : A -> Builder -> Builder)
    (b : Builder) : Builder :=
  match value with
  | Some a => block a b
  | None => b
  end.

(** The statement updateTradeStatus sends: the assignments of
    [UPDATE trades SET ... WHERE id = $1] and its values.  [stringify] is
    JSON.stringify. *)
Definition updateTradeStatus (stringify : JsValue -> string) (tradeId : Z)
    (status : string) (data : option StatusData)
  : list Update * list SqlValue :=
  let b : Builder :=
    ([Assign "status" 2], [SqlId tradeId; SqlText status], 3%nat) in
  let b :=
    when (truthy_text (field data signature))
         (fun s b => push_now "execution_timestamp"
                              (push "signature" (SqlText s) b)) b in
  let b :=
    when (field data outputAmount)
         (fun n => push "output_amount" (SqlNumber n)) b in
  let b :=
    when (field data actualSlippage)
         (fun n => push "actual_slippage_pct" (SqlNumber n)) b in
  let b :=
    when (truthy_text (field data error))
         (fun s => push "error_message" (SqlText s)) b in
  let b :=
    when (truthy_text (field data reason))
         (fun s => push "rejection_reason" (SqlText s)) b in
  let b :=
    when (truthy_json (field data quoteJson))
         (fun v => push "quote_json" (SqlText (stringify v))) b in
  let b :=
    when (truthy_json (field data verificationJson))
         (fun v => push "verification_json" (SqlText (stringify v))) b in
  (fst (fst b), snd (fst b)).

(** What each column is to be set to: the field of [data] it is for. *)
Definition column_value (stringify : JsValue -> string)
    (data : option StatusData) (column : string) : option SqlValue :=
  if String.eqb column "signature"
  then option_map SqlText (field data signature)
  else if String.eqb column "output_amount"
  then option_map SqlNumber (field data outputAmount)
  else if String.eqb column "actual_slippage_pct"
  then option_map SqlNumber (field data actualSlippage)
  else if String.eqb column "error_message"
  then option_map SqlText (field data error)
  else if String.eqb column "rejection_reason"
  then option_map SqlText (field data reason)
  else if String.eqb column "quote_json"
  then option_map (fun v => SqlText (stringify v)) (field data quoteJson)
  else if String.eqb column "verification_json"
  then option_map (fun v => SqlText (stringify v))
                  (field data verificationJson)
  else None.

(** What holds of the builder after each block, [done] being the columns
    dealt with so far: the parameters are numbered as the values lie, no
    column is assigned twice, and each parameter stands where the value of
    its column is. *)
Definition built (stringify : JsValue -> string) (tradeId : Z)
    (status : string) (data : option StatusData) (done : list string)
    (b : Builder) : Prop :=
  let '(updates, values, paramIndex) := b in
  paramIndex = S (List.length values)
  /\ params_of updates = seq 2 (List.length values - 1)
  /\ firstn 2 values = [SqlId tradeId; SqlText status]
  /\ hd_error updates = Some (Assign "status" 2)
  /\ NoDup (map column_of updates)
  /\ incl (map column_of updates) done
  /\ (forall column k,
        In (Assign column k) updates -> column <> "status" ->
        nth_error values (k - 1) = column_value stringify data column
        /\ column_value stringify data column <> None)
  /\ (forall column,
        In (AssignNow column) updates ->
        column = "execution_timestamp"
        /\ In "signature" (map column_of updates)).

(** *** runBalanceCheck *)

(** A row of [balance_checks], as runBalanceCheck inserts it. *)
Record BalanceCheck := mkBalanceCheck {
  check_wallet_id : Z;
  check_token : string;
  db_balance : Q;
  onchain_balance : Q;
  discrepancy : Q;
  is_mismatch : bool
}.

(** One turn of the loop of runBalanceCheck: the row it inserts, or nothing
    when something was thrown and caught. *)
Definition check_token_balance {Keypair : Type}
    (toUpperCase : string -> string) (address : Keypair -> string)
    (getSolBalance : string -> string + Q)
    (getTokenAccountsByOwner : string -> option string
                               -> string + list (option Q))
    (route : RouteInfo Keypair) (token : string) : list BalanceCheck :=
  match Tokens.getMintAddress toUpperCase token with
  | inl message => []
  | inr mint =>
      match (if String.eqb token "SOL" then
               match getSolBalance (address (wallet route)) with
               | inl message => inl message
               | inr lamports => inr (lamports / 1000000000)
               end
             else
               match getTokenAccountsByOwner (address (wallet route)) mint with
               | inl message => inl message
               | inr accounts =>
                   inr (fold_left
                          (fun sum acc =>
                             sum + match acc with
                                   | Some uiAmount =>
                                       if Qeq_bool uiAmount 0 then 0
                                       else uiAmount
                                   | None => 0
                                   end)
                          accounts 0)
               end) with
      | inl message => []
      | inr onchainBalance =>
          [mkBalanceCheck (walletId route) token 0 onchainBalance 0 false]
      end
  end.

(** runBalanceCheck: the rows it inserts, in order.  The answers of the
    Helius client are taken not to change between the two turns. *)
Definition runBalanceCheck {Keypair : Type} (toUpperCase : string -> string)
    (address : Keypair -> string) (getSolBalance : string -> string + Q)
    (getTokenAccountsByOwner : string -> option string
                               -> string + list (option Q))
    (route : RouteInfo Keypair) (action : string) : list BalanceCheck :=
  (check_token_balance toUpperCase address getSolBalance
                       getTokenAccountsByOwner route (inputToken route)
   ++ check_token_balance toUpperCase address getSolBalance
                          getTokenAccountsByOwner route (outputToken route))%list.

(** The examples: the first alert of test-webhook.sh in lower case, and one on
    a chart of 15 minutes; a key derivation that never throws, where the
    wallet type stands for its keypair and its name for its address; the
    routes of three alerts under the seeded wallets; a wallet holding 2 SOL,
    and 100 units of any other token in one of two accounts. *)
Definition alert_buy_sol : JsValue :=
  JsObject [("symbol", JsString "solusd"); ("action", JsString "buy");
            ("timeframe", JsString "30"); ("price", JsString "180.50")].

Definition webhook_buy_sol : TradingViewWebhook :=
  mkWebhook "SOLUSD" "BUY" "30" (JsString "180.50").

Definition alert_buy_sol_15 : JsValue :=
  JsObject [("symbol", JsString "SOLUSD"); ("action", JsString "BUY");
            ("timeframe", JsString "15")].

Definition webhook_buy_sol_15 : TradingViewWebhook :=
  mkWebhook "SOLUSD" "BUY" "15" (JsString "0").

Definition keys (walletType : WalletType) : string + WalletType :=
  inr walletType.

Definition route_buy_sol : RouteInfo WalletType :=
  mkRoute sol_30m sol_30m 1 "USDC" "SOL"
          (Some "EPjFWdd5AufqSSqeM2qN1xzybapC8G4wEGGkZwyTDt1v")
          (Some "So11111111111111111111111111111111111111112").

Definition route_sell_sol : RouteInfo WalletType :=
  mkRoute sol_30m sol_30m 1 "SOL" "USDC"
          (Some "So11111111111111111111111111111111111111112")
          (Some "EPjFWdd5AufqSSqeM2qN1xzybapC8G4wEGGkZwyTDt1v").

Definition route_sell_fartboy : RouteInfo WalletType :=
  mkRoute fartboy fartboy 5 "FARTBOY" "SOL"
          (Some "y1AZt42vceCmStjW4zetK3VoNarC1VxJ5iDjpiupump")
          (Some "So11111111111111111111111111111111111111112").

Definition sol_balance (address : string) : string + Q := inr 2000000000.

Definition token_accounts (address : string) (mint : option string)
  : string + list (option Q) :=
  inr [Some 100; None].

End Webhook.

(* ------------------------------------------------------------------ *)
(** ** Basic facts *)

Lemma Qlt_bool_iff x y : Qlt_bool x y = true <-> x < y.
Proof.
  unfold Qlt_bool. rewrite negb_true_iff. split; intro H.
  - apply Qnot_le_lt. intro L. apply Qle_bool_iff in L. congruence.
  - destruct (Qle_bool y x) eqn:E; [|reflexivity].
    apply Qle_bool_iff in E. exfalso. apply (Qlt_not_le _ _ H E).
Qed.

Lemma Qlt_bool_false x y : Qlt_bool x y = false <-> y <= x.
Proof.
  unfold Qlt_bool. rewrite negb_false_iff. apply Qle_bool_iff.
Qed.

Lemma Qle_bool_false x y : Qle_bool x y = false <-> y < x.
Proof.
  rewrite <- Qlt_bool_iff. unfold Qlt_bool. rewrite negb_true_iff. tauto.
Qed.

Lemma mapPosition_id (r : Position) : mapPosition r = r.
Proof. destruct r; reflexivity. Qed.

Lemma recordBuy_unfold p now db : recordBuy p now db = recordBuy_flat p now db.
Proof.
  unfold recordBuy, recordBuy_flat.
  destruct (Qle_bool (RecordBuyParams.amount p) 0); [reflexivity|].
  destruct (Qle_bool (RecordBuyParams.cost p) 0); [reflexivity|].
  unfold transaction, recordBuy_tx, bind, client_select_open,
    client_insert_position, client_update_buy, first_row, ret, throw; simpl.
  destruct (select_open (positions db) _ _) as [|existing rest]; simpl.
  - fold (opened (positions_id_seq db) p now).
    destruct (insert_violates (positions db) _); reflexivity.
  - fold (bought existing (RecordBuyParams.amount p) (RecordBuyParams.cost p) now).
    destruct (where_id (id existing) _); reflexivity.
Qed.

Lemma recordSell_unfold p now db : recordSell p now db = recordSell_flat p now db.
Proof.
  unfold recordSell, recordSell_flat.
  destruct (Qle_bool (RecordSellParams.amount p) 0); [reflexivity|].
  destruct (Qlt_bool (RecordSellParams.proceeds p) 0); [reflexivity|].
  unfold transaction, recordSell_tx, bind, client_select_open, flagIssue_in_tx,
    throw; simpl.
  destruct (select_open (positions db) _ _) as [|position rest]; simpl;
    [reflexivity|].
  destruct (Qlt_bool (current_amount position) (RecordSellParams.amount p));
    simpl; [reflexivity|].
  unfold sold, sell_status, sell_closed_at, advised, raise_if, is_oversized,
    is_suspicious, client_update_sell, first_row, bind, ret, throw,
    flagIssue_in_tx.
  destruct (Qeq_bool (current_amount position - RecordSellParams.amount p) 0);
    [|destruct (Qlt_bool 0 (total_exit_amount position + RecordSellParams.amount p))];
    simpl;
    (destruct (update_violates _ _); [reflexivity|]);
    (destruct (where_id (id position) _); [reflexivity|]); simpl;
    (destruct (Qlt_bool 50000 _); simpl);
    (destruct (Qlt_bool _ 0 && Qlt_bool _ _); reflexivity).
Qed.

(* ------------------------------------------------------------------ *)
(** ** The lookup and the two updates on lists of rows *)

Lemma earliest_In rows r l :
  earliest rows = r :: l -> In r rows /\ l = [].
Proof.
  revert r l. induction rows as [|a rest IH]; simpl; intros r l H.
  - discriminate.
  - destruct (earliest rest) as [|r' l'] eqn:E.
    + inversion H; subst. auto.
    + destruct (first_entry_at a <=? first_entry_at r')%Z;
        inversion H; subst; [auto|].
      destruct (IH _ _ eq_refl) as [Hin _]. auto.
Qed.

Lemma earliest_nil rows : earliest rows = [] -> rows = [].
Proof.
  destruct rows as [|a rest]; simpl; [reflexivity|].
  destruct (earliest rest) as [|r' l'];
    [|destruct (first_entry_at a <=? first_entry_at r')%Z]; discriminate.
Qed.

Lemma select_open_In rows w t r l :
  select_open rows w t = r :: l ->
  In r rows /\ open_for w t r = true /\ l = [].
Proof.
  unfold select_open. intro H. apply earliest_In in H. destruct H as [H ->].
  apply filter_In in H. tauto.
Qed.

Lemma open_for_spec w t r :
  open_for w t r = true ->
  wallet_id r = w /\ token r = t /\ open_or_partial (status r) = true.
Proof.
  unfold open_for. rewrite !andb_true_iff, Z.eqb_eq, String.eqb_eq. tauto.
Qed.

Lemma getOpenPosition_select w t db :
  getOpenPosition w t db
  = match select_open (positions db) w t with
    | [] => None
    | r :: _ => Some r
    end.
Proof.
  unfold getOpenPosition. destruct (select_open _ _ _); [reflexivity|].
  now rewrite mapPosition_id.
Qed.

Lemma update_where_id_ids f i rows :
  (forall r, id (f r) = id r) ->
  map id (update_where_id f i rows) = map id rows.
Proof.
  intro Hf. unfold update_where_id. rewrite map_map. apply map_ext.
  intro r. destruct (id r =? i)%Z; auto.
Qed.

Lemma update_where_id_In f i rows x :
  In x (update_where_id f i rows) ->
  exists r, In r rows /\ ((id r = i /\ x = f r) \/ (id r <> i /\ x = r)).
Proof.
  unfold update_where_id. rewrite in_map_iff. intros (r & Hx & Hr).
  exists r. split; [assumption|].
  destruct (id r =? i)%Z eqn:E.
  - apply Z.eqb_eq in E. auto.
  - apply Z.eqb_neq in E. auto.
Qed.

Lemma update_where_id_absent f i rows :
  ~ In i (map id rows) -> update_where_id f i rows = rows.
Proof.
  induction rows as [|a rest IH]; simpl; intro H; [reflexivity|].
  destruct (id a =? i)%Z eqn:E.
  - apply Z.eqb_eq in E. exfalso. apply H. auto.
  - f_equal. apply IH. intro. apply H. auto.
Qed.

Lemma where_id_absent i rows :
  ~ In i (map id rows) -> where_id i rows = [].
Proof.
  induction rows as [|a rest IH]; simpl; intro H; [reflexivity|].
  destruct (id a =? i)%Z eqn:E.
  - apply Z.eqb_eq in E. exfalso. apply H. auto.
  - apply IH. intro. apply H. auto.
Qed.

Lemma NoDup_ids_eq rows (a b : Position) :
  NoDup (map id rows) -> In a rows -> In b rows -> id a = id b -> a = b.
Proof.
  induction rows as [|x rest IH]; simpl; intros ND Ha Hb E; [destruct Ha|].
  inversion ND as [|? ? Hnot ND']; subst.
  destruct Ha as [->|Ha], Hb as [->|Hb]; auto.
  - exfalso. apply Hnot. rewrite E. now apply in_map.
  - exfalso. apply Hnot. rewrite <- E. now apply in_map.
Qed.

(** UPDATE ... WHERE id = (id r) RETURNING * hands back a rewritten row of that
    id when [r] is in the table. *)
Lemma where_id_updated_some f rows r :
  (forall x, id (f x) = id x) -> In r rows ->
  exists r0 l, In r0 rows /\ id r0 = id r
               /\ where_id (id r) (update_where_id f (id r) rows) = f r0 :: l.
Proof.
  intros Hf. induction rows as [|a rest IH]; simpl; intros Hin;
    [destruct Hin|].
  destruct (id a =? id r)%Z eqn:E.
  - rewrite Hf, E. apply Z.eqb_eq in E.
    exists a. eexists. repeat split; auto.
  - rewrite E. destruct Hin as [->|Hin]; [rewrite Z.eqb_refl in E; discriminate|].
    destruct (IH Hin) as (r0 & l & H0 & H1 & H2).
    exists r0, l. repeat split; auto.
Qed.

Lemma row_of_In i db r :
  NoDup (map id (positions db)) -> In r (positions db) -> id r = i ->
  row_of i db = Some r.
Proof.
  unfold row_of. intros ND Hin <-.
  destruct (find _ _) as [x|] eqn:F.
  - apply find_some in F. destruct F as [Hx E]. apply Z.eqb_eq in E.
    f_equal. eapply NoDup_ids_eq; eauto.
  - exfalso. apply (find_none _ _ F) in Hin. rewrite Z.eqb_refl in Hin.
    discriminate.
Qed.

Lemma bought_id ex a c now r : id (bought ex a c now r) = id r.
Proof. reflexivity. Qed.

Lemma sold_id pos a pr now r : id (sold pos a pr now r) = id r.
Proof. reflexivity. Qed.

(* ------------------------------------------------------------------ *)
(** ** Every call has one of the listed outcomes *)

Lemma recordBuy_outcome p now db : buy_outcome p now db (recordBuy p now db).
Proof.
  rewrite recordBuy_unfold. unfold recordBuy_flat.
  destruct (Qle_bool (RecordBuyParams.amount p) 0) eqn:Ea.
  { apply Qle_bool_iff in Ea. now apply BuyInvalid; [left|]. }
  destruct (Qle_bool (RecordBuyParams.cost p) 0) eqn:Ec.
  { apply Qle_bool_iff in Ec. now apply BuyInvalid; [right|]. }
  apply Qle_bool_false in Ea, Ec.
  pose proof (getOpenPosition_select (RecordBuyParams.walletId p)
                (RecordBuyParams.token p) db) as G.
  destruct (select_open (positions db) _ _) as [|existing rest] eqn:S.
  - cbv zeta. destruct (insert_violates _ _) eqn:V.
    + now apply BuyConstraint.
    + rewrite mapPosition_id. now apply BuyOpened.
  - apply select_open_In in S. destruct S as (Hin & Hopen & ->).
    cbv zeta.
    destruct (where_id_updated_some
                (bought existing (RecordBuyParams.amount p)
                        (RecordBuyParams.cost p) now)
                (positions db) existing (bought_id _ _ _ _) Hin)
      as (r0 & l & H0 & H1 & H2).
    rewrite H2, mapPosition_id.
    now apply BuyAdded.
Qed.

Lemma recordSell_outcome p now db : sell_outcome p now db (recordSell p now db).
Proof.
  rewrite recordSell_unfold. unfold recordSell_flat.
  destruct (Qle_bool (RecordSellParams.amount p) 0) eqn:Ea.
  { apply Qle_bool_iff in Ea. now apply SellInvalid; [left|]. }
  destruct (Qlt_bool (RecordSellParams.proceeds p) 0) eqn:Ep.
  { apply Qlt_bool_iff in Ep. now apply SellInvalid; [right|]. }
  apply Qle_bool_false in Ea. apply Qlt_bool_false in Ep.
  pose proof (getOpenPosition_select (RecordSellParams.walletId p)
                (RecordSellParams.token p) db) as G.
  destruct (select_open (positions db) _ _) as [|position rest] eqn:S.
  - now apply SellNoPosition.
  - apply select_open_In in S. destruct S as (Hin & Hopen & ->).
    destruct (Qlt_bool (current_amount position) (RecordSellParams.amount p))
      eqn:Ex.
    + apply Qlt_bool_iff in Ex. now apply SellExceeds.
    + apply Qlt_bool_false in Ex. cbv zeta.
      fold (sold_rows p position now db).
      destruct (update_violates _ _) eqn:V.
      * now apply SellConstraint with position.
      * destruct (where_id_updated_some
                    (sold position (RecordSellParams.amount p)
                          (RecordSellParams.proceeds p) now)
                    (positions db) position (sold_id _ _ _ _) Hin)
          as (r0 & l & H0 & H1 & H2).
        unfold sold_rows. rewrite H2, mapPosition_id.
        now apply SellAccepted.
Qed.

(** With a sound primary key the row handed back is the looked-up row,
    rewritten. *)
Lemma wf_same_row db (a b : Position) :
  wf db -> In a (positions db) -> In b (positions db) -> id a = id b -> a = b.
Proof. intros [ND _]. now apply NoDup_ids_eq. Qed.

(** Case analysis on the outcome of a sell whose validations are known:
    discard the outcomes that contradict the hypotheses, and identify the
    looked-up position with [position]. *)
Ltac sell_cases O position :=
  destruct O;
  try match goal with H : _ \/ _ |- _ => exfalso; destruct H; lra end;
  try congruence;
  try (match goal with
       | H : getOpenPosition _ _ _ = Some ?q |- _ =>
           assert (q = position) by congruence; subst q
       end;
       try (exfalso; lra); try congruence).

(* ------------------------------------------------------------------ *)
(** ** Flags added by a call *)

Lemma skipn_length_app {A} (l x : list A) : skipn (List.length l) (l ++ x) = x.
Proof. induction l; simpl; auto. Qed.

Lemma new_flags_same db rows s fs :
  new_flags db (mkDb rows (position_flags db) s fs) = [].
Proof.
  unfold new_flags. simpl.
  rewrite <- (app_nil_r (position_flags db)) at 2. apply skipn_length_app.
Qed.

Lemma new_flags_refl db : new_flags db db = [].
Proof. destruct db. apply new_flags_same. Qed.

Lemma flagIssue_eq params now db :
  flagIssue params now db
  = mkDb (positions db)
         (position_flags db ++ [flag_row params (position_flags_id_seq db) now])
         (positions_id_seq db) (position_flags_id_seq db + 1)%Z.
Proof. reflexivity. Qed.

Lemma new_flags_flagIssue params now db :
  new_flags db (flagIssue params now db)
  = [flag_row params (position_flags_id_seq db) now].
Proof. unfold new_flags. rewrite flagIssue_eq. simpl. apply skipn_length_app. Qed.

Lemma advised_flags p position now db :
  position_flags (advised p position now db)
  = position_flags db ++ advisory p position now db.
Proof.
  unfold advised, advisory, raise_if.
  destruct (is_oversized position), (is_suspicious p position); simpl;
    rewrite <- ?app_assoc, ?app_nil_r; reflexivity.
Qed.

Lemma new_flags_advised p position now db rows s fs :
  new_flags db (mkDb rows (position_flags (advised p position now db)) s fs)
  = advisory p position now db.
Proof.
  unfold new_flags. simpl. rewrite advised_flags. apply skipn_length_app.
Qed.

Lemma count_oversized_advisory p position now db :
  count_flags oversized_position (advisory p position now db)
  = if is_oversized position then 1%nat else 0%nat.
Proof.
  unfold advisory.
  destruct (is_oversized position), (is_suspicious p position); reflexivity.
Qed.

Lemma count_suspicious_advisory p position now db :
  count_flags suspicious_pnl (advisory p position now db)
  = if is_suspicious p position then 1%nat else 0%nat.
Proof.
  unfold advisory.
  destruct (is_oversized position), (is_suspicious p position); reflexivity.
Qed.

Lemma advisory_warning p position now db f :
  In f (advisory p position now db) -> severity f = warning.
Proof.
  unfold advisory.
  destruct (is_oversized position), (is_suspicious p position); simpl;
    intuition (subst; reflexivity).
Qed.

(** Inverting a successful sell. *)
Lemma recordSell_ok p now db res db' :
  recordSell p now db = (Ok res, db') ->
  exists position r0,
    0 < RecordSellParams.amount p
    /\ 0 <= RecordSellParams.proceeds p
    /\ getOpenPosition (RecordSellParams.walletId p)
                       (RecordSellParams.token p) db = Some position
    /\ In position (positions db)
    /\ open_for (RecordSellParams.walletId p) (RecordSellParams.token p)
                position = true
    /\ RecordSellParams.amount p <= current_amount position
    /\ In r0 (positions db) /\ id r0 = id position
    /\ res = SellResult.mk
               (sold position (RecordSellParams.amount p)
                     (RecordSellParams.proceeds p) now r0)
               (RecordSellParams.proceeds p
                - avg_entry_price position * RecordSellParams.amount p)
               (avg_entry_price position * RecordSellParams.amount p)
    /\ db' = mkDb (sold_rows p position now db)
                  (position_flags (advised p position now db))
                  (positions_id_seq db)
                  (position_flags_id_seq (advised p position now db)).
Proof.
  intro H. pose proof (recordSell_outcome p now db) as O. rewrite H in O.
  inversion O; subst. exists position, r0. repeat split; assumption.
Qed.

(** Inverting a failed sell: the table of positions is as before, and at most
    one flag was added. *)
Lemma recordSell_err p now db e db' :
  recordSell p now db = (Err e, db') ->
  db' = db
  \/ (e = NoOpenPosition (RecordSellParams.amount p) (RecordSellParams.token p)
                         (RecordSellParams.walletId p)
      /\ db' = flagIssue (flag_no_position p) now db)
  \/ (exists position,
        e = InsufficientPosition (RecordSellParams.amount p)
              (RecordSellParams.token p) (current_amount position) (id position)
        /\ db' = flagIssue (flag_exceeds p position) now db).
Proof.
  intro H. pose proof (recordSell_outcome p now db) as O. rewrite H in O.
  inversion O; subst; eauto.
Qed.

(** Inverting a successful buy. *)
Lemma recordBuy_ok p now db pos db' :
  recordBuy p now db = (Ok pos, db') ->
  0 < RecordBuyParams.amount p /\ 0 < RecordBuyParams.cost p
  /\ ((getOpenPosition (RecordBuyParams.walletId p) (RecordBuyParams.token p) db
         = None
       /\ pos = opened (positions_id_seq db) p now
       /\ db' = db_after_buy (positions db ++ [pos]) (positions_id_seq db + 1)%Z db)
      \/ (exists existing r0,
            getOpenPosition (RecordBuyParams.walletId p)
                            (RecordBuyParams.token p) db = Some existing
            /\ In existing (positions db)
            /\ open_for (RecordBuyParams.walletId p) (RecordBuyParams.token p)
                        existing = true
            /\ In r0 (positions db) /\ id r0 = id existing
            /\ pos = bought existing (RecordBuyParams.amount p)
                            (RecordBuyParams.cost p) now r0
            /\ db' = db_after_buy
                       (update_where_id
                          (bought existing (RecordBuyParams.amount p)
                                  (RecordBuyParams.cost p) now)
                          (id existing) (positions db))
                       (positions_id_seq db) db)).
Proof.
  intro H. pose proof (recordBuy_outcome p now db) as O. rewrite H in O.
  inversion O; subst; (split; [assumption|split; [assumption|]]).
  - left. auto.
  - right. exists existing, r0. repeat split; assumption.
Qed.

Lemma recordBuy_err p now db e db' :
  recordBuy p now db = (Err e, db') ->
  positions db' = positions db /\ position_flags db' = position_flags db
  /\ position_flags_id_seq db' = position_flags_id_seq db
  /\ (positions_id_seq db <= positions_id_seq db')%Z.
Proof.
  intro H. pose proof (recordBuy_outcome p now db) as O. rewrite H in O.
  inversion O; subst; simpl; repeat split; lia.
Qed.

(* ------------------------------------------------------------------ *)
(** ** What a call does to the table of positions *)

Lemma run_snoc cs c db : run (cs ++ [c]) db = call c (run cs db).
Proof. unfold run. now rewrite fold_left_app. Qed.

(** One call leaves the table as it was, appends a freshly numbered row, or
    rewrites the one row it looked up. *)
Lemma call_positions c db :
  (positions (call c db) = positions db
   /\ (positions_id_seq db <= positions_id_seq (call c db))%Z)
  \/ (exists p now,
        0 < RecordBuyParams.amount p /\ 0 < RecordBuyParams.cost p
        /\ positions (call c db)
           = positions db ++ [opened (positions_id_seq db) p now]
        /\ positions_id_seq (call c db) = (positions_id_seq db + 1)%Z)
  \/ (exists r f,
        In r (positions db) /\ row_step r (f r)
        /\ (forall x, id (f x) = id x)
        /\ (forall x, wallet_id (f x) = wallet_id x /\ token (f x) = token x)
        /\ positions (call c db) = update_where_id f (id r) (positions db)
        /\ positions_id_seq (call c db) = positions_id_seq db).
Proof.
  destruct c as [p now|p now]; simpl.
  - pose proof (recordBuy_outcome p now db) as O.
    remember (recordBuy p now db) as out eqn:E. clear E.
    destruct O; simpl.
    + left. split; [reflexivity|lia].
    + left. split; [reflexivity|lia].
    + right. left. exists p, now. auto.
    + right. right.
      exists existing,
        (bought existing (RecordBuyParams.amount p) (RecordBuyParams.cost p) now).
      repeat split; try assumption.
      apply step_bought; try assumption.
      match goal with H : open_for _ _ _ = true |- _ =>
        apply open_for_spec in H; tauto end.
  - pose proof (recordSell_outcome p now db) as O.
    remember (recordSell p now db) as out eqn:E. clear E.
    destruct O; simpl.
    + left. split; [reflexivity|lia].
    + left. split; [reflexivity|lia].
    + left. split; [reflexivity|lia].
    + left. split; [reflexivity|lia].
    + right. right.
      exists position,
        (sold position (RecordSellParams.amount p) (RecordSellParams.proceeds p)
              now).
      repeat split; try assumption.
      apply step_sold; try assumption.
      match goal with H : open_for _ _ _ = true |- _ =>
        apply open_for_spec in H; tauto end.
Qed.

Lemma NoDup_snoc {A} (l : list A) (x : A) :
  NoDup l -> ~ In x l -> NoDup (l ++ [x]).
Proof.
  intros ND Hx. apply NoDup_app; [assumption|repeat constructor; intros []|].
  intros a Ha [<-|[]]. exact (Hx Ha).
Qed.

Lemma wf_call c db : wf db -> wf (call c db).
Proof.
  intros [ND Hlt].
  destruct (call_positions c db)
    as [[Hp Hs]|[(p & now & _ & _ & Hp & Hs)
                |(r & f & _ & _ & Hid & _ & Hp & Hs)]];
    unfold wf; rewrite Hp.
  - split; [assumption|].
    eapply Forall_impl; [|exact Hlt]. simpl. intros. lia.
  - rewrite map_app, Hs. simpl. split.
    + apply NoDup_snoc; [assumption|].
      intro Hin. rewrite Forall_forall in Hlt. specialize (Hlt _ Hin). lia.
    + apply Forall_app. split.
      * eapply Forall_impl; [|exact Hlt]. simpl. intros. lia.
      * repeat constructor. lia.
  - rewrite update_where_id_ids, Hs by assumption. split; assumption.
Qed.

(** Every row present before a call is still there afterwards, under the same
    id, one [row_step] later. *)
Lemma call_row_step c db r :
  wf db -> In r (positions db) ->
  exists r', In r' (positions (call c db)) /\ id r' = id r /\ row_step r r'.
Proof.
  intros W Hin.
  destruct (call_positions c db)
    as [[Hp Hs]|[(p & now & _ & _ & Hp & Hs)
                |(r1 & f & Hin1 & Hstep & Hid & _ & Hp & Hs)]];
    rewrite Hp.
  - exists r. repeat split; [assumption|constructor].
  - exists r. repeat split; [apply in_or_app; now left|constructor].
  - destruct (id r =? id r1)%Z eqn:E.
    + apply Z.eqb_eq in E.
      assert (r = r1) by (eapply wf_same_row; eauto). subst r1.
      exists (f r). repeat split; [|apply Hid|assumption].
      unfold update_where_id. apply in_map_iff. exists r.
      now rewrite Z.eqb_refl.
    + exists r. repeat split; [|constructor].
      unfold update_where_id. apply in_map_iff. exists r. now rewrite E.
Qed.

(** Every row present after a call is one [row_step] after a row present
    before it, or is the row a first buy inserted. *)
Lemma call_row_origin c db r' :
  wf db -> In r' (positions (call c db)) ->
  (exists r, In r (positions db) /\ row_step r r')
  \/ (exists p now,
        0 < RecordBuyParams.amount p /\ 0 < RecordBuyParams.cost p
        /\ r' = opened (positions_id_seq db) p now).
Proof.
  intros W Hin.
  destruct (call_positions c db)
    as [[Hp Hs]|[(p & now & Ha & Hc & Hp & Hs)
                |(r1 & f & Hin1 & Hstep & Hid & _ & Hp & Hs)]];
    rewrite Hp in Hin.
  - left. exists r'. split; [assumption|constructor].
  - apply in_app_or in Hin. destruct Hin as [Hin|[<-|[]]].
    + left. exists r'. split; [assumption|constructor].
    + right. exists p, now. auto.
  - left. apply update_where_id_In in Hin.
    destruct Hin as (r & Hr & [[E ->]|[_ ->]]).
    + assert (r = r1) by (eapply wf_same_row; eauto). subst r1.
      exists r. auto.
    + exists r. split; [assumption|constructor].
Qed.

Lemma row_step_pair r r' :
  row_step r r' -> wallet_id r' = wallet_id r /\ token r' = token r.
Proof. destruct 1; split; reflexivity. Qed.

Lemma fresh_no_row w t db r :
  fresh w t db -> In r (positions db) -> of_pair w t r -> False.
Proof.
  unfold fresh, of_pair. rewrite Forall_forall. intros F Hin [<- <-].
  specialize (F _ Hin). unfold not_of_pair in F.
  rewrite Z.eqb_refl, String.eqb_refl in F. discriminate.
Qed.

Section RowInvariant.
Variable P : Position -> Prop.
Variables (w : Z) (t : string).
Hypothesis P_inv : row_invariant P.

Lemma holds_fresh db : wf db -> fresh w t db -> holds P w t db.
Proof.
  intros W F. split; [exact W|].
  intros r Hin Hp. exfalso. eapply fresh_no_row; eauto.
Qed.

Lemma holds_call c db : holds P w t db -> holds P w t (call c db).
Proof.
  intros [W H]. split; [now apply wf_call|].
  intros r' Hin Hp.
  destruct (call_row_origin c db r' W Hin)
    as [(r & Hr & Hstep)|(p & now & Ha & Hc & ->)].
  - apply (proj2 P_inv r r' Hstep). apply H; [assumption|].
    destruct (row_step_pair _ _ Hstep) as [Ew Et].
    destruct Hp as [Hw Ht]. split; congruence.
  - now apply (proj1 P_inv).
Qed.

Lemma holds_run cs db : holds P w t db -> holds P w t (run cs db).
Proof.
  revert db. induction cs as [|c cs IH]; intros db H; [exact H|].
  simpl. apply IH. now apply holds_call.
Qed.
End RowInvariant.

(* ------------------------------------------------------------------ *)
(** ** Row invariants *)

Lemma balanced_invariant : row_invariant balanced.
Proof.
  split.
  - intros i p now Ha Hc. unfold balanced, opened; simpl. split; lra.
  - intros r r' Hstep [Heq Hpos].
    destruct Hstep; unfold balanced, bought, sold in *; simpl; split;
      try assumption; lra.
Qed.

Lemma priced_invariant : row_invariant priced.
Proof.
  split.
  - intros i p now Ha Hc. unfold priced, opened; simpl. reflexivity.
  - intros r r' Hstep H.
    destruct Hstep; unfold priced, bought, sold in *; simpl;
      [assumption|reflexivity|assumption].
Qed.

Lemma sell_status_cases cur exit a :
  0 <= exit -> 0 < a -> a <= cur ->
  (cur - a == 0 /\ sell_status (cur - a) (exit + a) = CLOSED)
  \/ (0 < cur - a /\ sell_status (cur - a) (exit + a) = PARTIAL).
Proof.
  intros He Ha Hle. unfold sell_status.
  destruct (Qeq_bool (cur - a) 0) eqn:E.
  - left. split; [now apply Qeq_bool_iff|reflexivity].
  - right. apply Qeq_bool_neq in E.
    assert (Qlt_bool 0 (exit + a) = true) as -> by (apply Qlt_bool_iff; lra).
    split; [|reflexivity].
    destruct (Qlt_le_dec 0 (cur - a)) as [L|L]; [assumption|].
    exfalso. apply E. lra.
Qed.

Lemma staged_invariant : row_invariant staged.
Proof.
  split.
  - intros i p now Ha Hc. unfold staged, opened; simpl.
    repeat split; lra.
  - intros r r' Hstep (He & Hc & Hst).
    destruct Hstep as [r|r a c now Hop Ha Hcost|r a pr now Hop Ha Hpr Hle].
    + repeat split; assumption.
    + unfold staged, bought; simpl.
      split; [assumption|]. split; [lra|].
      destruct (status r); try discriminate;
        destruct Hst as (H1 & H2 & H3); repeat split; try assumption; lra.
    + unfold staged, sold; simpl. split; [lra|]. split; [lra|].
      unfold sell_closed_at.
      destruct (sell_status_cases (current_amount r) (total_exit_amount r) a
                  He Ha Hle) as [[Hz ->]|[Hp ->]].
      * apply Qeq_bool_iff in Hz. rewrite Hz.
        split; [now apply Qeq_bool_iff|]. split; [lra|discriminate].
      * assert (Qeq_bool (current_amount r - a) 0 = false) as ->.
        { destruct (Qeq_bool (current_amount r - a) 0) eqn:E; [|reflexivity].
          apply Qeq_bool_iff in E. lra. }
        repeat split; try assumption. lra.
Qed.

Lemma staged_lifecycle r : staged r -> lifecycle r.
Proof.
  intros (He & Hc & Hst). unfold lifecycle.
  destruct (status r); repeat split; intros;
    try discriminate; try tauto; try (exfalso; intuition lra);
    try (exfalso; intuition congruence).
Qed.

(** A row one step later is no earlier in its lifecycle, and a CLOSED row
    does not move at all. *)
Lemma row_step_forward r r' :
  row_step r r' -> staged r ->
  (rank (status r) <= rank (status r'))%nat /\ (status r = CLOSED -> r' = r).
Proof.
  intros Hstep (He & Hc & Hst).
  destruct Hstep as [r|r a c now Hop Ha Hcost|r a pr now Hop Ha Hpr Hle].
  - auto.
  - simpl. split; [lia|]. intro C. rewrite C in Hop. discriminate.
  - split; [|intro C; rewrite C in Hop; discriminate].
    unfold sold; simpl.
    destruct (sell_status_cases (current_amount r) (total_exit_amount r) a
                He Ha Hle) as [[_ ->]|[_ ->]];
      destruct (status r); simpl; try lia; discriminate.
Qed.

(** What a successful call hands back is a row of the resulting table and
    belongs to the pair of the call. *)
Lemma recordBuy_returns p now db pos db' :
  wf db -> recordBuy p now db = (Ok pos, db') ->
  In pos (positions db')
  /\ of_pair (RecordBuyParams.walletId p) (RecordBuyParams.token p) pos.
Proof.
  intros W H. apply recordBuy_ok in H.
  destruct H as (Ha & Hc & [(G & -> & ->)
                           |(ex & r0 & G & Hin & Hop & H0 & Hid & -> & ->)]);
    simpl.
  - split; [apply in_or_app; right; now left|split; reflexivity].
  - assert (r0 = ex) by (eapply wf_same_row; eauto). subst r0.
    split.
    + unfold update_where_id. apply in_map_iff. exists ex.
      now rewrite Z.eqb_refl.
    + apply open_for_spec in Hop. unfold of_pair; simpl. tauto.
Qed.

Lemma recordSell_returns p now db res db' :
  wf db -> recordSell p now db = (Ok res, db') ->
  In (SellResult.position res) (positions db')
  /\ of_pair (RecordSellParams.walletId p) (RecordSellParams.token p)
             (SellResult.position res)
  /\ exists prior,
       getOpenPosition (RecordSellParams.walletId p) (RecordSellParams.token p)
                       db = Some prior
       /\ In prior (positions db)
       /\ open_or_partial (status prior) = true
       /\ SellResult.position res
          = sold prior (RecordSellParams.amount p) (RecordSellParams.proceeds p)
                 now prior.
Proof.
  intros W H. apply recordSell_ok in H.
  destruct H as (pos & r0 & Ha & Hp & G & Hin & Hop & Hle & H0 & Hid & -> & ->).
  assert (r0 = pos) by (eapply wf_same_row; eauto). subst r0. simpl.
  apply open_for_spec in Hop. split; [|split].
  - unfold sold_rows, update_where_id. apply in_map_iff. exists pos.
    now rewrite Z.eqb_refl.
  - unfold of_pair; simpl. tauto.
  - exists pos. tauto.
Qed.

Lemma wf_row_of db r : wf db -> In r (positions db) -> row_of (id r) db = Some r.
Proof. intros [ND _] Hin. now apply row_of_In. Qed.

(* ------------------------------------------------------------------ *)
(** ** A pair whose only row is the last of the table *)

Lemma not_of_pair_open_for w t r : not_of_pair w t r -> open_for w t r = false.
Proof. unfold not_of_pair, open_for. now intros ->. Qed.

Lemma filter_none {A} (f : A -> bool) (l : list A) :
  Forall (fun x => f x = false) l -> filter f l = [].
Proof.
  induction 1 as [|x l Hx _ IH]; simpl; [reflexivity|]. now rewrite Hx.
Qed.

Lemma select_open_none rows w t :
  Forall (not_of_pair w t) rows -> select_open rows w t = [].
Proof.
  intro F. unfold select_open. rewrite filter_none; [reflexivity|].
  eapply Forall_impl; [|exact F]. apply not_of_pair_open_for.
Qed.

Lemma select_open_last rows w t r :
  Forall (not_of_pair w t) rows -> open_for w t r = true ->
  select_open (rows ++ [r]) w t = [r].
Proof.
  intros F Hop. unfold select_open. rewrite filter_app, filter_none.
  - simpl. now rewrite Hop.
  - eapply Forall_impl; [|exact F]. apply not_of_pair_open_for.
Qed.

Lemma update_where_id_last f rows r :
  ~ In (id r) (map id rows) ->
  update_where_id f (id r) (rows ++ [r]) = rows ++ [f r].
Proof.
  intro Hn. unfold update_where_id. rewrite map_app. simpl.
  rewrite Z.eqb_refl. f_equal. now apply update_where_id_absent.
Qed.

Lemma existsb_none {A} (f : A -> bool) (l : list A) :
  Forall (fun x => f x = false) l -> existsb f l = false.
Proof.
  induction 1 as [|x l Hx _ IH]; simpl; [reflexivity|]. now rewrite Hx.
Qed.

Lemma same_key_not_of_pair w t o r :
  not_of_pair w t o -> wallet_id r = w -> token r = t -> same_key o r = false.
Proof.
  unfold not_of_pair, same_key. intros H <- <-. now rewrite H.
Qed.

Lemma update_violates_last rows w t r :
  Forall (not_of_pair w t) rows -> wallet_id r = w -> token r = t ->
  ~ In (id r) (map id rows) ->
  update_violates (rows ++ [r]) (id r) = false.
Proof.
  intros F Hw Ht Hn. unfold update_violates.
  apply existsb_none. apply Forall_app. split.
  - apply Forall_forall. intros x Hx.
    destruct (id x =? id r)%Z eqn:E; [|reflexivity].
    apply Z.eqb_eq in E. exfalso. apply Hn. rewrite <- E. now apply in_map.
  - repeat constructor. rewrite Z.eqb_refl. simpl.
    apply existsb_none. apply Forall_app. split.
    + eapply Forall_impl; [|exact F]. intros o Ho. simpl.
      rewrite (same_key_not_of_pair w t o r Ho Hw Ht). apply andb_false_r.
    + repeat constructor. now rewrite Z.eqb_refl.
Qed.

Lemma insert_violates_fresh rows w t r seq :
  Forall (not_of_pair w t) rows -> wallet_id r = w -> token r = t ->
  Forall (fun i => (i < seq)%Z) (map id rows) -> id r = seq ->
  insert_violates rows r = false.
Proof.
  intros F Hw Ht Hlt Hid. unfold insert_violates.
  apply existsb_none. apply Forall_forall. intros o Ho.
  rewrite Forall_forall in F, Hlt.
  rewrite (same_key_not_of_pair w t o r (F o Ho) Hw Ht), orb_false_r.
  apply Z.eqb_neq. specialize (Hlt (id o) (in_map id _ _ Ho)). lia.
Qed.

(** An acceptable sell on a sound store is accepted, with the looked-up row
    rewritten. *)
Lemma recordSell_accepted p now db position :
  wf db ->
  0 < RecordSellParams.amount p -> 0 <= RecordSellParams.proceeds p ->
  getOpenPosition (RecordSellParams.walletId p) (RecordSellParams.token p) db
    = Some position ->
  RecordSellParams.amount p <= current_amount position ->
  update_violates (sold_rows p position now db) (id position) = false ->
  recordSell p now db
  = (Ok (SellResult.mk
           (sold position (RecordSellParams.amount p)
                 (RecordSellParams.proceeds p) now position)
           (RecordSellParams.proceeds p
            - avg_entry_price position * RecordSellParams.amount p)
           (avg_entry_price position * RecordSellParams.amount p)),
     mkDb (sold_rows p position now db)
          (position_flags (advised p position now db))
          (positions_id_seq db)
          (position_flags_id_seq (advised p position now db))).
Proof.
  intros W Ha Hp G Hle V.
  pose proof (recordSell_outcome p now db) as O.
  remember (recordSell p now db) as out eqn:E. clear E.
  sell_cases O position.
  assert (r0 = position) by (eapply wf_same_row; eauto). now subst r0.
Qed.

(** The first buy of a pair on a sound store opens a position. *)
Lemma recordBuy_opens p now db :
  wf db -> fresh (RecordBuyParams.walletId p) (RecordBuyParams.token p) db ->
  0 < RecordBuyParams.amount p -> 0 < RecordBuyParams.cost p ->
  recordBuy p now db
  = (Ok (opened (positions_id_seq db) p now),
     db_after_buy (positions db ++ [opened (positions_id_seq db) p now])
                  (positions_id_seq db + 1)%Z db).
Proof.
  intros [ND Hlt] F Ha Hc.
  assert (insert_violates (positions db) (opened (positions_id_seq db) p now)
          = false) as V
    by (eapply insert_violates_fresh; eauto; reflexivity).
  assert (getOpenPosition (RecordBuyParams.walletId p) (RecordBuyParams.token p)
                          db = None) as G
    by (rewrite getOpenPosition_select, select_open_none; [reflexivity|exact F]).
  pose proof (recordBuy_outcome p now db) as O.
  remember (recordBuy p now db) as out eqn:E. clear E.
  destruct O; try (exfalso; destruct H; lra); try congruence.
Qed.

(** A sell against the pair whose only row is the last one of the table. *)
Lemma recordSell_last p now db rows r :
  wf db -> positions db = rows ++ [r] ->
  Forall (not_of_pair (RecordSellParams.walletId p) (RecordSellParams.token p))
         rows ->
  open_for (RecordSellParams.walletId p) (RecordSellParams.token p) r = true ->
  0 < RecordSellParams.amount p -> 0 <= RecordSellParams.proceeds p ->
  RecordSellParams.amount p <= current_amount r ->
  recordSell p now db
  = (Ok (SellResult.mk
           (sold r (RecordSellParams.amount p) (RecordSellParams.proceeds p)
                 now r)
           (RecordSellParams.proceeds p
            - avg_entry_price r * RecordSellParams.amount p)
           (avg_entry_price r * RecordSellParams.amount p)),
     mkDb (rows ++ [sold r (RecordSellParams.amount p)
                         (RecordSellParams.proceeds p) now r])
          (position_flags (advised p r now db))
          (positions_id_seq db)
          (position_flags_id_seq (advised p r now db))).
Proof.
  intros W Hrows F Hop Ha Hp Hle.
  assert (~ In (id r) (map id rows)) as Hn.
  { destruct W as [ND _]. rewrite Hrows, map_app in ND. simpl in ND.
    intro Hin. apply NoDup_remove_2 in ND. apply ND.
    rewrite app_nil_r. exact Hin. }
  assert (sold_rows p r now db
          = rows ++ [sold r (RecordSellParams.amount p)
                          (RecordSellParams.proceeds p) now r]) as Hsold
    by (unfold sold_rows; rewrite Hrows; now apply update_where_id_last).
  rewrite <- Hsold. apply recordSell_accepted; try assumption.
  - rewrite getOpenPosition_select, Hrows, select_open_last; auto.
  - rewrite Hsold.
    destruct (open_for_spec _ _ _ Hop) as (Hw & Ht & _).
    apply (update_violates_last rows (RecordSellParams.walletId p)
             (RecordSellParams.token p)
             (sold r (RecordSellParams.amount p) (RecordSellParams.proceeds p)
                   now r)); assumption.
Qed.

(* ------------------------------------------------------------------ *)
(** ** The stores of the scenario *)

Lemma wf_empty_db : wf empty_db.
Proof. split; simpl; constructor. Qed.

Lemma wf_db_other : wf db_other.
Proof.
  pose proof (wf_call (CallBuy buy_6000 10) empty_db wf_empty_db) as H.
  exact H.
Qed.

Lemma fresh_db_other : fresh 1 "SOL" db_other.
Proof. repeat constructor. Qed.

(* ------------------------------------------------------------------ *)
(** ** What the callbacks commit while they run *)

Lemma recordBuy_tx_one_unit p now : one_unit (recordBuy_tx p now).
Proof.
  intro db.
  unfold recordBuy_tx, bind, client_select_open, client_insert_position,
    client_update_buy, first_row, ret, throw; simpl.
  destruct (select_open (positions db) _ _) as [|existing rest]; simpl.
  - destruct (insert_violates (positions db) _); simpl; auto.
  - destruct (where_id (id existing) _); simpl; auto.
Qed.

Lemma recordSell_tx_positions p now db :
  positions (store (snd (recordSell_tx p now (mkSession db (positions db)))))
  = positions db.
Proof.
  unfold recordSell_tx, bind, client_select_open, flagIssue_in_tx, throw; simpl.
  destruct (select_open (positions db) _ _) as [|position rest]; simpl;
    [reflexivity|].
  destruct (Qlt_bool (current_amount position) (RecordSellParams.amount p));
    simpl; [reflexivity|].
  unfold client_update_sell, first_row, bind, ret, throw, flagIssue_in_tx.
  destruct (Qeq_bool (current_amount position - RecordSellParams.amount p) 0);
    [|destruct (Qlt_bool 0 (total_exit_amount position + RecordSellParams.amount p))];
    simpl;
    (destruct (update_violates _ _); [reflexivity|]);
    (destruct (where_id (id position) _); [reflexivity|]); simpl;
    (destruct (Qlt_bool 50000 _); simpl);
    (destruct (Qlt_bool _ 0 && Qlt_bool _ _); reflexivity).
Qed.

(* ------------------------------------------------------------------ *)
(** ** The scenarios of the specification, evaluated *)

(** Buy 100 units at cost 1000. *)
Example scenario_first_buy :
  recordBuy buy_100 10 empty_db
  = (Ok (opened 1 buy_100 10),
     mkDb [opened 1 buy_100 10] [] 2 1)
  /\ avg_entry_price (opened 1 buy_100 10) == 10
  /\ status (opened 1 buy_100 10) = OPEN.
Proof. split; [|split]; reflexivity. Qed.

(** Then buy 50 more at cost 600: the average price is 1600 / 150. *)
Example scenario_second_buy :
  exists pos db',
    recordBuy (RecordBuyParams.mk 1 "SOL" 50 600 1006) 20 db_100 = (Ok pos, db')
    /\ total_entry_amount pos == 150 /\ total_entry_cost pos == 1600
    /\ avg_entry_price pos == 1600 / 150
    /\ current_amount pos == 150 /\ status pos = OPEN.
Proof.
  eexists _, _. split; [reflexivity|]. repeat split; reflexivity.
Qed.

(** Or sell 50 for proceeds 600. *)
Example scenario_partial_sell :
  exists res db',
    recordSell (RecordSellParams.mk 1 "SOL" 50 600 1007) 20 db_100
    = (Ok res, db')
    /\ SellResult.cost_basis res == 500 /\ SellResult.realized_pnl res == 100
    /\ current_amount (SellResult.position res) == 50
    /\ status (SellResult.position res) = PARTIAL
    /\ position_flags db' = [].
Proof.
  eexists _, _. split; [reflexivity|]. repeat split; reflexivity.
Qed.

(** A sell with no prior buy. *)
Example scenario_sell_without_position :
  recordSell (RecordSellParams.mk 1 "SOL" 100 1200 1008) 20 empty_db
  = (Err (NoOpenPosition 100 "SOL" 1),
     mkDb [] [mkFlag 1 None (Some 1008%Z) 1 sell_without_position critical
                     (DescNoOpenPosition 100 "SOL" 1 1008) false 20]
          1 2).
Proof. reflexivity. Qed.

(** A sell of 1000 units out of 6000 bought at 10 raises oversized_position,
    and is accepted. *)
Example scenario_oversized :
  is_ok (fst (recordSell sell_1000 20 db_6000)) = true
  /\ map flag_type
         (new_flags db_6000 (snd (recordSell sell_1000 20 db_6000)))
     = [oversized_position].
Proof. split; reflexivity. Qed.

(** The UNIQUE constraint holds for CLOSED rows too (schema.sql, line 105): the
    sell that would close a second position of the same wallet and token is
    refused by the store and rolled back. *)
Example scenario_second_close :
  let closed := run [CallSell sell_30 20; CallSell sell_70 30] db_100 in
  let reopened := call (CallBuy buy_100 40) closed in
  map status (positions reopened) = [CLOSED; OPEN]
  /\ recordSell (RecordSellParams.mk 1 "SOL" 100 1100 1009) 50 reopened
     = (Err UniqueViolation, reopened).
Proof. split; reflexivity. Qed.

(* ------------------------------------------------------------------ *)
(** ** More on the lookup *)

Lemma earliest_least rows r l :
  earliest rows = r :: l ->
  forall r', In r' rows -> (first_entry_at r <= first_entry_at r')%Z.
Proof.
  revert r l. induction rows as [|a rest IH]; simpl; intros r l H r' Hin.
  - destruct Hin.
  - destruct (earliest rest) as [|m l'] eqn:E.
    + apply earliest_nil in E. subst rest. inversion H; subst.
      destruct Hin as [<-|[]]. lia.
    + specialize (IH m l' eq_refl).
      destruct (first_entry_at a <=? first_entry_at m)%Z eqn:L;
        inversion H; subst.
      * apply Z.leb_le in L. destruct Hin as [<-|Hin]; [lia|].
        specialize (IH r' Hin). lia.
      * apply Z.leb_gt in L. destruct Hin as [<-|Hin]; [lia|].
        now apply IH.
Qed.

Lemma select_open_empty rows w t :
  select_open rows w t = [] -> filter (open_for w t) rows = [].
Proof. unfold select_open. apply earliest_nil. Qed.

Lemma filter_nil_all {A} (f : A -> bool) (l : list A) :
  filter f l = [] -> forall x, In x l -> f x = false.
Proof.
  intros H x Hin. destruct (f x) eqn:E; [|reflexivity].
  assert (In x (filter f l)) as Hf by (apply filter_In; auto).
  rewrite H in Hf. destruct Hf.
Qed.

Lemma open_for_iff w t r :
  open_for w t r = true
  <-> wallet_id r = w /\ token r = t /\ status r <> CLOSED.
Proof.
  unfold open_for. rewrite !andb_true_iff, Z.eqb_eq, String.eqb_eq.
  destruct (status r); simpl; intuition congruence.
Qed.

Lemma getOpenPosition_none_filter w t db :
  getOpenPosition w t db = None -> filter (open_for w t) (positions db) = [].
Proof.
  rewrite getOpenPosition_select. intro H. apply select_open_empty.
  destruct (select_open (positions db) w t); [reflexivity|discriminate].
Qed.

Lemma getOpenPosition_some_select w t db r :
  getOpenPosition w t db = Some r -> select_open (positions db) w t = [r].
Proof.
  rewrite getOpenPosition_select. intro H.
  destruct (select_open (positions db) w t) as [|x l] eqn:S; [discriminate|].
  inversion H; subst x.
  destruct (select_open_In _ _ _ _ _ S) as (_ & _ & ->). reflexivity.
Qed.

Lemma filter_map_same {A} (P : A -> bool) (g : A -> A) (l : list A) :
  (forall x, In x l -> P (g x) = P x) ->
  filter P (map g l) = map g (filter P l).
Proof.
  induction l as [|a l IH]; simpl; intro H; [reflexivity|].
  rewrite (H a (or_introl eq_refl)).
  destruct (P a); simpl; rewrite IH; auto.
Qed.

Lemma earliest_map (g : Position -> Position) rows :
  (forall r, first_entry_at (g r) = first_entry_at r) ->
  earliest (map g rows) = map g (earliest rows).
Proof.
  intro Hg. induction rows as [|a rest IH]; simpl; [reflexivity|].
  rewrite IH. destruct (earliest rest) as [|m l]; simpl; [reflexivity|].
  rewrite !Hg. destruct (first_entry_at a <=? first_entry_at m)%Z; reflexivity.
Qed.

(** A rewrite that keeps the first entry, and whether a row is open for the
    pair, commutes with the lookup. *)
Lemma select_open_update f i rows w t :
  (forall r, first_entry_at (f r) = first_entry_at r) ->
  (forall r, In r rows -> id r = i -> open_for w t (f r) = open_for w t r) ->
  select_open (update_where_id f i rows) w t
  = update_where_id f i (select_open rows w t).
Proof.
  intros Hfirst Hopen. unfold select_open, update_where_id.
  rewrite filter_map_same, earliest_map; [reflexivity| |].
  - intro r. destruct (id r =? i)%Z; auto.
  - intros r Hin. destruct (id r =? i)%Z eqn:E; [|reflexivity].
    apply Z.eqb_eq in E. now apply Hopen.
Qed.

Lemma filter_map_length_le {A} (P : A -> bool) (g : A -> A) (l : list A) :
  (forall x, In x l -> P (g x) = true -> P x = true) ->
  (List.length (filter P (map g l)) <= List.length (filter P l))%nat.
Proof.
  induction l as [|a l IH]; simpl; intro H; [lia|].
  assert (List.length (filter P (map g l)) <= List.length (filter P l))%nat
    as IH' by (apply IH; intros; apply H; auto).
  destruct (P (g a)) eqn:E.
  - rewrite (H a (or_introl eq_refl) E). simpl. lia.
  - destruct (P a); simpl; lia.
Qed.

Lemma length_le_1_same {A} (l : list A) (a b : A) :
  (List.length l <= 1)%nat -> In a l -> In b l -> a = b.
Proof.
  destruct l as [|x [|y l]]; simpl; intros H Ha Hb.
  - destruct Ha.
  - destruct Ha as [<-|[]], Hb as [<-|[]]. reflexivity.
  - lia.
Qed.

Lemma sold_open_for pos a pr now w t :
  open_or_partial (status pos) = true ->
  status (sold pos a pr now pos) <> CLOSED ->
  open_for w t (sold pos a pr now pos) = open_for w t pos.
Proof.
  intros Hop Hn. unfold open_for. simpl in *. rewrite Hop.
  destruct (sell_status _ _); [reflexivity|reflexivity|]. now exfalso.
Qed.

(** On a sound store the first buy of a pair never breaks a constraint. *)
Lemma insert_never_violates p now db :
  wf db ->
  getOpenPosition (RecordBuyParams.walletId p) (RecordBuyParams.token p) db
    = None ->
  insert_violates (positions db) (opened (positions_id_seq db) p now) = false.
Proof.
  intros [_ Hlt] G. apply getOpenPosition_none_filter in G.
  unfold insert_violates. apply existsb_none. apply Forall_forall.
  intros o Ho. rewrite Forall_forall in Hlt.
  apply orb_false_iff. split.
  - apply Z.eqb_neq. specialize (Hlt (id o) (in_map id _ _ Ho)). simpl. lia.
  - pose proof (filter_nil_all _ _ G o Ho) as F.
    unfold open_for in F. unfold same_key. simpl.
    destruct ((wallet_id o =? RecordBuyParams.walletId p)%Z
              && String.eqb (token o) (RecordBuyParams.token p)); simpl in *;
      [|reflexivity].
    destruct (status o); simpl in *; congruence.
Qed.

(** One call never raises the number of open rows of a pair above one. *)
Lemma call_count_open c db w t :
  wf db -> (count_open w t db <= 1)%nat -> (count_open w t (call c db) <= 1)%nat.
Proof.
  intros W H. unfold count_open in *.
  assert (forall f i r,
            In r (positions db) -> id r = i ->
            (forall x, id (f x) = id x) ->
            (open_for w t (f r) = true -> open_for w t r = true) ->
            (List.length (filter (open_for w t)
                            (update_where_id f i (positions db))) <= 1)%nat)
    as Hupd.
  { intros f i r Hin Hid Hf Hop.
    etransitivity; [|exact H]. apply filter_map_length_le.
    intros x Hx. destruct (id x =? i)%Z eqn:E; [|auto].
    apply Z.eqb_eq in E.
    assert (x = r) by (eapply wf_same_row; eauto; congruence). now subst x. }
  destruct c as [p now|p now]; simpl.
  - pose proof (recordBuy_outcome p now db) as O.
    remember (recordBuy p now db) as out eqn:E. clear E.
    destruct O; simpl; try assumption.
    + rewrite filter_app, length_app. simpl.
      destruct (open_for w t (opened (positions_id_seq db) p now)) eqn:Hn;
        simpl; [|lia].
      apply open_for_iff in Hn. simpl in Hn. destruct Hn as (<- & <- & _).
      match goal with G : getOpenPosition _ _ _ = None |- _ =>
        rewrite (getOpenPosition_none_filter _ _ _ G) end.
      simpl. lia.
    + eapply Hupd with (r := existing); auto.
  - pose proof (recordSell_outcome p now db) as O.
    remember (recordSell p now db) as out eqn:E. clear E.
    destruct O; simpl; try assumption.
    unfold sold_rows. eapply Hupd with (r := position); auto.
    intro Hn. apply open_for_iff in Hn. simpl in Hn.
    destruct Hn as (Hw & Ht & _).
    match goal with G : open_for _ _ position = true |- _ =>
      apply open_for_iff in G; destruct G as (_ & _ & Hs) end.
    apply open_for_iff. auto.
Qed.

Lemma getOpenPosition_filter_none w t db :
  filter (open_for w t) (positions db) = [] -> getOpenPosition w t db = None.
Proof.
  intro H. rewrite getOpenPosition_select. unfold select_open. now rewrite H.
Qed.

(** A valid sell on a pair without open position is refused and flagged. *)
Lemma recordSell_no_position p now db :
  0 < RecordSellParams.amount p -> 0 <= RecordSellParams.proceeds p ->
  getOpenPosition (RecordSellParams.walletId p) (RecordSellParams.token p) db
    = None ->
  recordSell p now db
  = (Err (NoOpenPosition (RecordSellParams.amount p) (RecordSellParams.token p)
            (RecordSellParams.walletId p)),
     flagIssue (flag_no_position p) now db).
Proof.
  intros Ha Hp G.
  pose proof (recordSell_outcome p now db) as O.
  remember (recordSell p now db) as out eqn:E. clear E.
  destruct O;
    try match goal with H : _ \/ _ |- _ => exfalso; destruct H; lra end;
    try congruence.
Qed.

Lemma update_violates_found rows i r o :
  In r rows -> id r = i -> In o rows -> id o <> i -> same_key o r = true ->
  update_violates rows i = true.
Proof.
  intros Hr Hid Ho Hne Hk. unfold update_violates.
  apply existsb_exists. exists r. split; [assumption|].
  apply andb_true_iff. split; [now apply Z.eqb_eq|].
  apply existsb_exists. exists o. split; [assumption|].
  apply andb_true_iff. split; [|assumption].
  apply negb_true_iff. now apply Z.eqb_neq.
Qed.

Lemma wf_run cs db : wf db -> wf (run cs db).
Proof.
  revert db. induction cs as [|c cs IH]; intros db H; [exact H|].
  simpl. apply IH. now apply wf_call.
Qed.

Lemma wf_db_100 : wf db_100.
Proof. exact (wf_call (CallBuy buy_100 10) empty_db wf_empty_db). Qed.

Lemma wf_db_reopened : wf db_reopened.
Proof.
  unfold db_reopened. apply wf_call. apply wf_run. exact wf_db_100.
Qed.

(* ------------------------------------------------------------------ *)
(** ** The table of flags under calls *)

Lemma wf_flags_same a b :
  position_flags a = position_flags b ->
  position_flags_id_seq a = position_flags_id_seq b ->
  wf_flags a -> wf_flags b.
Proof. unfold wf_flags. intros -> ->. auto. Qed.

Lemma flagIssue_wf_flags params now db :
  wf_flags db -> wf_flags (flagIssue params now db).
Proof.
  intros [ND Hlt]. unfold wf_flags. rewrite flagIssue_eq. simpl.
  rewrite map_app. simpl. split.
  - apply NoDup_snoc; [assumption|].
    intro Hin. rewrite Forall_forall in Hlt. specialize (Hlt _ Hin). lia.
  - apply Forall_app. split.
    + eapply Forall_impl; [|exact Hlt]. simpl. intros. lia.
    + repeat constructor. lia.
Qed.

Lemma raise_if_wf_flags c params now db :
  wf_flags db -> wf_flags (raise_if c params now db).
Proof. destruct c; simpl; [apply flagIssue_wf_flags|auto]. Qed.

Lemma advisory_unresolved p position now db :
  Forall (fun f => resolved f = false) (advisory p position now db).
Proof.
  unfold advisory.
  destruct (is_oversized position), (is_suspicious p position); simpl;
    repeat constructor.
Qed.

(** One call appends to the table of flags, unresolved rows only, under ids
    drawn from the sequence. *)
Lemma call_flags c db :
  exists fs,
    position_flags (call c db) = position_flags db ++ fs
    /\ Forall (fun f => resolved f = false) fs
    /\ (wf_flags db -> wf_flags (call c db)).
Proof.
  destruct c as [p now|p now]; simpl.
  - exists []. rewrite app_nil_r.
    pose proof (recordBuy_outcome p now db) as O.
    remember (recordBuy p now db) as out eqn:E. clear E.
    destruct O; simpl;
      (split; [reflexivity|]); (split; [constructor|]);
      intro Wf; eapply wf_flags_same; try exact Wf; reflexivity.
  - pose proof (recordSell_outcome p now db) as O.
    remember (recordSell p now db) as out eqn:E. clear E.
    destruct O.
    + exists []. simpl. rewrite app_nil_r. auto.
    + exists [flag_row (flag_no_position p) (position_flags_id_seq db) now].
      split; [reflexivity|].
      split; [repeat constructor|apply flagIssue_wf_flags].
    + exists [flag_row (flag_exceeds p position) (position_flags_id_seq db) now].
      split; [reflexivity|].
      split; [repeat constructor|apply flagIssue_wf_flags].
    + exists []. simpl. rewrite app_nil_r. auto.
    + exists (advisory p position now db).
      split; [apply advised_flags|].
      split; [apply advisory_unresolved|].
      intro Wf.
      apply (wf_flags_same (advised p position now db)); try reflexivity.
      unfold advised. now apply raise_if_wf_flags, raise_if_wf_flags.
Qed.

(* ------------------------------------------------------------------ *)
(** ** Rows across calls *)

Lemma evolves_refl r : evolves r r.
Proof. unfold evolves. repeat split; lra. Qed.

Lemma evolves_trans a b c : evolves a b -> evolves b c -> evolves a c.
Proof.
  unfold evolves. intros H1 H2.
  decompose [and] H1. decompose [and] H2.
  repeat split; try congruence; lra.
Qed.

Lemma row_step_evolves r r' : row_step r r' -> evolves r r'.
Proof.
  destruct 1; unfold evolves, bought, sold; simpl; repeat split; lra.
Qed.

(* ------------------------------------------------------------------ *)
(** ** Averages and realized P&L *)

Lemma Qdiv_mult_cancel (x y : Q) : 0 < y -> (x / y) * y == x.
Proof. intro H. field. intro E. rewrite E in H. apply (Qlt_irrefl 0 H). Qed.

(** The quotient of the sums lies between the two quotients. *)
Lemma mediant_between (A C a c P : Q) :
  0 < A -> 0 < a -> P == C / A ->
  (P <= c / a -> P <= (C + c) / (A + a) /\ (C + c) / (A + a) <= c / a)
  /\ (c / a <= P -> c / a <= (C + c) / (A + a) /\ (C + c) / (A + a) <= P).
Proof.
  intros HA Ha HP.
  assert (0 < A + a) as HAa by lra.
  pose proof (Qdiv_mult_cancel C A HA) as E1.
  pose proof (Qdiv_mult_cancel c a Ha) as E2.
  pose proof (Qdiv_mult_cancel (C + c) (A + a) HAa) as E3.
  rewrite <- HP in E1.
  set (q := c / a) in *. set (M := (C + c) / (A + a)) in *.
  split; intro H; split; nra.
Qed.

Lemma positive_entry_invariant :
  row_invariant (fun r => 0 < total_entry_amount r).
Proof.
  split.
  - intros i p now Ha Hc. exact Ha.
  - intros r r' Hstep H. destruct Hstep; simpl; [assumption|lra|assumption].
Qed.

(** What a buy leaves of the table: old rows, rows bought into, or the row it
    inserted. *)
Lemma recordBuy_row_origin p now db r' :
  wf db -> In r' (positions (snd (recordBuy p now db))) ->
  (exists r, In r (positions db)
             /\ (r' = r
                 \/ exists a c, 0 < a /\ 0 < c /\ r' = bought r a c now r))
  \/ (0 < RecordBuyParams.amount p /\ 0 < RecordBuyParams.cost p
      /\ r' = opened (positions_id_seq db) p now).
Proof.
  intros W Hin.
  pose proof (recordBuy_outcome p now db) as O.
  remember (recordBuy p now db) as out eqn:E. clear E.
  destruct O; simpl in Hin.
  - left. exists r'. auto.
  - left. exists r'. auto.
  - apply in_app_or in Hin. destruct Hin as [Hin|[<-|[]]].
    + left. exists r'. auto.
    + right. auto.
  - left. apply update_where_id_In in Hin.
    destruct Hin as (r & Hr & [[Eid ->]|[_ ->]]).
    + assert (r = existing) by (eapply wf_same_row; eauto). subst r.
      exists existing. split; [assumption|]. right. eauto.
    + exists r. auto.
Qed.

(** What a sell leaves of the table: old rows, or the row it sold from. *)
Lemma recordSell_row_origin p now db r' :
  wf db -> In r' (positions (snd (recordSell p now db))) ->
  exists r, In r (positions db)
            /\ (r' = r \/ exists a pr, r' = sold r a pr now r).
Proof.
  intros W Hin.
  pose proof (recordSell_outcome p now db) as O.
  remember (recordSell p now db) as out eqn:E. clear E.
  destruct O; simpl in Hin; try (exists r'; auto; fail).
  unfold sold_rows in Hin. apply update_where_id_In in Hin.
  destruct Hin as (r & Hr & [[Eid ->]|[_ ->]]).
  - assert (r = position) by (eapply wf_same_row; eauto). subst r.
    exists position. split; [assumption|]. right. eauto.
  - exists r. auto.
Qed.

(** After buys only, nothing was sold from any row of a pair that had no row
    to begin with. *)
Lemma buys_leave_unsold w t cs db :
  forallb is_buy cs = true ->
  holds unsold w t db -> holds unsold w t (run cs db).
Proof.
  revert db. induction cs as [|c cs IH]; intros db Hb H; [exact H|].
  simpl in Hb. apply andb_true_iff in Hb. destruct Hb as [Hc Hb].
  simpl. apply IH; [assumption|].
  destruct c as [p now|p now]; [|discriminate]. simpl.
  destruct H as [W H]. split; [exact (wf_call (CallBuy p now) db W)|].
  intros r' Hin Hp.
  destruct (recordBuy_row_origin p now db r' W Hin)
    as [(r & Hr & [->|(a & c & _ & _ & ->)])|(_ & _ & ->)].
  - now apply H.
  - assert (unsold r) as U by (apply H; [assumption|exact Hp]). exact U.
  - unfold unsold, opened; simpl. repeat split; reflexivity.
Qed.

(** Sells keep a settled row settled. *)
Lemma sells_keep_settled w t cs db :
  forallb (fun c => negb (is_buy c)) cs = true ->
  holds settled w t db -> holds settled w t (run cs db).
Proof.
  revert db. induction cs as [|c cs IH]; intros db Hs H; [exact H|].
  simpl in Hs. apply andb_true_iff in Hs. destruct Hs as [Hc Hs].
  simpl. apply IH; [assumption|].
  destruct c as [p now|p now]; [discriminate|]. simpl.
  destruct H as [W H]. split; [exact (wf_call (CallSell p now) db W)|].
  intros r' Hin Hp.
  destruct (recordSell_row_origin p now db r' W Hin)
    as (r & Hr & [->|(a & pr & ->)]).
  - now apply H.
  - assert (settled r) as U by (apply H; [assumption|exact Hp]).
    unfold settled, sold in *; simpl. lra.
Qed.

(* ------------------------------------------------------------------ *)
(** ** The webhook's helpers *)

Lemma nonempty_string_some v s :
  Webhook.nonempty_string v = Some s -> v = Webhook.JsString s /\ s <> ""%string.
Proof.
  destruct v; simpl; try discriminate.
  destruct (String.eqb_spec s0 ""); [discriminate|].
  intros [= <-]. now split.
Qed.

Lemma nonempty_string_string s :
  s <> ""%string -> Webhook.nonempty_string (Webhook.JsString s) = Some s.
Proof.
  intro N. simpl. destruct (String.eqb_spec s ""); [contradiction|reflexivity].
Qed.

Lemma existsb_eqb_In s l :
  existsb (String.eqb s) l = true <-> In s l.
Proof.
  rewrite existsb_exists. split.
  - intros (x & Hin & E). apply String.eqb_eq in E. now subst.
  - intro Hin. exists s. split; [assumption|apply String.eqb_refl].
Qed.

Lemma parseWebhook_ok up body data :
  Webhook.parseWebhook up body = Webhook.ParseOk data ->
  exists props symbol action,
    body = Webhook.JsObject props
    /\ Webhook.get body "symbol" = Webhook.JsString symbol
    /\ symbol <> ""%string
    /\ Webhook.get body "action" = Webhook.JsString action
    /\ action <> ""%string
    /\ Webhook.get body "timeframe" = Webhook.JsString (Webhook.timeframe data)
    /\ Webhook.timeframe data <> ""%string
    /\ Webhook.symbol data = up symbol
    /\ Webhook.action data = up action
    /\ In (Webhook.symbol data) Webhook.validSymbols
    /\ In (Webhook.action data) ["BUY"; "SELL"]%string
    /\ Webhook.price data
       = (if Webhook.truthy (Webhook.get body "price")
          then Webhook.get body "price" else Webhook.JsString "0").
Proof.
  unfold Webhook.parseWebhook.
  destruct (negb (Webhook.truthy body) || negb (Webhook.is_object body))
    eqn:B; [discriminate|].
  destruct (Webhook.nonempty_string (Webhook.get body "symbol"))
    as [symbol|] eqn:S; [|discriminate].
  destruct (Webhook.nonempty_string (Webhook.get body "action"))
    as [action|] eqn:A; [|discriminate].
  destruct (Webhook.nonempty_string (Webhook.get body "timeframe"))
    as [timeframe|] eqn:T; [|discriminate].
  destruct (negb (String.eqb (up action) "BUY")
            && negb (String.eqb (up action) "SELL")) eqn:NA; [discriminate|].
  destruct (negb (existsb (String.eqb (up symbol)) Webhook.validSymbols))
    eqn:NS; [discriminate|].
  intros [= <-]. simpl.
  apply nonempty_string_some in S, A, T.
  destruct S as [S S'], A as [A A'], T as [T T'].
  destruct body; try discriminate S.
  assert (In (up symbol) Webhook.validSymbols) as IS
    by (apply negb_false_iff in NS; now apply existsb_eqb_In).
  assert (In (up action) ["BUY"; "SELL"]%string) as IA.
  { apply andb_false_iff in NA.
    destruct NA as [E|E]; apply negb_false_iff, String.eqb_eq in E;
      rewrite E; simpl; tauto. }
  exists props, symbol, action.
  repeat split; assumption.
Qed.

Lemma In_nonempty s l : In s l -> ~ In ""%string l -> s <> ""%string.
Proof. intros H N ->. contradiction. Qed.

Lemma route_tokens_ok symbol action timeframe wt i o :
  Webhook.route_tokens symbol action timeframe = inr (wt, i, o) ->
  ((symbol = "SOLUSD"%string
    /\ ((timeframe = "30"%string /\ wt = Webhook.sol_30m)
        \/ (timeframe = "60"%string /\ wt = Webhook.sol_60m)
        \/ (timeframe = "240"%string /\ wt = Webhook.sol_240m))
    /\ (i, o) = (if String.eqb action "BUY" then ("USDC", "SOL")
                 else ("SOL", "USDC"))%string)
   \/ (((symbol = "FARTCOIN"%string /\ wt = Webhook.fartcoin)
        \/ (symbol = "FARTBOY"%string /\ wt = Webhook.fartboy)
        \/ (symbol = "USELESS"%string /\ wt = Webhook.useless))
       /\ (i, o) = (if String.eqb action "BUY" then ("SOL"%string, symbol)
                    else (symbol, "SOL"%string)))).
Proof.
  unfold Webhook.route_tokens.
  destruct (String.eqb_spec symbol "SOLUSD") as [->|NS].
  - destruct (String.eqb_spec timeframe "30") as [->|N30].
    { intros [= <- <- <-]. left. destruct (String.eqb action "BUY"); tauto. }
    destruct (String.eqb_spec timeframe "60") as [->|N60].
    { intros [= <- <- <-]. left. destruct (String.eqb action "BUY"); tauto. }
    destruct (String.eqb_spec timeframe "240") as [->|N240].
    { intros [= <- <- <-]. left. destruct (String.eqb action "BUY"); tauto. }
    discriminate.
  - destruct (String.eqb_spec symbol "FARTCOIN") as [->|NF].
    { intros [= <- <- <-]. right. destruct (String.eqb action "BUY"); tauto. }
    destruct (String.eqb_spec symbol "FARTBOY") as [->|NB].
    { intros [= <- <- <-]. right. destruct (String.eqb action "BUY"); tauto. }
    destruct (String.eqb_spec symbol "USELESS") as [->|NU].
    { intros [= <- <- <-]. right. destruct (String.eqb action "BUY"); tauto. }
    discriminate.
Qed.

Lemma route_tokens_listed symbol action timeframe wt i o :
  Webhook.route_tokens symbol action timeframe = inr (wt, i, o) ->
  In i (map fst Tokens.TOKENS) /\ In o (map fst Tokens.TOKENS)
  /\ i <> o /\ (i = "SOL"%string \/ o = "SOL"%string).
Proof.
  intro E. apply route_tokens_ok in E.
  destruct E as [(-> & _ & E)|(S & E)].
  - destruct (String.eqb action "BUY"); injection E as -> ->;
      simpl; repeat split; try tauto; discriminate.
  - destruct (String.eqb action "BUY"); injection E as -> ->;
      destruct S as [[-> _]|[[-> _]|[-> _]]];
      simpl; repeat split; try tauto; discriminate.
Qed.

Lemma lookup_listed s :
  In s (map fst Tokens.TOKENS) ->
  exists token,
    Tokens.own_property s Tokens.TOKENS = Some token
    /\ Tokens.lookup s = Tokens.Own token
    /\ Tokens.symbol token = s.
Proof.
  simpl. intros [<-|[<-|[<-|[<-|[<-|[]]]]]]; eexists; repeat split.
Qed.

Lemma routeToWallet_ok {Keypair} up (gw : Webhook.WalletType -> string + Keypair)
    wallets symbol action timeframe route :
  Webhook.routeToWallet up gw wallets symbol action timeframe
    = Webhook.RouteOk route ->
  Webhook.route_tokens symbol action timeframe
    = inr (Webhook.walletType route, Webhook.inputToken route,
           Webhook.outputToken route)
  /\ gw (Webhook.walletType route) = inr (Webhook.wallet route)
  /\ Tokens.getMintAddress up (Webhook.inputToken route)
     = inr (Webhook.inputMint route)
  /\ Tokens.getMintAddress up (Webhook.outputToken route)
     = inr (Webhook.outputMint route)
  /\ exists row rest,
       filter (fun row => String.eqb (Webhook.wallet_name row)
                            (Webhook.walletNameMap (Webhook.walletType route)))
              wallets = row :: rest
       /\ Webhook.walletId route = Webhook.wallet_row_id row.
Proof.
  unfold Webhook.routeToWallet.
  destruct (Webhook.route_tokens symbol action timeframe)
    as [e|[[wt i] o]]; [discriminate|].
  destruct (gw wt) as [e|w] eqn:G; [discriminate|].
  destruct (Tokens.getMintAddress up i) as [e|im] eqn:I; [discriminate|].
  destruct (Tokens.getMintAddress up o) as [e|om] eqn:O; [discriminate|].
  destruct (filter _ wallets) as [|row rest] eqn:F; [discriminate|].
  intros [= <-]. simpl.
  split; [reflexivity|]. split; [assumption|]. split; [assumption|].
  split; [assumption|]. exists row, rest. now split.
Qed.

Lemma getMintAddress_listed up s :
  (forall k, In k (map fst Tokens.TOKENS) -> up k = k) ->
  In s (map fst Tokens.TOKENS) ->
  exists token,
    Tokens.own_property s Tokens.TOKENS = Some token
    /\ Tokens.getMintAddress up s = inr (Some (Tokens.mint token)).
Proof.
  intros U Hin. destruct (lookup_listed s Hin) as (token & O & L & _).
  exists token. split; [assumption|].
  unfold Tokens.getMintAddress. now rewrite (U s Hin), L.
Qed.

Lemma filter_nil_none {A} (f : A -> bool) l :
  filter f l = [] -> forall x, In x l -> f x = false.
Proof.
  intros F x Hin. destruct (f x) eqn:E; [|reflexivity].
  assert (In x (filter f l)) as H by (apply filter_In; now split).
  rewrite F in H. destruct H.
Qed.

Lemma routeToWallet_fail {Keypair} up
    (gw : Webhook.WalletType -> string + Keypair)
    wallets symbol action timeframe error :
  (forall k, In k (map fst Tokens.TOKENS) -> up k = k) ->
  Webhook.routeToWallet up gw wallets symbol action timeframe
    = Webhook.RouteFail error ->
  Webhook.route_tokens symbol action timeframe = inl error
  \/ (exists wt i o,
        Webhook.route_tokens symbol action timeframe = inr (wt, i, o)
        /\ (gw wt = inl error
            \/ ((exists w, gw wt = inr w)
                /\ error = String.append "Wallet not found in database: "
                             (Webhook.walletNameMap wt)
                /\ forall row, In row wallets ->
                     Webhook.wallet_name row <> Webhook.walletNameMap wt))).
Proof.
  intro U. unfold Webhook.routeToWallet.
  destruct (Webhook.route_tokens symbol action timeframe)
    as [e|[[wt i] o]] eqn:R; [intros [= <-]; now left|].
  cbv beta iota. intro H.
  right. exists wt, i, o. split; [reflexivity|].
  destruct (route_tokens_listed _ _ _ _ _ _ R) as (Hi & Ho & _).
  destruct (getMintAddress_listed up i U Hi) as (ti & _ & Ei).
  destruct (getMintAddress_listed up o U Ho) as (to & _ & Eo).
  rewrite Ei, Eo in H.
  destruct (gw wt) as [e|w] eqn:G; [injection H as <-; now left|].
  destruct (filter _ wallets) as [|row rest] eqn:F; [|discriminate].
  injection H as <-. right. split; [now exists w|]. split; [reflexivity|].
  intros row Hin E.
  apply (filter_nil_none _ _ F) in Hin. simpl in Hin.
  rewrite E, String.eqb_refl in Hin. discriminate.
Qed.

Lemma route_tokens_err symbol action timeframe error :
  Webhook.route_tokens symbol action timeframe = inl error ->
  (symbol = "SOLUSD"%string /\ ~ In timeframe ["30"; "60"; "240"]%string
   /\ error = String.append "Invalid timeframe for SOL trade: "
                (String.append timeframe " (must be 30, 60, or 240)"))
  \/ (~ In symbol Webhook.validSymbols
      /\ error = String.append "Unknown meme coin: " symbol).
Proof.
  unfold Webhook.route_tokens.
  destruct (String.eqb_spec symbol "SOLUSD") as [->|NS].
  - destruct (String.eqb_spec timeframe "30") as [->|N30]; [discriminate|].
    destruct (String.eqb_spec timeframe "60") as [->|N60]; [discriminate|].
    destruct (String.eqb_spec timeframe "240") as [->|N240]; [discriminate|].
    intros [= <-]. left. repeat split. simpl. intuition congruence.
  - destruct (String.eqb_spec symbol "FARTCOIN") as [->|NF]; [discriminate|].
    destruct (String.eqb_spec symbol "FARTBOY") as [->|NB]; [discriminate|].
    destruct (String.eqb_spec symbol "USELESS") as [->|NU]; [discriminate|].
    intros [= <-]. right. split; [|reflexivity]. simpl. intuition congruence.
Qed.

Lemma route_tokens_bad_timeframe action timeframe :
  ~ In timeframe ["30"; "60"; "240"]%string ->
  Webhook.route_tokens "SOLUSD" action timeframe
  = inl (String.append "Invalid timeframe for SOL trade: "
           (String.append timeframe " (must be 30, 60, or 240)")).
Proof.
  intro N. unfold Webhook.route_tokens. simpl in N.
  change (String.eqb "SOLUSD" "SOLUSD") with true. cbv iota.
  destruct (String.eqb_spec timeframe "30"); [subst; tauto|].
  destruct (String.eqb_spec timeframe "60"); [subst; tauto|].
  destruct (String.eqb_spec timeframe "240"); [subst; tauto|].
  reflexivity.
Qed.

Lemma listed_mints_differ i o tin tout :
  In i (map fst Tokens.TOKENS) -> In o (map fst Tokens.TOKENS) -> i <> o ->
  Tokens.own_property i Tokens.TOKENS = Some tin ->
  Tokens.own_property o Tokens.TOKENS = Some tout ->
  Tokens.mint tin <> Tokens.mint tout.
Proof.
  simpl. intros Hi Ho Hne Pi Po.
  destruct Hi as [<-|[<-|[<-|[<-|[<-|[]]]]]];
    destruct Ho as [<-|[<-|[<-|[<-|[<-|[]]]]]];
    try (exfalso; apply Hne; reflexivity);
    injection Pi as <-; injection Po as <-; discriminate.
Qed.

Lemma route_tokens_buy_sell symbol timeframe wb ib ob ws i2 o2 :
  Webhook.route_tokens symbol "BUY" timeframe = inr (wb, ib, ob) ->
  Webhook.route_tokens symbol "SELL" timeframe = inr (ws, i2, o2) ->
  wb = ws /\ ob = i2 /\ ib = o2
  /\ ob = (if String.eqb symbol "SOLUSD" then "SOL"%string else symbol).
Proof.
  intros Rb Rs.
  apply route_tokens_ok in Rb, Rs. simpl in Rb, Rs.
  destruct Rb as [(-> & Tb & Eb)|(Sb & Eb)];
    destruct Rs as [(Es & Ts & Es')|(Ss & Es')];
    injection Eb as -> ->; injection Es' as -> ->.
  - repeat split.
    destruct Tb as [[-> ->]|[[-> ->]|[-> ->]]];
      destruct Ts as [[T ->]|[[T ->]|[T ->]]];
      try reflexivity; discriminate T.
  - exfalso. destruct Ss as [[S _]|[[S _]|[S _]]]; discriminate S.
  - exfalso. subst symbol.
    destruct Sb as [[S _]|[[S _]|[S _]]]; discriminate S.
  - destruct (String.eqb_spec symbol "SOLUSD") as [->|_].
    { exfalso. destruct Sb as [[S _]|[[S _]|[S _]]]; discriminate S. }
    repeat split.
    destruct Sb as [[-> ->]|[[-> ->]|[-> ->]]];
      destruct Ss as [[T ->]|[[T ->]|[T ->]]];
      try reflexivity; discriminate T.
Qed.

Lemma Math_max_0 x : 0 < Webhook.Math_max 0 x -> Webhook.Math_max 0 x = x.
Proof.
  unfold Webhook.Math_max. destruct (Qle_bool 0 x); [reflexivity|].
  intro H. exfalso. lra.
Qed.

Lemma inject_Z_nonneg z : (0 <= z)%Z -> 0 <= inject_Z z.
Proof. intro H. unfold Qle. simpl. lia. Qed.

Lemma calculateAmounts_ok {Keypair} (route : Webhook.RouteInfo Keypair)
    action balance a raw out :
  Webhook.calculateAmounts route action balance = Webhook.AmountsOk a raw out ->
  0 < a
  /\ a = (if String.eqb (Webhook.inputToken route) "SOL"
          then balance - Webhook.MIN_GAS_RESERVE else balance)
  /\ out = Webhook.outputToken route
  /\ match Tokens.lookup (Webhook.inputToken route) with
     | Tokens.Own token =>
         raw = Some (Qfloor (a * inject_Z (10 ^ Tokens.decimals token)))
     | Tokens.Inherited => raw = None
     | Tokens.Absent => False
     end.
Proof.
  unfold Webhook.calculateAmounts.
  set (amount := if String.eqb action "BUY" then _ else _).
  assert (amount = if String.eqb (Webhook.inputToken route) "SOL"
                   then Webhook.Math_max 0 (balance - Webhook.MIN_GAS_RESERVE)
                   else balance) as EA
    by (unfold amount; now destruct (String.eqb action "BUY")).
  clearbody amount.
  destruct (Qle_bool amount 0) eqn:L; [discriminate|].
  apply Qle_bool_false in L.
  assert (amount = if String.eqb (Webhook.inputToken route) "SOL"
                   then balance - Webhook.MIN_GAS_RESERVE else balance) as EA'.
  { rewrite EA. destruct (String.eqb (Webhook.inputToken route) "SOL");
      [|reflexivity].
    apply Math_max_0. now rewrite EA in L. }
  destruct (Tokens.lookup (Webhook.inputToken route)); [| |discriminate];
    intros [= <- <- <-]; now repeat split.
Qed.

Lemma lookup_inherited s :
  Tokens.lookup s = Tokens.Inherited -> In s Tokens.object_prototype.
Proof.
  unfold Tokens.lookup. destruct (Tokens.own_property s Tokens.TOKENS);
    [discriminate|].
  destruct (existsb (String.eqb s) Tokens.object_prototype) eqn:E;
    [|discriminate].
  intros _. now apply existsb_eqb_In.
Qed.

Lemma lookup_own s token :
  Tokens.lookup s = Tokens.Own token ->
  Tokens.own_property s Tokens.TOKENS = Some token
  /\ In s (map fst Tokens.TOKENS)
  /\ (Tokens.decimals token = 6 \/ Tokens.decimals token = 9)%Z.
Proof.
  unfold Tokens.lookup.
  destruct (Tokens.own_property s Tokens.TOKENS) as [t|] eqn:O.
  - intros [= ->]. split; [reflexivity|].
    revert O. cbv [Tokens.own_property Tokens.TOKENS].
    repeat match goal with
           | |- context [String.eqb ?k s] =>
               destruct (String.eqb_spec k s) as [<-|_];
               [intros [= <-]; simpl; tauto|]
           end.
    discriminate.
  - destruct (existsb _ _); discriminate.
Qed.

Lemma preValidate_ok {Keypair} (address : Keypair -> string) sol tok db
    (route : Webhook.RouteInfo Keypair) action balance :
  Webhook.preValidate address sol tok db route action
    = Webhook.ValidOk balance ->
  (if String.eqb (Webhook.inputToken route) "SOL"
   then Webhook.MIN_GAS_RESERVE else Webhook.MIN_OUTPUT_AMOUNT) <= balance
  /\ (action = "SELL"%string ->
      exists position,
        getOpenPosition (Webhook.walletId route) (Webhook.inputToken route) db
        = Some position).
Proof.
  unfold Webhook.preValidate.
  match goal with |- context [match ?b with inl _ => _ | inr _ => _ end] =>
    destruct b as [message|bal] end; [discriminate|].
  destruct (Qlt_bool bal _) eqn:L; [discriminate|].
  apply Qlt_bool_false in L.
  destruct (String.eqb_spec action "SELL") as [->|N].
  - destruct (getOpenPosition _ _ db) as [position|]; [|discriminate].
    intros [= <-]. split; [assumption|]. intros _. now exists position.
  - intros [= <-]. split; [assumption|]. intro. contradiction.
Qed.

Lemma advisory_types p position now db f :
  In f (advisory p position now db) ->
  flag_type f = oversized_position \/ flag_type f = suspicious_pnl.
Proof.
  unfold advisory. intro H. apply in_app_or in H.
  destruct (is_oversized position), (is_suspicious p position);
    simpl in H; intuition; subst f; simpl; tauto.
Qed.

Lemma recordBuy_leaves_open p now db :
  wf db -> 0 < RecordBuyParams.amount p -> 0 < RecordBuyParams.cost p ->
  exists pos db',
    recordBuy p now db = (Ok pos, db')
    /\ getOpenPosition (RecordBuyParams.walletId p) (RecordBuyParams.token p)
                       db' = Some pos
    /\ (getOpenPosition (RecordBuyParams.walletId p) (RecordBuyParams.token p)
                        db = None ->
        pos = opened (positions_id_seq db) p now).
Proof.
  intros W Ha Hc.
  assert (exists pos db', recordBuy p now db = (Ok pos, db'))
    as (pos & db' & E).
  { pose proof (recordBuy_outcome p now db) as O.
    remember (recordBuy p now db) as out eqn:E. clear E.
    destruct O;
      try match goal with H : _ \/ _ |- _ => exfalso; destruct H; lra end;
      eauto.
    exfalso.
    match goal with V : insert_violates _ _ = true |- _ =>
      rewrite insert_never_violates in V by assumption; discriminate V end. }
  exists pos, db'. split; [assumption|].
  apply recordBuy_ok in E.
  destruct E as (_ & _ & [(G & -> & ->)
                         |(ex & r0 & G & Hin & Hop & H0 & Hid & -> & ->)]).
  - split; [|reflexivity].
    rewrite getOpenPosition_select; simpl.
    unfold select_open. rewrite filter_app.
    rewrite (getOpenPosition_none_filter _ _ _ G). simpl.
    unfold open_for. simpl. now rewrite Z.eqb_refl, String.eqb_refl.
  - split; [|congruence].
    rewrite getOpenPosition_select; simpl.
    assert (r0 = ex) by (eapply wf_same_row; eauto). subst r0.
    rewrite select_open_update; [|reflexivity|reflexivity].
    rewrite (getOpenPosition_some_select _ _ _ _ G). simpl.
    now rewrite Z.eqb_refl.
Qed.

Lemma upper_fixes_tokens k :
  In k (map fst Tokens.TOKENS) -> Webhook.upper k = k.
Proof.
  simpl. intros [<-|[<-|[<-|[<-|[<-|[]]]]]]; reflexivity.
Qed.

Lemma initial_wallets_complete wt :
  exists row,
    In row Webhook.initial_wallets
    /\ Webhook.wallet_name row = Webhook.walletNameMap wt.
Proof.
  destruct wt; simpl; eauto 12.
Qed.

(* ------------------------------------------------------------------ *)
(** ** The set-up of the test suite *)

Lemma NoDup_map_filter {A B} (f : A -> B) (g : A -> bool) l :
  NoDup (map f l) -> NoDup (map f (filter g l)).
Proof.
  induction l as [|a l IH]; simpl; [constructor|].
  intro N. inversion N as [|? ? Hn N']. subst.
  destruct (g a); simpl; [|now apply IH].
  constructor; [|now apply IH].
  intro Hin. apply Hn. apply in_map_iff in Hin.
  destruct Hin as (x & E & Hx). apply filter_In in Hx.
  apply in_map_iff. exists x. tauto.
Qed.

Lemma wf_beforeEach w db : wf db -> wf (beforeEach w db).
Proof.
  intros [N B]. split; simpl.
  - now apply NoDup_map_filter.
  - rewrite Forall_forall in *. intros i Hin. apply B.
    apply in_map_iff in Hin. destruct Hin as (x & E & Hx).
    apply filter_In in Hx. apply in_map_iff. exists x. tauto.
Qed.

Lemma fresh_beforeEach w t db : fresh w t (beforeEach w db).
Proof.
  unfold fresh. apply Forall_forall. intros r Hin. simpl in Hin.
  apply filter_In in Hin. destruct Hin as [_ Hw].
  unfold not_of_pair. apply negb_true_iff in Hw. now rewrite Hw.
Qed.

Lemma buy_then_close w t db0 amount cost proceeds trade1 trade2 now1 now2 :
  wf db0 -> fresh w t db0 ->
  0 < amount -> 0 < cost -> 0 <= proceeds ->
  exists pos db1 res db2,
    recordBuy (RecordBuyParams.mk w t amount cost trade1) now1 db0
    = (Ok pos, db1)
    /\ recordSell (RecordSellParams.mk w t amount proceeds trade2) now2 db1
       = (Ok res, db2)
    /\ status (SellResult.position res) = CLOSED
    /\ realized_pnl (SellResult.position res) == proceeds - cost
    /\ getOpenPosition w t db2 = None.
Proof.
  intros W1 F Ha Hc Hp.
  set (pb := RecordBuyParams.mk w t amount cost trade1).
  set (ps := RecordSellParams.mk w t amount proceeds trade2).
  pose proof (recordBuy_opens pb now1 db0 W1 F Ha Hc) as EB.
  set (r := opened (positions_id_seq db0) pb now1) in *.
  set (db1 := db_after_buy (positions db0 ++ [r])
                           (positions_id_seq db0 + 1)%Z db0) in *.
  assert (wf db1) as W2.
  { replace db1 with (call (CallBuy pb now1) db0)
      by (simpl; now rewrite EB).
    now apply wf_call. }
  assert (open_for w t r = true) as Ho
    by (unfold open_for; simpl; now rewrite Z.eqb_refl, String.eqb_refl).
  pose proof (recordSell_last ps now2 db1 (positions db0) r W2 eq_refl
                F Ho Ha Hp (Qle_refl _)) as ES.
  exists r, db1. eexists. eexists.
  split; [exact EB|]. split; [exact ES|].
  assert (Qeq_bool (amount - amount) 0 = true) as Z
    by (apply Qeq_bool_iff; lra).
  clear EB ES W2 Ho. subst db1 r ps pb.
  split; [|split].
  - change (sell_status (amount - amount) (0 + amount) = CLOSED).
    unfold sell_status. now rewrite Z.
  - simpl. field. lra.
  - apply getOpenPosition_filter_none.
    cbn [positions]. rewrite filter_app.
    rewrite (filter_none (open_for w t) (positions db0)).
    2:{ eapply Forall_impl; [|exact F].
        intros a. apply not_of_pair_open_for. }
    cbn [filter app].
    match goal with |- context [open_for w t ?x] =>
      replace (open_for w t x) with false; [reflexivity|] end.
    unfold open_for.
    match goal with |- context [open_or_partial ?st] =>
      change st with (sell_status (amount - amount) (0 + amount)) end.
    unfold sell_status. rewrite Z. now rewrite andb_false_r.
Qed.

(* ------------------------------------------------------------------ *)
(** ** updateTradeStatus and runBalanceCheck *)

Lemma params_of_app us vs :
  Webhook.params_of (us ++ vs) = Webhook.params_of us ++ Webhook.params_of vs.
Proof.
  induction us as [|[c k|c] us IH]; simpl; [reflexivity| |assumption].
  now rewrite IH.
Qed.

Lemma params_of_bound us n :
  Webhook.params_of us = seq 2 n ->
  forall c k, In (Webhook.Assign c k) us -> (2 <= k < 2 + n)%nat.
Proof.
  intros E c k Hin.
  assert (In k (Webhook.params_of us)) as H.
  { clear E. induction us as [|[c' k'|c'] us IH]; simpl in *.
    - destruct Hin.
    - destruct Hin as [[= -> ->]|Hin]; [now left|right; now apply IH].
    - destruct Hin as [Hin|Hin]; [discriminate|now apply IH]. }
  rewrite E in H. apply in_seq in H. lia.
Qed.

Lemma firstn_2_length {A} (l : list A) x y :
  firstn 2 l = [x; y] -> (2 <= List.length l)%nat.
Proof. destruct l as [|a [|b l]]; simpl; try discriminate. lia. Qed.

Section Built.
Variable stringify : Webhook.JsValue -> string.
Variables (tradeId : Z) (status : string) (data : option Webhook.StatusData).

Lemma built_start :
  Webhook.built stringify tradeId status data ["status"%string]
      ([Webhook.Assign "status" 2],
       [Webhook.SqlId tradeId; Webhook.SqlText status], 3%nat).
Proof.
  unfold Webhook.built. simpl. repeat split; try reflexivity.
  - repeat constructor. simpl. tauto.
  - intros c [<-|[]]. now left.
  - destruct H as [[= <- <-]|[]]. congruence.
  - destruct H as [[= <- <-]|[]]. congruence.
  - destruct H as [H|[]]. discriminate.
  - destruct H as [H|[]]. discriminate.
Qed.

Lemma built_skip done column b : Webhook.built stringify tradeId status data done b ->
  Webhook.built stringify tradeId status data (column :: done) b.
Proof.
  destruct b as [[updates values] paramIndex]. unfold Webhook.built.
  intros (P & N & F & H & D & I & A & T).
  exact (conj P (conj N (conj F (conj H (conj D
           (conj (incl_tl _ I) (conj A T))))))).
Qed.

Lemma built_push done column value b :
  Webhook.built stringify tradeId status data done b ->
  ~ In column done -> column <> "status"%string ->
  Webhook.column_value stringify data column = Some value ->
  Webhook.built stringify tradeId status data (column :: done)
                (Webhook.push column value b).
Proof.
  destruct b as [[updates values] paramIndex]. unfold Webhook.built, Webhook.push.
  intros (P & N & F & H & D & I & A & T) Hnew Hns V.
  pose proof (firstn_2_length _ _ _ F) as L.
  rewrite !map_app, !length_app. cbn [List.length map Webhook.column_of].
  split; [lia|]. split; [|split; [|split; [|split; [|split; [|split]]]]].
  - rewrite params_of_app, N. simpl.
    replace (List.length values + 1 - 1)%nat
      with (S (List.length values - 1)) by lia.
    rewrite seq_S. repeat f_equal. lia.
  - rewrite firstn_app.
    replace (2 - List.length values)%nat with 0%nat by lia.
    simpl. now rewrite app_nil_r.
  - destruct updates; [discriminate|assumption].
  - apply NoDup_app; [assumption|repeat constructor; simpl; tauto|].
    intros c Hc [<-|[]]. apply Hnew. now apply I.
  - intros c Hc. apply in_app_or in Hc. destruct Hc as [Hc|[<-|[]]].
    + right. now apply I.
    + now left.
  - intros c k Hin Hc. apply in_app_or in Hin.
    destruct Hin as [Hin|[[= <- <-]|[]]].
    + destruct (A c k Hin Hc) as [E NE]. split; [|assumption].
      rewrite nth_error_app1; [assumption|].
      pose proof (params_of_bound _ _ N c k Hin). lia.
    + split; [|congruence].
      rewrite nth_error_app2 by lia.
      replace (paramIndex - 1 - List.length values)%nat with 0%nat by lia.
      now rewrite V.
  - intros c Hin. apply in_app_or in Hin.
    destruct Hin as [Hin|[Hin|[]]]; [|discriminate].
    destruct (T c Hin) as [E S]. split; [assumption|].
    apply in_or_app. now left.
Qed.

Lemma built_push_now done b :
  Webhook.built stringify tradeId status data done b ->
  ~ In "execution_timestamp"%string done ->
  In "signature"%string (map Webhook.column_of (fst (fst b))) ->
  Webhook.built stringify tradeId status data
                ("execution_timestamp"%string :: done)
                (Webhook.push_now "execution_timestamp" b).
Proof.
  destruct b as [[updates values] paramIndex].
  unfold Webhook.built, Webhook.push_now. simpl.
  intros (P & N & F & H & D & I & A & T) Hnew S.
  rewrite !map_app. simpl.
  split; [assumption|]. split; [|split; [|split; [|split; [|split; [|split]]]]].
  - rewrite params_of_app, N. simpl. apply app_nil_r.
  - assumption.
  - destruct updates; [discriminate|assumption].
  - apply NoDup_app; [assumption|repeat constructor; simpl; tauto|].
    intros c Hc [<-|[]]. apply Hnew. now apply I.
  - intros c Hc. apply in_app_or in Hc. destruct Hc as [Hc|[<-|[]]].
    + right. now apply I.
    + now left.
  - intros c k Hin Hc. apply in_app_or in Hin.
    destruct Hin as [Hin|[Hin|[]]]; [|discriminate]. now apply A.
  - intros c Hin. apply in_app_or in Hin.
    destruct Hin as [Hin|[[= <-]|[]]].
    + destruct (T c Hin) as [E S']. split; [assumption|].
      apply in_or_app. now left.
    + split; [reflexivity|]. apply in_or_app. now left.
Qed.

End Built.


Lemma truthy_text_some value s :
  Webhook.truthy_text value = Some s -> value = Some s.
Proof.
  destruct value as [x|]; simpl; [|discriminate].
  destruct (String.eqb x ""); [discriminate|congruence].
Qed.

Lemma truthy_json_some value v :
  Webhook.truthy_json value = Some v -> value = Some v.
Proof.
  destruct value as [x|]; simpl; [|discriminate].
  destruct (Webhook.truthy x); [congruence|discriminate].
Qed.

Ltac fresh_column :=
  let H := fresh in
  intro H; cbn [In] in H;
  repeat (destruct H as [H|H]; [discriminate H|]); exact H.

Lemma check_token_balance_row {Keypair} up (address : Keypair -> string)
    sol tok (route : Webhook.RouteInfo Keypair) token row :
  In row (Webhook.check_token_balance up address sol tok route token) ->
  Webhook.check_wallet_id row = Webhook.walletId route
  /\ Webhook.check_token row = token
  /\ Webhook.db_balance row = 0
  /\ Webhook.discrepancy row = 0
  /\ Webhook.is_mismatch row = false
  /\ Tokens.lookup (up token) <> Tokens.Absent.
Proof.
  unfold Webhook.check_token_balance, Tokens.getMintAddress.
  destruct (Tokens.lookup (up token)) eqn:K;
    [| |intro H; destruct H];
    match goal with |- context [match ?b with inl _ => _ | inr _ => _ end] =>
      destruct b as [message|balance] end;
    intro H; cbn in H;
    (contradiction || (destruct H as [<-|H]; [|contradiction]));
    simpl; repeat split; discriminate.
Qed.

Lemma check_token_balance_length {Keypair} up (address : Keypair -> string)
    sol tok (route : Webhook.RouteInfo Keypair) token :
  (List.length (Webhook.check_token_balance up address sol tok route token)
   <= 1)%nat.
Proof.
  unfold Webhook.check_token_balance.
  destruct (Tokens.getMintAddress up token); [simpl; lia|].
  match goal with |- context [match ?b with inl _ => _ | inr _ => _ end] =>
    destruct b as [message|balance] end; simpl; lia.
Qed.

(* ------------------------------------------------------------------ *)
(** ** Validation of a sell *)



(** C2. A sell rejected because no OPEN/PARTIAL position exists, or because the
    sold amount exceeds the remaining amount, persists exactly one flag
    (sell_without_position, respectively sell_exceeds_position) of severity
    critical and leaves the table of positions, hence any position row, exactly
    as it was. *)
Theorem rejected_sell_raises_one_critical_flag p now db :
  0 < RecordSellParams.amount p -> 0 <= RecordSellParams.proceeds p ->
  (getOpenPosition (RecordSellParams.walletId p) (RecordSellParams.token p) db
     = None ->
   exists f,
     recordSell p now db
     = (Err (NoOpenPosition (RecordSellParams.amount p)
               (RecordSellParams.token p) (RecordSellParams.walletId p)),
        mkDb (positions db) (position_flags db ++ [f]) (positions_id_seq db)
             (position_flags_id_seq db + 1)%Z)
     /\ flag_type f = sell_without_position /\ severity f = critical
     /\ position_id f = None
     /\ flag_wallet_id f = RecordSellParams.walletId p)
  /\ (forall position,
        getOpenPosition (RecordSellParams.walletId p)
                        (RecordSellParams.token p) db = Some position ->
        current_amount position < RecordSellParams.amount p ->
        exists f,
          recordSell p now db
          = (Err (InsufficientPosition (RecordSellParams.amount p)
                    (RecordSellParams.token p) (current_amount position)
                    (id position)),
             mkDb (positions db) (position_flags db ++ [f])
                  (positions_id_seq db) (position_flags_id_seq db + 1)%Z)
          /\ flag_type f = sell_exceeds_position /\ severity f = critical
          /\ position_id f = or_null (Some (id position))
          /\ flag_wallet_id f = RecordSellParams.walletId p).
Proof.
  intros Ha Hp.
  pose proof (recordSell_outcome p now db) as O.
  remember (recordSell p now db) as out eqn:E. clear E.
  split.
  - intro G.
    exists (flag_row (flag_no_position p) (position_flags_id_seq db) now).
    split; [|repeat split].
    destruct O;
      try match goal with H : _ \/ _ |- _ => exfalso; destruct H; lra end;
      try congruence.
    reflexivity.
  - intros position G Hlt.
    exists (flag_row (flag_exceeds p position) (position_flags_id_seq db) now).
    split; [|repeat split].
    sell_cases O position. reflexivity.
Qed.

Lemma rejected_sell_raises_one_critical_flag_witness :
  (0 < 150 /\ 0 <= 1800)
  /\ (getOpenPosition 1 "SOL" db_100 = Some (opened 1 buy_100 10)
      /\ current_amount (opened 1 buy_100 10) < 150)
  /\ exists f,
       recordSell sell_150 20 db_100
       = (Err (InsufficientPosition 150 "SOL" 100 1),
          mkDb (positions db_100) (position_flags db_100 ++ [f])
               (positions_id_seq db_100) (position_flags_id_seq db_100 + 1)%Z)
       /\ flag_type f = sell_exceeds_position /\ severity f = critical
       /\ position_id f = or_null (Some 1%Z)
       /\ flag_wallet_id f = 1%Z.
Proof.
  assert (0 < 150) as Ha by reflexivity.
  assert (0 <= 1800) as Hp by (intro H; discriminate H).
  assert (getOpenPosition 1 "SOL" db_100 = Some (opened 1 buy_100 10)) as G
    by reflexivity.
  assert (current_amount (opened 1 buy_100 10) < 150) as Hlt by reflexivity.
  split; [split; assumption|]. split; [split; assumption|].
  exact (proj2 (rejected_sell_raises_one_critical_flag sell_150 20 db_100 Ha Hp)
               (opened 1 buy_100 10) G Hlt).
Defined.

(* ------------------------------------------------------------------ *)
(** ** Validation of a buy *)

(** C8. recordBuy fails with an invalid-amount error whenever the received
    amount or the spent cost is not strictly positive; the store is then
    exactly as before (nothing written, no flag); and no buy, accepted or
    rejected, adds a flag. *)
Theorem recordBuy_rejects_invalid_amounts p now db :
  (RecordBuyParams.amount p <= 0 \/ RecordBuyParams.cost p <= 0 ->
   exists e, recordBuy p now db = (Err e, db) /\ is_invalid_amount e = true)
  /\ position_flags (snd (recordBuy p now db)) = position_flags db.
Proof.
  pose proof (recordBuy_outcome p now db) as O.
  remember (recordBuy p now db) as out eqn:E. clear E.
  split.
  - intro Hbad. destruct O; try (exfalso; destruct Hbad; lra). eauto.
  - destruct O; reflexivity.
Qed.

Lemma recordBuy_rejects_invalid_amounts_witness :
  (0 <= 0 \/ 1000 <= 0)
  /\ exists e, recordBuy buy_nothing 20 db_100 = (Err e, db_100)
               /\ is_invalid_amount e = true.
Proof.
  assert (RecordBuyParams.amount buy_nothing <= 0
          \/ RecordBuyParams.cost buy_nothing <= 0) as H
    by (left; intro C; discriminate C).
  split; [exact H|].
  exact (proj1 (recordBuy_rejects_invalid_amounts buy_nothing 20 db_100) H).
Defined.

(* ------------------------------------------------------------------ *)
(** ** The advisory flags of an accepted sell *)



(** C10. In a successful recordSell a suspicious_pnl flag of severity warning
    is raised exactly when the realized P&L of the sell is negative while the
    proceeds exceed 1.1 times the cost basis.  The realized P&L being proceeds
    minus cost basis, no sell on a position whose average entry price is
    non-negative meets that test: the flag is then never raised. *)
Theorem suspicious_flag_unreachable p now db res db' :
  recordSell p now db = (Ok res, db') ->
  exists position,
    getOpenPosition (RecordSellParams.walletId p) (RecordSellParams.token p) db
      = Some position
    /\ SellResult.realized_pnl res
       = RecordSellParams.proceeds p - SellResult.cost_basis res
    /\ SellResult.cost_basis res
       = avg_entry_price position * RecordSellParams.amount p
    /\ (SellResult.realized_pnl res < 0
        /\ SellResult.cost_basis res * 1.1 < RecordSellParams.proceeds p ->
        count_flags suspicious_pnl (new_flags db db') = 1%nat)
    /\ (~ (SellResult.realized_pnl res < 0
           /\ SellResult.cost_basis res * 1.1 < RecordSellParams.proceeds p) ->
        count_flags suspicious_pnl (new_flags db db') = 0%nat)
    /\ (forall f, In f (new_flags db db') ->
                  flag_type f = suspicious_pnl -> severity f = warning)
    /\ (0 <= avg_entry_price position ->
        count_flags suspicious_pnl (new_flags db db') = 0%nat).
Proof.
  intro H. apply recordSell_ok in H.
  destruct H as (position & r0 & Ha & Hp & G & Hin & Hopen & Hle & H0 & Hid
                 & -> & ->).
  exists position. rewrite new_flags_advised, count_suspicious_advisory.
  simpl.
  assert (forall c : bool, c = false -> (if c then 1%nat else 0%nat) = 0%nat)
    as Hoff by (now intros c ->).
  split; [assumption|]. split; [reflexivity|]. split; [reflexivity|].
  split; [|split; [|split]].
  - intros [Hneg Hhigh]. apply Qlt_bool_iff in Hneg, Hhigh.
    unfold is_suspicious. now rewrite Hneg, Hhigh.
  - intro Hnot. apply Hoff. unfold is_suspicious.
    apply andb_false_iff.
    destruct (Qlt_bool (RecordSellParams.proceeds p
                        - avg_entry_price position * RecordSellParams.amount p) 0)
      eqn:E1; [|now left].
    destruct (Qlt_bool (avg_entry_price position * RecordSellParams.amount p * 1.1)
                       (RecordSellParams.proceeds p)) eqn:E2; [|now right].
    exfalso. apply Hnot. now split; apply Qlt_bool_iff.
  - intros f Hf _. eapply advisory_warning; eassumption.
  - intro Havg. apply Hoff. unfold is_suspicious.
    apply andb_false_iff.
    destruct (Qlt_bool (RecordSellParams.proceeds p
                        - avg_entry_price position * RecordSellParams.amount p) 0)
      eqn:E1; [|now left].
    right. apply Qlt_bool_false. apply Qlt_bool_iff in E1.
    assert (0 <= avg_entry_price position * RecordSellParams.amount p)
      by (apply Qmult_le_0_compat; [assumption|now apply Qlt_le_weak]).
    lra.
Qed.

Lemma suspicious_flag_unreachable_witness :
  recordSell sell_30 20 db_100
  = (Ok (SellResult.mk
           (sold (opened 1 buy_100 10) 30 360 20 (opened 1 buy_100 10))
           (360 - 1000 / 100 * 30) (1000 / 100 * 30)),
     snd (recordSell sell_30 20 db_100))
  /\ exists position,
       getOpenPosition 1 "SOL" db_100 = Some position
       /\ 360 - 1000 / 100 * 30 = 360 - 1000 / 100 * 30
       /\ 1000 / 100 * 30 = avg_entry_price position * 30
       /\ (360 - 1000 / 100 * 30 < 0 /\ 1000 / 100 * 30 * 1.1 < 360 ->
           count_flags suspicious_pnl
             (new_flags db_100 (snd (recordSell sell_30 20 db_100))) = 1%nat)
       /\ (~ (360 - 1000 / 100 * 30 < 0 /\ 1000 / 100 * 30 * 1.1 < 360) ->
           count_flags suspicious_pnl
             (new_flags db_100 (snd (recordSell sell_30 20 db_100))) = 0%nat)
       /\ (forall f,
             In f (new_flags db_100 (snd (recordSell sell_30 20 db_100))) ->
             flag_type f = suspicious_pnl -> severity f = warning)
       /\ (0 <= avg_entry_price position ->
           count_flags suspicious_pnl
             (new_flags db_100 (snd (recordSell sell_30 20 db_100))) = 0%nat).
Proof.
  assert (recordSell sell_30 20 db_100
          = (Ok (SellResult.mk
                   (sold (opened 1 buy_100 10) 30 360 20 (opened 1 buy_100 10))
                   (360 - 1000 / 100 * 30) (1000 / 100 * 30)),
             snd (recordSell sell_30 20 db_100))) as E
    by (vm_compute; reflexivity).
  split; [exact E|].
  exact (suspicious_flag_unreachable sell_30 20 db_100 _ _ E).
Defined.

(* ------------------------------------------------------------------ *)
(** ** Invariants of a position over any sequence of calls *)







(* ------------------------------------------------------------------ *)
(** ** The worked scenario *)

(** C6. From a store in which the pair has no row: a buy of 100 units for 1000,
    a sell of 30 units for 360 (realized P&L 60) and a sell of 70 units for 770
    (cost basis 700, realized P&L 70) all succeed, and leave the position with
    cumulative realized P&L 130, remaining amount 0, state CLOSED and a close
    timestamp.  In every successful sell the cost basis is the average entry
    price times the sold amount and the realized P&L is the proceeds minus the
    cost basis. *)
Theorem buy_100_sell_30_sell_70 w t db0 trade1 trade2 trade3 now1 now2 now3 :
  wf db0 -> fresh w t db0 ->
  (exists pos1 db1 res2 db2 res3 db3,
     recordBuy (RecordBuyParams.mk w t 100 1000 trade1) now1 db0 = (Ok pos1, db1)
     /\ recordSell (RecordSellParams.mk w t 30 360 trade2) now2 db1
        = (Ok res2, db2)
     /\ recordSell (RecordSellParams.mk w t 70 770 trade3) now3 db2
        = (Ok res3, db3)
     /\ SellResult.realized_pnl res2 == 60
     /\ SellResult.cost_basis res3 == 700
     /\ SellResult.realized_pnl res3 == 70
     /\ realized_pnl (SellResult.position res3) == 130
     /\ current_amount (SellResult.position res3) == 0
     /\ status (SellResult.position res3) = CLOSED
     /\ closed_at (SellResult.position res3) = Some now3
     /\ In (SellResult.position res3) (positions db3)
     /\ getOpenPosition w t db3 = None)
  /\ (forall p now db res db',
        recordSell p now db = (Ok res, db') ->
        exists position,
          getOpenPosition (RecordSellParams.walletId p)
                          (RecordSellParams.token p) db = Some position
          /\ SellResult.cost_basis res
             = avg_entry_price position * RecordSellParams.amount p
          /\ SellResult.realized_pnl res
             = RecordSellParams.proceeds p - SellResult.cost_basis res).
Proof.
  intros W F. split.
  - set (buy := RecordBuyParams.mk w t 100 1000 trade1).
    set (sell1 := RecordSellParams.mk w t 30 360 trade2).
    set (sell2 := RecordSellParams.mk w t 70 770 trade3).
    set (pos1 := opened (positions_id_seq db0) buy now1).
    set (pos2 := sold pos1 30 360 now2 pos1).
    set (pos3 := sold pos2 70 770 now3 pos2).
    assert (recordBuy buy now1 db0
            = (Ok pos1, db_after_buy (positions db0 ++ [pos1])
                                     (positions_id_seq db0 + 1)%Z db0)) as E1
      by (apply recordBuy_opens; [exact W|exact F|reflexivity|reflexivity]).
    set (db1 := db_after_buy (positions db0 ++ [pos1])
                             (positions_id_seq db0 + 1)%Z db0) in *.
    assert (wf db1) as W1.
    { pose proof (wf_call (CallBuy buy now1) db0 W) as H. simpl in H.
      now rewrite E1 in H. }
    assert (open_for w t pos1 = true) as O1
      by (unfold open_for; simpl; now rewrite Z.eqb_refl, String.eqb_refl).
    assert (recordSell sell1 now2 db1
            = (Ok (SellResult.mk pos2 (360 - avg_entry_price pos1 * 30)
                                 (avg_entry_price pos1 * 30)),
               mkDb (positions db0 ++ [pos2])
                    (position_flags (advised sell1 pos1 now2 db1))
                    (positions_id_seq db1)
                    (position_flags_id_seq (advised sell1 pos1 now2 db1))))
      as E2.
    { apply (recordSell_last sell1 now2 db1 (positions db0) pos1);
        try assumption; try reflexivity;
        simpl; intro C; discriminate C. }
    set (db2 := mkDb (positions db0 ++ [pos2])
                     (position_flags (advised sell1 pos1 now2 db1))
                     (positions_id_seq db1)
                     (position_flags_id_seq (advised sell1 pos1 now2 db1))) in *.
    assert (wf db2) as W2.
    { pose proof (wf_call (CallSell sell1 now2) db1 W1) as H. simpl in H.
      now rewrite E2 in H. }
    assert (open_for w t pos2 = true) as O2
      by (unfold open_for; simpl; now rewrite Z.eqb_refl, String.eqb_refl).
    assert (recordSell sell2 now3 db2
            = (Ok (SellResult.mk pos3 (770 - avg_entry_price pos2 * 70)
                                 (avg_entry_price pos2 * 70)),
               mkDb (positions db0 ++ [pos3])
                    (position_flags (advised sell2 pos2 now3 db2))
                    (positions_id_seq db2)
                    (position_flags_id_seq (advised sell2 pos2 now3 db2))))
      as E3.
    { apply (recordSell_last sell2 now3 db2 (positions db0) pos2);
        try assumption; try reflexivity;
        simpl; intro C; discriminate C. }
    eexists _, _, _, _, _, _.
    split; [exact E1|]. split; [exact E2|]. split; [exact E3|].
    simpl. repeat split; try reflexivity.
    + apply in_or_app. right. now left.
    + rewrite getOpenPosition_select. simpl.
      unfold select_open. rewrite filter_app, filter_none.
      * assert (open_for w t pos3 = false) as Hclosed.
        { unfold open_for.
          replace (open_or_partial (status pos3)) with false by reflexivity.
          apply andb_false_r. }
        simpl. now rewrite Hclosed.
      * eapply Forall_impl; [|exact F]. apply not_of_pair_open_for.
  - intros p now db res db' E. apply recordSell_ok in E.
    destruct E as (position & r0 & _ & _ & G & _ & _ & _ & _ & _ & -> & _).
    exists position. simpl. auto.
Qed.

Lemma buy_100_sell_30_sell_70_witness :
  (wf db_other /\ fresh 1 "SOL" db_other)
  /\ (exists pos1 db1 res2 db2 res3 db3,
     recordBuy (RecordBuyParams.mk 1 "SOL" 100 1000 1001) 20 db_other = (Ok pos1, db1)
     /\ recordSell (RecordSellParams.mk 1 "SOL" 30 360 1002) 30 db1
        = (Ok res2, db2)
     /\ recordSell (RecordSellParams.mk 1 "SOL" 70 770 1003) 40 db2
        = (Ok res3, db3)
     /\ SellResult.realized_pnl res2 == 60
     /\ SellResult.cost_basis res3 == 700
     /\ SellResult.realized_pnl res3 == 70
     /\ realized_pnl (SellResult.position res3) == 130
     /\ current_amount (SellResult.position res3) == 0
     /\ status (SellResult.position res3) = CLOSED
     /\ closed_at (SellResult.position res3) = Some 40%Z
     /\ In (SellResult.position res3) (positions db3)
     /\ getOpenPosition 1 "SOL" db3 = None).
Proof.
  split; [split; [exact wf_db_other|exact fresh_db_other]|].
  exact (proj1 (buy_100_sell_30_sell_70 1 "SOL" db_other 1001 1002 1003 20 30 40
                  wf_db_other fresh_db_other)).
Defined.

(* ------------------------------------------------------------------ *)
(** ** What a call's transaction covers *)




(* ------------------------------------------------------------------ *)
(** ** The lookup of the open position *)

(** X1. getOpenPosition hands back a row of the table that belongs to the
    wallet and token asked for, is not CLOSED, and has the earliest first
    entry among such rows; it hands back nothing exactly when every row of
    the pair is CLOSED (in particular when there is none). *)
Theorem getOpenPosition_earliest_open_row w t db :
  (forall r,
     getOpenPosition w t db = Some r ->
     In r (positions db)
     /\ wallet_id r = w /\ token r = t /\ status r <> CLOSED
     /\ forall r', In r' (positions db) -> wallet_id r' = w -> token r' = t ->
                   status r' <> CLOSED ->
                   (first_entry_at r <= first_entry_at r')%Z)
  /\ (getOpenPosition w t db = None
      <-> forall r, In r (positions db) -> wallet_id r = w -> token r = t ->
                    status r = CLOSED).
Proof.
  rewrite getOpenPosition_select. split.
  - intros r H.
    destruct (select_open (positions db) w t) as [|x l] eqn:S; [discriminate|].
    inversion H; subst x.
    destruct (select_open_In _ _ _ _ _ S) as (Hin & Hop & _).
    apply open_for_iff in Hop. destruct Hop as (Hw & Ht & Hs).
    repeat split; try assumption.
    intros r' Hin' Hw' Ht' Hs'.
    unfold select_open in S. eapply earliest_least; [exact S|].
    apply filter_In. split; [assumption|]. now apply open_for_iff.
  - destruct (select_open (positions db) w t) as [|x l] eqn:S.
    + split; [|reflexivity]. intros _ r Hin Hw Ht.
      pose proof (filter_nil_all _ _ (select_open_empty _ _ _ S) r Hin) as F.
      destruct (status r) eqn:E; try reflexivity; exfalso;
        assert (open_for w t r = true)
          by (apply open_for_iff; rewrite E; repeat split; auto; discriminate);
        congruence.
    + split; [discriminate|]. intro H. exfalso.
      destruct (select_open_In _ _ _ _ _ S) as (Hin & Hop & _).
      apply open_for_iff in Hop. destruct Hop as (Hw & Ht & Hs).
      apply Hs. now apply H.
Qed.

Lemma getOpenPosition_earliest_open_row_witness :
  getOpenPosition 1 "SOL" db_100 = Some (opened 1 buy_100 10)
  /\ In (opened 1 buy_100 10) (positions db_100)
  /\ wallet_id (opened 1 buy_100 10) = 1%Z
  /\ token (opened 1 buy_100 10) = "SOL"%string
  /\ status (opened 1 buy_100 10) <> CLOSED
  /\ forall r', In r' (positions db_100) -> wallet_id r' = 1%Z ->
                token r' = "SOL"%string -> status r' <> CLOSED ->
                (first_entry_at (opened 1 buy_100 10) <= first_entry_at r')%Z.
Proof.
  split; [reflexivity|].
  exact (proj1 (getOpenPosition_earliest_open_row 1 "SOL" db_100)
               (opened 1 buy_100 10) eq_refl).
Defined.

(** X2. At most one OPEN-or-PARTIAL position per wallet and token: if a sound
    store has at most one open row for a pair, so has the store after any
    sequence of recordBuy and recordSell calls. *)
Theorem one_open_position_per_pair w t cs db :
  wf db -> (count_open w t db <= 1)%nat ->
  (count_open w t (run cs db) <= 1)%nat.
Proof.
  revert db. induction cs as [|c cs IH]; intros db W H; [exact H|].
  simpl. apply IH; [now apply wf_call|now apply call_count_open].
Qed.

Lemma one_open_position_per_pair_witness :
  (wf db_other /\ (count_open 1 "SOL" db_other <= 1)%nat)
  /\ (count_open 1 "SOL" (run calls_100_30 db_other) <= 1)%nat.
Proof.
  assert (count_open 1 "SOL" db_other <= 1)%nat as H
    by (vm_compute; repeat constructor).
  split; [split; [exact wf_db_other|exact H]|].
  exact (one_open_position_per_pair 1 "SOL" calls_100_30 db_other
           wf_db_other H).
Defined.

(** X3. What a successful recordBuy hands back is what getOpenPosition finds
    for that wallet and token right after it. *)
Theorem recordBuy_then_getOpenPosition p now db pos db' :
  wf db ->
  recordBuy p now db = (Ok pos, db') ->
  getOpenPosition (RecordBuyParams.walletId p) (RecordBuyParams.token p) db'
  = Some pos.
Proof.
  intros W E. apply recordBuy_ok in E.
  destruct E as (Ha & Hc & [(G & -> & ->)
                           |(ex & r0 & G & Hin & Hop & H0 & Hid & -> & ->)]);
    rewrite getOpenPosition_select; simpl.
  - unfold select_open. rewrite filter_app.
    rewrite (getOpenPosition_none_filter _ _ _ G). simpl.
    unfold open_for. simpl. now rewrite Z.eqb_refl, String.eqb_refl.
  - assert (r0 = ex) by (eapply wf_same_row; eauto). subst r0.
    rewrite select_open_update; [|reflexivity|reflexivity].
    rewrite (getOpenPosition_some_select _ _ _ _ G). simpl.
    now rewrite Z.eqb_refl.
Qed.

Lemma recordBuy_then_getOpenPosition_witness :
  (wf db_100
   /\ recordBuy buy_100 20 db_100
      = (Ok (bought (opened 1 buy_100 10) 100 1000 20 (opened 1 buy_100 10)),
         snd (recordBuy buy_100 20 db_100)))
  /\ getOpenPosition 1 "SOL" (snd (recordBuy buy_100 20 db_100))
     = Some (bought (opened 1 buy_100 10) 100 1000 20 (opened 1 buy_100 10)).
Proof.
  assert (wf db_100) as W
    by exact (wf_call (CallBuy buy_100 10) empty_db wf_empty_db).
  assert (recordBuy buy_100 20 db_100
          = (Ok (bought (opened 1 buy_100 10) 100 1000 20 (opened 1 buy_100 10)),
             snd (recordBuy buy_100 20 db_100))) as E
    by (vm_compute; reflexivity).
  split; [split; assumption|].
  exact (recordBuy_then_getOpenPosition buy_100 20 db_100 _ _ W E).
Defined.

(** X4. After a successful recordSell that leaves something of the position,
    getOpenPosition finds the position handed back.  After one that closes
    the only open position of the pair, getOpenPosition finds nothing, and
    every further sell for that wallet and token, whatever its amounts, is
    refused with the no-open-position error and flagged. *)
Theorem recordSell_then_getOpenPosition p now db res db' :
  wf db ->
  recordSell p now db = (Ok res, db') ->
  (status (SellResult.position res) <> CLOSED ->
   getOpenPosition (RecordSellParams.walletId p) (RecordSellParams.token p) db'
   = Some (SellResult.position res))
  /\ (status (SellResult.position res) = CLOSED ->
      (count_open (RecordSellParams.walletId p) (RecordSellParams.token p) db
       <= 1)%nat ->
      getOpenPosition (RecordSellParams.walletId p) (RecordSellParams.token p)
                      db' = None
      /\ forall p2 now2,
           RecordSellParams.walletId p2 = RecordSellParams.walletId p ->
           RecordSellParams.token p2 = RecordSellParams.token p ->
           0 < RecordSellParams.amount p2 ->
           0 <= RecordSellParams.proceeds p2 ->
           recordSell p2 now2 db'
           = (Err (NoOpenPosition (RecordSellParams.amount p2)
                     (RecordSellParams.token p2) (RecordSellParams.walletId p2)),
              flagIssue (flag_no_position p2) now2 db')).
Proof.
  intros W E.
  destruct (recordSell_returns _ _ _ _ _ W E)
    as (_ & _ & prior & G & Hin & Hop & Hres).
  apply recordSell_ok in E.
  destruct E as (pos & r0 & Ha & Hp & G' & _ & Hopen & _ & _ & _ & _ & ->).
  assert (pos = prior) by congruence. subst pos. rewrite Hres.
  split.
  - intro Hn. rewrite getOpenPosition_select. simpl. unfold sold_rows.
    rewrite select_open_update.
    + rewrite (getOpenPosition_some_select _ _ _ _ G). simpl.
      now rewrite Z.eqb_refl.
    + reflexivity.
    + intros r Hr Hid.
      assert (r = prior) by (eapply wf_same_row; eauto). subst r.
      now apply sold_open_for.
  - intros Hc Hone.
    assert (getOpenPosition (RecordSellParams.walletId p)
              (RecordSellParams.token p)
              (mkDb (sold_rows p prior now db)
                    (position_flags (advised p prior now db))
                    (positions_id_seq db)
                    (position_flags_id_seq (advised p prior now db))) = None)
      as Gnone.
    { apply getOpenPosition_filter_none. simpl. apply filter_none.
      apply Forall_forall. intros x Hx. unfold sold_rows in Hx.
      apply update_where_id_In in Hx.
      destruct Hx as (r & Hr & [[Hid ->]|[Hid ->]]).
      - assert (r = prior) by (eapply wf_same_row; eauto). subst r.
        unfold open_for. rewrite Hc. apply andb_false_r.
      - destruct (open_for (RecordSellParams.walletId p)
                           (RecordSellParams.token p) r) eqn:Hr'; [|reflexivity].
        exfalso. apply Hid. f_equal.
        apply (length_le_1_same _ r prior Hone); apply filter_In; auto. }
    split; [exact Gnone|].
    intros p2 now2 Hw Ht Ha2 Hp2.
    apply recordSell_no_position; try assumption.
    rewrite Hw, Ht. exact Gnone.
Qed.

Lemma recordSell_then_getOpenPosition_witness :
  (wf db_100
   /\ recordSell sell_30 20 db_100
      = (Ok (SellResult.mk
               (sold (opened 1 buy_100 10) 30 360 20 (opened 1 buy_100 10))
               (360 - 1000 / 100 * 30) (1000 / 100 * 30)),
         snd (recordSell sell_30 20 db_100)))
  /\ (PARTIAL <> CLOSED
      /\ getOpenPosition 1 "SOL" (snd (recordSell sell_30 20 db_100))
         = Some (sold (opened 1 buy_100 10) 30 360 20 (opened 1 buy_100 10))).
Proof.
  assert (wf db_100) as W
    by exact (wf_call (CallBuy buy_100 10) empty_db wf_empty_db).
  assert (recordSell sell_30 20 db_100
          = (Ok (SellResult.mk
                   (sold (opened 1 buy_100 10) 30 360 20 (opened 1 buy_100 10))
                   (360 - 1000 / 100 * 30) (1000 / 100 * 30)),
             snd (recordSell sell_30 20 db_100))) as E
    by (vm_compute; reflexivity).
  assert (PARTIAL <> CLOSED) as N by discriminate.
  split; [split; assumption|]. split; [exact N|].
  exact (proj1 (recordSell_then_getOpenPosition sell_30 20 db_100 _ _ W E) N).
Defined.



(** X6. The UNIQUE(wallet_id, token, status) constraint covers CLOSED rows.
    On a sound store that already holds a CLOSED position of the wallet and
    token, a valid sell of the whole remaining amount of the open position is
    refused by the store: the call fails with the constraint error, and the
    store, flags included, is exactly as before. *)
Theorem closing_sell_refused_after_earlier_close p now db position c :
  wf db ->
  In c (positions db) ->
  wallet_id c = RecordSellParams.walletId p ->
  token c = RecordSellParams.token p ->
  status c = CLOSED ->
  getOpenPosition (RecordSellParams.walletId p) (RecordSellParams.token p) db
    = Some position ->
  0 < RecordSellParams.amount p -> 0 <= RecordSellParams.proceeds p ->
  RecordSellParams.amount p == current_amount position ->
  recordSell p now db = (Err UniqueViolation, db).
Proof.
  intros W Hc Hw Ht Hs G Ha Hp Hall.
  pose proof (getOpenPosition_some_select _ _ _ _ G) as S.
  destruct (select_open_In _ _ _ _ _ S) as (Hin & Hop & _).
  apply open_for_iff in Hop. destruct Hop as (Hw' & Ht' & Hs').
  assert (id c <> id position) as Hne.
  { intro E. assert (c = position) by (eapply wf_same_row; eauto).
    subst c. contradiction. }
  assert (update_violates (sold_rows p position now db) (id position) = true)
    as V.
  { apply (update_violates_found _ _
             (sold position (RecordSellParams.amount p)
                   (RecordSellParams.proceeds p) now position) c).
    - unfold sold_rows, update_where_id. apply in_map_iff. exists position.
      now rewrite Z.eqb_refl.
    - reflexivity.
    - unfold sold_rows, update_where_id. apply in_map_iff. exists c.
      split; [|assumption].
      destruct (id c =? id position)%Z eqn:E; [|reflexivity].
      apply Z.eqb_eq in E. contradiction.
    - assumption.
    - unfold same_key, sold, sell_status. simpl.
      rewrite Hw, Ht, Hw', Ht', Hs, Z.eqb_refl, String.eqb_refl.
      assert (Qeq_bool (current_amount position - RecordSellParams.amount p) 0
              = true) as -> by (apply Qeq_bool_iff; lra).
      reflexivity. }
  pose proof (recordSell_outcome p now db) as O.
  remember (recordSell p now db) as out eqn:E. clear E.
  sell_cases O position.
Qed.

Lemma closing_sell_refused_after_earlier_close_witness :
  (wf db_reopened
   /\ In (sold (sold (opened 1 buy_100 10) 30 360 20 (opened 1 buy_100 10))
               70 770 30
               (sold (opened 1 buy_100 10) 30 360 20 (opened 1 buy_100 10)))
         (positions db_reopened)
   /\ getOpenPosition 1 "SOL" db_reopened = Some (opened 2 buy_100 40)
   /\ 0 < 100 /\ 0 <= 1100
   /\ 100 == current_amount (opened 2 buy_100 40))
  /\ recordSell sell_100 50 db_reopened = (Err UniqueViolation, db_reopened).
Proof.
  assert (In (sold (sold (opened 1 buy_100 10) 30 360 20 (opened 1 buy_100 10))
                   70 770 30
                   (sold (opened 1 buy_100 10) 30 360 20 (opened 1 buy_100 10)))
             (positions db_reopened)) as Hin
    by (vm_compute; left; reflexivity).
  assert (getOpenPosition 1 "SOL" db_reopened = Some (opened 2 buy_100 40))
    as G by (vm_compute; reflexivity).
  assert (0 < 100) as Ha by reflexivity.
  assert (0 <= 1100) as Hp by (intro C; discriminate C).
  assert (100 == current_amount (opened 2 buy_100 40)) as Hall by reflexivity.
  split; [exact (conj wf_db_reopened
                      (conj Hin (conj G (conj Ha (conj Hp Hall)))))|].
  exact (closing_sell_refused_after_earlier_close sell_100 50 db_reopened
           (opened 2 buy_100 40) _ wf_db_reopened Hin eq_refl eq_refl eq_refl
           G Ha Hp Hall).
Defined.

(* ------------------------------------------------------------------ *)
(** ** What the calls never do *)

(** X7. The tracker only ever appends to the table of flags: after any
    sequence of calls the flags present before are still there, unchanged and
    in place, every added flag is unresolved, and flag ids stay distinct and
    below the sequence. *)
Theorem flags_are_only_appended cs db :
  exists fs,
    position_flags (run cs db) = position_flags db ++ fs
    /\ Forall (fun f => resolved f = false) fs
    /\ (wf_flags db -> wf_flags (run cs db)).
Proof.
  revert db. induction cs as [|c cs IH]; intro db.
  - exists []. simpl. rewrite app_nil_r. auto.
  - simpl. destruct (call_flags c db) as (fs1 & E1 & U1 & W1).
    destruct (IH (call c db)) as (fs2 & E2 & U2 & W2).
    exists (fs1 ++ fs2). rewrite E2, E1, app_assoc.
    split; [reflexivity|]. split; [now apply Forall_app|auto].
Qed.

Lemma flags_are_only_appended_witness :
  wf_flags db_100
  /\ exists fs,
       position_flags (run [CallSell sell_150 20; CallSell sell_30 30] db_100)
       = position_flags db_100 ++ fs
       /\ Forall (fun f => resolved f = false) fs
       /\ wf_flags (run [CallSell sell_150 20; CallSell sell_30 30] db_100).
Proof.
  assert (wf_flags db_100) as W by (split; simpl; constructor).
  split; [exact W|].
  destruct (flags_are_only_appended [CallSell sell_150 20; CallSell sell_30 30]
              db_100) as (fs & E & U & Wf).
  exists fs. exact (conj E (conj U (Wf W))).
Defined.

(** X8. No call deletes a position or hands it to another wallet or token:
    after any sequence of calls on a sound store every row present before is
    still found under its id, with the same wallet, token, entry trade, entry
    timestamps and creation time, and with cumulative entry amount, entry
    cost, exit amount and exit proceeds that have not decreased. *)
Theorem rows_persist_and_totals_grow cs db r :
  wf db -> In r (positions db) ->
  exists r', row_of (id r) (run cs db) = Some r' /\ evolves r r'.
Proof.
  revert db r. induction cs as [|c cs IH]; intros db r W Hin.
  - exists r. split; [now apply wf_row_of|apply evolves_refl].
  - simpl.
    destruct (call_row_step c db r W Hin) as (r1 & Hin1 & Hid1 & Hstep).
    destruct (IH (call c db) r1 (wf_call c db W) Hin1) as (r' & Hrow & Hev).
    exists r'. rewrite <- Hid1. split; [assumption|].
    eapply evolves_trans; [|exact Hev]. now apply row_step_evolves.
Qed.

Lemma rows_persist_and_totals_grow_witness :
  (wf db_100 /\ In (opened 1 buy_100 10) (positions db_100))
  /\ exists r',
       row_of 1 (run [CallSell sell_30 20; CallBuy buy_100 30] db_100) = Some r'
       /\ evolves (opened 1 buy_100 10) r'.
Proof.
  assert (In (opened 1 buy_100 10) (positions db_100)) as Hin
    by (left; reflexivity).
  split; [split; [exact wf_db_100|exact Hin]|].
  exact (rows_persist_and_totals_grow [CallSell sell_30 20; CallBuy buy_100 30]
           db_100 (opened 1 buy_100 10) wf_db_100 Hin).
Defined.

(* ------------------------------------------------------------------ *)
(** ** Averages and realized P&L *)





(* ------------------------------------------------------------------ *)
(** ** handleTradeExecution *)



(* ------------------------------------------------------------------ *)
(** ** The webhook *)

(** X12. What parseWebhook accepts is normalised: the symbol is one of the
    four valid symbols and the action is BUY or SELL, both as toUpperCase
    gives them; the timeframe is a non-empty string and the price is truthy
    ("0" when the body has none).  If toUpperCase leaves BUY, SELL and the
    four symbols as they are, parsing the accepted data again gives them
    back. *)
Theorem parseWebhook_normalises up body data :
  Webhook.parseWebhook up body = Webhook.ParseOk data ->
  In (Webhook.symbol data) Webhook.validSymbols
  /\ In (Webhook.action data) ["BUY"; "SELL"]%string
  /\ Webhook.timeframe data <> ""%string
  /\ Webhook.truthy (Webhook.price data) = true
  /\ ((forall s, In s ("BUY" :: "SELL" :: Webhook.validSymbols)%string
                 -> up s = s) ->
      Webhook.parseWebhook up (Webhook.to_body data) = Webhook.ParseOk data).
Proof.
  intro E. apply parseWebhook_ok in E.
  destruct E as (props & symbol & action & -> & _ & _ & _ & _ & _ & T & _ & _
                 & IS & IA & P).
  assert (Webhook.truthy (Webhook.price data) = true) as TP.
  { rewrite P.
    destruct (Webhook.truthy (Webhook.get (Webhook.JsObject props) "price"))
      eqn:Q; [assumption|reflexivity]. }
  repeat split; try assumption.
  intro U.
  set (body := Webhook.to_body data).
  assert (Webhook.get body "symbol" = Webhook.JsString (Webhook.symbol data))
    as Gs by reflexivity.
  assert (Webhook.get body "action" = Webhook.JsString (Webhook.action data))
    as Ga by reflexivity.
  assert (Webhook.get body "timeframe"
          = Webhook.JsString (Webhook.timeframe data)) as Gt by reflexivity.
  assert (Webhook.get body "price" = Webhook.price data) as Gp by reflexivity.
  unfold Webhook.parseWebhook.
  change (negb (Webhook.truthy body) || negb (Webhook.is_object body))
    with false.
  cbv iota. rewrite Gs, Ga, Gt, Gp.
  rewrite !nonempty_string_string; try assumption.
  - rewrite !U by (simpl; simpl in IS, IA; tauto).
    replace (negb (Webhook.action data =? "BUY")%string
             && negb (Webhook.action data =? "SELL")%string) with false.
    2:{ symmetry. destruct IA as [<-|[<-|[]]]; reflexivity. }
    rewrite (proj2 (existsb_eqb_In _ _) IS).
    simpl. rewrite TP. now destruct data.
  - apply (In_nonempty _ _ IA). simpl. intuition discriminate.
  - apply (In_nonempty _ _ IS). simpl. intuition discriminate.
Qed.

Lemma parseWebhook_normalises_witness :
  Webhook.parseWebhook Webhook.upper Webhook.alert_buy_sol
  = Webhook.ParseOk Webhook.webhook_buy_sol
  /\ (forall s, In s ("BUY" :: "SELL" :: Webhook.validSymbols)%string
                -> Webhook.upper s = s)
  /\ In "SOLUSD"%string Webhook.validSymbols
  /\ Webhook.parseWebhook Webhook.upper
        (Webhook.to_body Webhook.webhook_buy_sol)
      = Webhook.ParseOk Webhook.webhook_buy_sol.
Proof.
  assert (forall s, In s ("BUY" :: "SELL" :: Webhook.validSymbols)%string
                    -> Webhook.upper s = s) as U.
  { simpl. intros s [<-|[<-|[<-|[<-|[<-|[<-|[]]]]]]]; reflexivity. }
  pose proof (parseWebhook_normalises Webhook.upper Webhook.alert_buy_sol
                Webhook.webhook_buy_sol eq_refl) as (S & _ & _ & _ & R).
  split; [reflexivity|]. split; [exact U|]. split; [exact S|exact (R U)].
Defined.

(** X13. A trade that routes spends and receives tokens of the table TOKENS,
    so that getMintAddress gave both mints, and they differ; one of the two
    tokens is SOL; the keypair is the one derived for the wallet type, and
    the wallet id is that of a row of [wallets] with the name of that type.
    (toUpperCase is taken to leave the five symbols of the table as they
    are.) *)
Theorem routeToWallet_tokens_are_listed {Keypair} up
    (gw : Webhook.WalletType -> string + Keypair)
    wallets symbol action timeframe route :
  (forall k, In k (map fst Tokens.TOKENS) -> up k = k) ->
  Webhook.routeToWallet up gw wallets symbol action timeframe
    = Webhook.RouteOk route ->
  (exists tin tout,
     Tokens.own_property (Webhook.inputToken route) Tokens.TOKENS = Some tin
     /\ Webhook.inputMint route = Some (Tokens.mint tin)
     /\ Tokens.own_property (Webhook.outputToken route) Tokens.TOKENS
        = Some tout
     /\ Webhook.outputMint route = Some (Tokens.mint tout)
     /\ Tokens.mint tin <> Tokens.mint tout)
  /\ (Webhook.inputToken route = "SOL"%string
      \/ Webhook.outputToken route = "SOL"%string)
  /\ gw (Webhook.walletType route) = inr (Webhook.wallet route)
  /\ exists row,
       In row wallets
       /\ Webhook.wallet_name row
          = Webhook.walletNameMap (Webhook.walletType route)
       /\ Webhook.walletId route = Webhook.wallet_row_id row.
Proof.
  intros U E. apply routeToWallet_ok in E.
  destruct E as (R & G & I & O & row & rest & F & Hid).
  destruct (route_tokens_listed _ _ _ _ _ _ R) as (Hi & Ho & Hne & Hsol).
  destruct (getMintAddress_listed up _ U Hi) as (tin & Pi & Ei).
  destruct (getMintAddress_listed up _ U Ho) as (tout & Po & Eo).
  rewrite Ei in I. rewrite Eo in O.
  injection I as I. injection O as O.
  split; [|split; [assumption|split; [assumption|]]].
  - exists tin, tout. repeat split; try assumption; try congruence.
    exact (listed_mints_differ _ _ _ _ Hi Ho Hne Pi Po).
  - exists row.
    assert (In row (filter (fun row => String.eqb (Webhook.wallet_name row)
                              (Webhook.walletNameMap
                                 (Webhook.walletType route))) wallets)) as Hin
      by (rewrite F; now left).
    apply filter_In in Hin. destruct Hin as [Hin E].
    apply String.eqb_eq in E. now repeat split.
Qed.

Lemma routeToWallet_tokens_are_listed_witness :
  (forall k, In k (map fst Tokens.TOKENS) -> Webhook.upper k = k)
  /\ Webhook.routeToWallet Webhook.upper Webhook.keys Webhook.initial_wallets
        "SOLUSD" "BUY" "30"
      = Webhook.RouteOk Webhook.route_buy_sol
  /\ (exists tin tout,
        Tokens.own_property "USDC" Tokens.TOKENS = Some tin
        /\ Webhook.inputMint Webhook.route_buy_sol = Some (Tokens.mint tin)
        /\ Tokens.own_property "SOL" Tokens.TOKENS = Some tout
        /\ Webhook.outputMint Webhook.route_buy_sol = Some (Tokens.mint tout)
        /\ Tokens.mint tin <> Tokens.mint tout).
Proof.
  split; [exact upper_fixes_tokens|]. split; [reflexivity|].
  exact (proj1 (routeToWallet_tokens_are_listed Webhook.upper Webhook.keys
                  Webhook.initial_wallets "SOLUSD" "BUY" "30"
                  Webhook.route_buy_sol upper_fixes_tokens eq_refl)).
Defined.

(** X14. With keys that derive and the six wallets in the table, an alert
    that parseWebhook accepted fails to route in one case only: a SOLUSD alert
    whose timeframe is not 30, 60 or 240.  The token lookups of routeToWallet
    never throw, and for the three meme coins any timeframe routes. *)
Theorem parsed_webhook_routes_unless_bad_timeframe {Keypair} up
    (gw : Webhook.WalletType -> string + Keypair) wallets body data :
  (forall k, In k (map fst Tokens.TOKENS) -> up k = k) ->
  (forall wt, exists w, gw wt = inr w) ->
  (forall wt, exists row,
      In row wallets /\ Webhook.wallet_name row = Webhook.walletNameMap wt) ->
  Webhook.parseWebhook up body = Webhook.ParseOk data ->
  ((exists error,
      Webhook.routeToWallet up gw wallets (Webhook.symbol data)
        (Webhook.action data) (Webhook.timeframe data)
      = Webhook.RouteFail error)
   <-> (Webhook.symbol data = "SOLUSD"%string
        /\ ~ In (Webhook.timeframe data) ["30"; "60"; "240"]%string)).
Proof.
  intros U G W P. apply parseWebhook_ok in P.
  destruct P as (_ & _ & _ & _ & _ & _ & _ & _ & _ & _ & _ & _ & IS & _).
  split.
  - intros (error & E). apply (routeToWallet_fail up gw) in E; [|assumption].
    destruct E as [E|(wt & i & o & _ & [E|(_ & _ & N)])].
    + apply route_tokens_err in E. destruct E as [(S & T & _)|(N & _)].
      * now split.
      * contradiction.
    + destruct (G wt) as (w & Gw). congruence.
    + destruct (W wt) as (row & Hin & Hn). destruct (N row Hin Hn).
  - intros (S & T). eexists. unfold Webhook.routeToWallet.
    rewrite S, (route_tokens_bad_timeframe _ _ T). reflexivity.
Qed.

Lemma parsed_webhook_routes_unless_bad_timeframe_witness :
  (forall k, In k (map fst Tokens.TOKENS) -> Webhook.upper k = k)
  /\ (forall wt, exists w, Webhook.keys wt = inr w)
  /\ (forall wt, exists row,
         In row Webhook.initial_wallets
         /\ Webhook.wallet_name row = Webhook.walletNameMap wt)
  /\ Webhook.parseWebhook Webhook.upper Webhook.alert_buy_sol_15
      = Webhook.ParseOk Webhook.webhook_buy_sol_15
  /\ ((exists error,
         Webhook.routeToWallet Webhook.upper Webhook.keys
           Webhook.initial_wallets "SOLUSD" "BUY" "15"
         = Webhook.RouteFail error)
      <-> ("SOLUSD"%string = "SOLUSD"%string
           /\ ~ In "15"%string ["30"; "60"; "240"]%string)).
Proof.
  assert (forall wt, exists w, Webhook.keys wt = inr w) as G
    by (intro wt; exists wt; reflexivity).
  split; [exact upper_fixes_tokens|]. split; [exact G|].
  split; [exact initial_wallets_complete|]. split; [reflexivity|].
  exact (parsed_webhook_routes_unless_bad_timeframe Webhook.upper Webhook.keys
           Webhook.initial_wallets Webhook.alert_buy_sol_15
           Webhook.webhook_buy_sol_15 upper_fixes_tokens G
           initial_wallets_complete eq_refl).
Defined.

(** X15. The BUY and the SELL of one symbol and timeframe route to the same
    wallet, with the two tokens and the two mints swapped.  So the pair
    (walletId, outputToken) under which Step 11 records the buy is the pair
    (walletId, inputToken) under which it records the sell, and the token of
    the position is SOL for SOLUSD and the symbol itself for a meme coin. *)
Theorem buy_and_sell_route_to_one_position {Keypair} up
    (gw : Webhook.WalletType -> string + Keypair)
    wallets symbol timeframe buy sell :
  Webhook.routeToWallet up gw wallets symbol "BUY" timeframe
    = Webhook.RouteOk buy ->
  Webhook.routeToWallet up gw wallets symbol "SELL" timeframe
    = Webhook.RouteOk sell ->
  Webhook.walletId buy = Webhook.walletId sell
  /\ Webhook.walletType buy = Webhook.walletType sell
  /\ Webhook.wallet buy = Webhook.wallet sell
  /\ Webhook.outputToken buy = Webhook.inputToken sell
  /\ Webhook.inputToken buy = Webhook.outputToken sell
  /\ Webhook.outputMint buy = Webhook.inputMint sell
  /\ Webhook.inputMint buy = Webhook.outputMint sell
  /\ Webhook.outputToken buy
     = (if String.eqb symbol "SOLUSD" then "SOL"%string else symbol).
Proof.
  intros B S. apply routeToWallet_ok in B, S.
  destruct B as (Rb & Gb & Ib & Ob & rowb & restb & Fb & Hb).
  destruct S as (Rs & Gs & Is & Os & rows & rests & Fs & Hs).
  destruct (route_tokens_buy_sell _ _ _ _ _ _ _ _ Rb Rs)
    as (Hwt & Ho & Hi & Hp).
  rewrite <- Hwt in Gs, Fs. rewrite <- Ho in Is. rewrite <- Hi in Os.
  rewrite Fb in Fs. injection Fs as <- _.
  repeat split; try assumption; congruence.
Qed.

Lemma buy_and_sell_route_to_one_position_witness :
  Webhook.routeToWallet Webhook.upper Webhook.keys Webhook.initial_wallets
    "SOLUSD" "BUY" "30" = Webhook.RouteOk Webhook.route_buy_sol
  /\ Webhook.routeToWallet Webhook.upper Webhook.keys Webhook.initial_wallets
        "SOLUSD" "SELL" "30" = Webhook.RouteOk Webhook.route_sell_sol
  /\ Webhook.walletId Webhook.route_buy_sol
      = Webhook.walletId Webhook.route_sell_sol
  /\ Webhook.outputToken Webhook.route_buy_sol
      = Webhook.inputToken Webhook.route_sell_sol.
Proof.
  pose proof (buy_and_sell_route_to_one_position Webhook.upper Webhook.keys
                Webhook.initial_wallets "SOLUSD" "30" Webhook.route_buy_sol
                Webhook.route_sell_sol eq_refl eq_refl)
    as (W & _ & _ & T & _).
  split; [reflexivity|]. split; [reflexivity|]. split; [exact W|exact T].
Defined.

(** X16. Routing agrees with the rows schema.sql puts into [wallets]: the
    wallet a trade is routed to is the seeded row whose name is that of the
    wallet type; a BUY spends its base_token and receives its quote_token, a
    SELL the other way round; and its timeframe column holds the timeframe of
    a SOLUSD alert, and is NULL for a meme coin. *)
Theorem routes_agree_with_the_seeded_wallets {Keypair} up
    (gw : Webhook.WalletType -> string + Keypair)
    symbol action timeframe route :
  Webhook.routeToWallet up gw Webhook.initial_wallets symbol action timeframe
    = Webhook.RouteOk route ->
  exists row,
    In row Webhook.initial_wallets
    /\ Webhook.walletId route = Webhook.wallet_row_id row
    /\ Webhook.wallet_name row
       = Webhook.walletNameMap (Webhook.walletType route)
    /\ (Webhook.inputToken route, Webhook.outputToken route)
       = (if String.eqb action "BUY"
          then (Webhook.base_token row, Webhook.quote_token row)
          else (Webhook.quote_token row, Webhook.base_token row))
    /\ Webhook.wallet_timeframe row
       = (if String.eqb symbol "SOLUSD" then Some timeframe else None).
Proof.
  intro E. apply routeToWallet_ok in E.
  destruct E as (R & _ & _ & _ & row & rest & F & Hid).
  destruct route as [wt w wid i o im om]. simpl in *.
  apply route_tokens_ok in R. exists row.
  destruct R as [(-> & T & E)|(S & E)].
  - destruct T as [[-> ->]|[[-> ->]|[-> ->]]];
      simpl in F; injection F as <- _;
      destruct (String.eqb action "BUY"); injection E as -> ->;
      simpl; intuition.
  - destruct S as [[-> ->]|[[-> ->]|[-> ->]]];
      simpl in F; injection F as <- _;
      destruct (String.eqb action "BUY"); injection E as -> ->;
      simpl; intuition.
Qed.

Lemma routes_agree_with_the_seeded_wallets_witness :
  Webhook.routeToWallet Webhook.upper Webhook.keys Webhook.initial_wallets
    "FARTBOY" "SELL" "60" = Webhook.RouteOk Webhook.route_sell_fartboy
  /\ exists row,
       In row Webhook.initial_wallets
       /\ Webhook.walletId Webhook.route_sell_fartboy
          = Webhook.wallet_row_id row
       /\ Webhook.wallet_name row = "FARTBOY"%string
       /\ ("FARTBOY"%string, "SOL"%string)
          = (Webhook.quote_token row, Webhook.base_token row)
       /\ Webhook.wallet_timeframe row = None.
Proof.
  split; [reflexivity|].
  exact (routes_agree_with_the_seeded_wallets Webhook.upper Webhook.keys
           "FARTBOY" "SELL" "60" Webhook.route_sell_fartboy eq_refl).
Defined.



(** X18. For a route of routeToWallet and a balance that preValidate let
    through, calculateAmounts fails in one case only: the input token is SOL
    and the balance is exactly MIN_GAS_RESERVE.  Otherwise it gives the amount
    and a raw amount that is a number: reading the decimals never throws. *)
Theorem validated_route_has_an_amount {Keypair} up
    (gw : Webhook.WalletType -> string + Keypair) wallets symbol action
    timeframe route (address : Keypair -> string) sol tok db balance :
  Webhook.routeToWallet up gw wallets symbol action timeframe
    = Webhook.RouteOk route ->
  Webhook.preValidate address sol tok db route action
    = Webhook.ValidOk balance ->
  (Webhook.inputToken route = "SOL"%string
   /\ balance == Webhook.MIN_GAS_RESERVE
   /\ Webhook.calculateAmounts route action balance
      = Webhook.AmountsFail "No funds available to trade after gas reserve")
  \/ (exists units,
        Webhook.calculateAmounts route action balance
        = Webhook.AmountsOk
            (if String.eqb (Webhook.inputToken route) "SOL"
             then balance - Webhook.MIN_GAS_RESERVE else balance)
            (Some units) (Webhook.outputToken route)).
Proof.
  intros R V. apply routeToWallet_ok in R. destruct R as (R & _).
  apply route_tokens_listed in R. destruct R as (Hi & _).
  destruct (lookup_listed _ Hi) as (token & _ & K & _).
  apply preValidate_ok in V. destruct V as (B & _).
  unfold Webhook.calculateAmounts. rewrite K.
  set (amount := if String.eqb action "BUY" then _ else _).
  assert (amount = if String.eqb (Webhook.inputToken route) "SOL"
                   then Webhook.Math_max 0 (balance - Webhook.MIN_GAS_RESERVE)
                   else balance) as EA
    by (unfold amount; now destruct (String.eqb action "BUY")).
  clearbody amount. subst amount.
  destruct (String.eqb_spec (Webhook.inputToken route) "SOL") as [S|S].
  - unfold Webhook.Math_max.
    destruct (Qle_bool 0 (balance - Webhook.MIN_GAS_RESERVE)) eqn:M.
    + destruct (Qle_bool (balance - Webhook.MIN_GAS_RESERVE) 0) eqn:L.
      * left. apply Qle_bool_iff in L. repeat split; [assumption|lra].
      * right. eexists. reflexivity.
    + apply Qle_bool_false in M. exfalso. lra.
  - right.
    destruct (Qle_bool balance 0) eqn:L.
    + apply Qle_bool_iff in L. exfalso.
      unfold Webhook.MIN_OUTPUT_AMOUNT in B. lra.
    + eexists. reflexivity.
Qed.

Lemma validated_route_has_an_amount_witness :
  Webhook.routeToWallet Webhook.upper Webhook.keys Webhook.initial_wallets
    "SOLUSD" "SELL" "30" = Webhook.RouteOk Webhook.route_sell_sol
  /\ Webhook.preValidate Webhook.walletNameMap Webhook.sol_balance
        Webhook.token_accounts db_100 Webhook.route_sell_sol "SELL"
      = Webhook.ValidOk (2000000000 / 1000000000)
  /\ ((Webhook.inputToken Webhook.route_sell_sol = "SOL"%string
       /\ 2000000000 / 1000000000 == Webhook.MIN_GAS_RESERVE
       /\ Webhook.calculateAmounts Webhook.route_sell_sol "SELL"
            (2000000000 / 1000000000)
          = Webhook.AmountsFail
              "No funds available to trade after gas reserve")
      \/ (exists units,
            Webhook.calculateAmounts Webhook.route_sell_sol "SELL"
              (2000000000 / 1000000000)
            = Webhook.AmountsOk
                (2000000000 / 1000000000 - Webhook.MIN_GAS_RESERVE)
                (Some units) "USDC")).
Proof.
  split; [reflexivity|]. split; [reflexivity|].
  exact (validated_route_has_an_amount Webhook.upper Webhook.keys
           Webhook.initial_wallets "SOLUSD" "SELL" "30" Webhook.route_sell_sol
           Webhook.walletNameMap Webhook.sol_balance Webhook.token_accounts
           db_100 (2000000000 / 1000000000) eq_refl eq_refl).
Defined.

(** X19. preValidate and recordSell look up the same position.  If
    preValidate let a SELL through, then recordSell for the route's wallet and
    input token, run on the same tables, never throws for want of an open
    position, whatever the amounts; and Step 11 of the webhook adds no
    sell_without_position flag.  (The amount is not checked beforehand: the
    sell can still exceed the position.) *)
Theorem validated_sell_is_never_without_position {Keypair}
    (address : Keypair -> string) sol tok db (route : Webhook.RouteInfo Keypair)
    balance inputAmount outputAmount tradeId now :
  Webhook.preValidate address sol tok db route "SELL"
    = Webhook.ValidOk balance ->
  (forall a t w,
      fst (recordSell (RecordSellParams.mk (Webhook.walletId route)
                         (Webhook.inputToken route) inputAmount outputAmount
                         tradeId) now db)
      <> Err (NoOpenPosition a t w))
  /\ (forall f,
        In f (position_flags
                (Webhook.track_position route "SELL" inputAmount outputAmount
                                        tradeId now db)) ->
        flag_type f = sell_without_position ->
        In f (position_flags db)).
Proof.
  intro V. apply preValidate_ok in V. destruct V as (_ & V).
  destruct (V eq_refl) as (position & G). clear V.
  unfold Webhook.track_position.
  change (String.eqb "SELL" "BUY") with false. cbv iota.
  set (p := RecordSellParams.mk _ _ _ _ _).
  pose proof (recordSell_outcome p now db) as O.
  remember (recordSell p now db) as out eqn:E. clear E.
  destruct O; cbn [fst snd].
  - split; [|tauto]. intros a t w [= ->]. discriminate.
  - unfold p in *. simpl in *. congruence.
  - split; [discriminate|]. intros f Hin T.
    rewrite flagIssue_eq in Hin. simpl in Hin.
    apply in_app_or in Hin. destruct Hin as [Hin|[<-|[]]]; [assumption|].
    discriminate T.
  - split; [discriminate|tauto].
  - split; [discriminate|]. intros f Hin T.
    rewrite advised_flags in Hin.
    apply in_app_or in Hin. destruct Hin as [Hin|Hin]; [assumption|].
    apply advisory_types in Hin. destruct Hin as [K|K]; congruence.
Qed.

Lemma validated_sell_is_never_without_position_witness :
  Webhook.preValidate Webhook.walletNameMap Webhook.sol_balance
    Webhook.token_accounts db_100 Webhook.route_sell_sol "SELL"
  = Webhook.ValidOk (2000000000 / 1000000000)
  /\ fst (recordSell (RecordSellParams.mk 1 "SOL" 150 1800 1004) 20 db_100)
     <> Err (NoOpenPosition 150 "SOL" 1)
  /\ fst (recordSell (RecordSellParams.mk 1 "SOL" 150 1800 1004) 20 db_100)
     = Err (InsufficientPosition 150 "SOL" 100 1).
Proof.
  split; [reflexivity|]. split; [|reflexivity].
  exact (proj1 (validated_sell_is_never_without_position Webhook.walletNameMap
                  Webhook.sol_balance Webhook.token_accounts db_100
                  Webhook.route_sell_sol (2000000000 / 1000000000)
                  150 1800 1004 20 eq_refl) 150 "SOL"%string 1%Z).
Defined.



(* ------------------------------------------------------------------ *)
(** ** The oversized check, and the set-up of the tests *)





(* ------------------------------------------------------------------ *)
(** ** The statements of the webhook on [trades] and [balance_checks] *)

(** X23. The UPDATE that updateTradeStatus builds is well numbered: the
    parameters of its assignments are $2, $3, ... in the order of the values,
    $1 being the trade id and $2 the status; no column is assigned twice;
    each parameter stands where the value of its column's field of [data]
    lies; and execution_timestamp = NOW() is set only together with the
    signature. *)
Theorem updateTradeStatus_numbers_its_parameters stringify tradeId status data :
  let '(updates, values) :=
    Webhook.updateTradeStatus stringify tradeId status data in
  Webhook.params_of updates = seq 2 (List.length values - 1)
  /\ firstn 2 values = [Webhook.SqlId tradeId; Webhook.SqlText status]
  /\ hd_error updates = Some (Webhook.Assign "status" 2)
  /\ NoDup (map Webhook.column_of updates)
  /\ (forall column k,
        In (Webhook.Assign column k) updates -> column <> "status"%string ->
        nth_error values (k - 1)
        = Webhook.column_value stringify data column
        /\ Webhook.column_value stringify data column <> None)
  /\ (forall column,
        In (Webhook.AssignNow column) updates ->
        column = "execution_timestamp"%string
        /\ In "signature"%string (map Webhook.column_of updates)).
Proof.
  unfold Webhook.updateTradeStatus. cbv zeta.
  set (Inv := Webhook.built stringify tradeId status data).
  match goal with |- context [fst (fst ?b)] =>
    assert (Inv ["verification_json"; "quote_json"; "rejection_reason";
                 "error_message"; "actual_slippage_pct"; "output_amount";
                 "execution_timestamp"; "signature"; "status"]%string b) as I;
    [|destruct b as [[updates values] paramIndex]; cbn [fst snd];
      destruct I as (_ & N & F & H & D & _ & A & T);
      exact (conj N (conj F (conj H (conj D (conj A T)))))]
  end.
  unfold Webhook.when at 1.
  destruct (Webhook.truthy_json (Webhook.field data Webhook.verificationJson))
    as [v7|] eqn:F7;
    [apply truthy_json_some in F7;
     apply built_push; [|fresh_column|discriminate
                        |unfold Webhook.column_value; now rewrite F7]
    |apply built_skip]; clear F7.
  all: unfold Webhook.when at 1.
  all: destruct (Webhook.truthy_json (Webhook.field data Webhook.quoteJson))
    as [v6|] eqn:F6;
    [apply truthy_json_some in F6;
     apply built_push; [|fresh_column|discriminate
                        |unfold Webhook.column_value; now rewrite F6]
    |apply built_skip]; clear F6.
  all: unfold Webhook.when at 1.
  all: destruct (Webhook.truthy_text (Webhook.field data Webhook.reason))
    as [s5|] eqn:F5;
    [apply truthy_text_some in F5;
     apply built_push; [|fresh_column|discriminate
                        |unfold Webhook.column_value; now rewrite F5]
    |apply built_skip]; clear F5.
  all: unfold Webhook.when at 1.
  all: destruct (Webhook.truthy_text (Webhook.field data Webhook.error))
    as [s4|] eqn:F4;
    [apply truthy_text_some in F4;
     apply built_push; [|fresh_column|discriminate
                        |unfold Webhook.column_value; now rewrite F4]
    |apply built_skip]; clear F4.
  all: unfold Webhook.when at 1.
  all: destruct (Webhook.field data Webhook.actualSlippage) as [n3|] eqn:F3;
    [apply built_push; [|fresh_column|discriminate
                        |unfold Webhook.column_value; now rewrite F3]
    |apply built_skip]; clear F3.
  all: unfold Webhook.when at 1.
  all: destruct (Webhook.field data Webhook.outputAmount) as [n2|] eqn:F2;
    [apply built_push; [|fresh_column|discriminate
                        |unfold Webhook.column_value; now rewrite F2]
    |apply built_skip]; clear F2.
  all: unfold Webhook.when.
  all: destruct (Webhook.truthy_text (Webhook.field data Webhook.signature))
    as [s1|] eqn:F1;
    [apply truthy_text_some in F1;
     apply built_push_now;
     [apply built_push; [apply built_start|fresh_column|discriminate
                         |unfold Webhook.column_value; now rewrite F1]
     |fresh_column
     |simpl; tauto]
    |apply built_skip; apply built_skip; apply built_start].
Qed.

(** X24. runBalanceCheck never records a mismatch.  Each row it inserts, at
    most one for the input and one for the output token, has db_balance 0,
    discrepancy 0 and is_mismatch false, whatever the balance on chain: the
    discrepancy is the on-chain balance minus the database balance, as the
    schema has it, only when the on-chain balance is zero. *)
Theorem runBalanceCheck_never_records_a_mismatch {Keypair} up
    (address : Keypair -> string) sol tok (route : Webhook.RouteInfo Keypair)
    action row :
  In row (Webhook.runBalanceCheck up address sol tok route action) ->
  Webhook.check_wallet_id row = Webhook.walletId route
  /\ (Webhook.check_token row = Webhook.inputToken route
      \/ Webhook.check_token row = Webhook.outputToken route)
  /\ Webhook.db_balance row = 0
  /\ Webhook.discrepancy row = 0
  /\ Webhook.is_mismatch row = false
  /\ (Webhook.discrepancy row
      == Webhook.onchain_balance row - Webhook.db_balance row
      <-> Webhook.onchain_balance row == 0)
  /\ (List.length (Webhook.runBalanceCheck up address sol tok route action)
      <= 2)%nat.
Proof.
  unfold Webhook.runBalanceCheck. intro Hin.
  assert (exists token,
             In row (Webhook.check_token_balance up address sol tok route token)
             /\ (token = Webhook.inputToken route
                 \/ token = Webhook.outputToken route))
    as (token & H & T).
  { apply in_app_or in Hin. destruct Hin as [H|H]; eauto. }
  apply check_token_balance_row in H.
  destruct H as (W & Tk & B & D & M & _).
  split; [assumption|]. split; [rewrite Tk; assumption|].
  split; [assumption|]. split; [assumption|]. split; [assumption|]. split.
  - rewrite D, B. split; intro E; lra.
  - rewrite length_app.
    pose proof (check_token_balance_length up address sol tok route
                  (Webhook.inputToken route)).
    pose proof (check_token_balance_length up address sol tok route
                  (Webhook.outputToken route)).
    lia.
Qed.

Lemma runBalanceCheck_never_records_a_mismatch_witness :
  In (Webhook.mkBalanceCheck 1 "SOL" 0 (2000000000 / 1000000000) 0 false)
     (Webhook.runBalanceCheck Webhook.upper Webhook.walletNameMap
        Webhook.sol_balance Webhook.token_accounts Webhook.route_sell_sol
        "SELL")
  /\ Webhook.is_mismatch
       (Webhook.mkBalanceCheck 1 "SOL" 0 (2000000000 / 1000000000) 0 false)
     = false
  /\ ~ 0 == 2000000000 / 1000000000 - 0.
Proof.
  assert (In (Webhook.mkBalanceCheck 1 "SOL" 0 (2000000000 / 1000000000) 0
                                     false)
             (Webhook.runBalanceCheck Webhook.upper Webhook.walletNameMap
                Webhook.sol_balance Webhook.token_accounts
                Webhook.route_sell_sol "SELL")) as Hin
    by (left; reflexivity).
  pose proof (runBalanceCheck_never_records_a_mismatch Webhook.upper
                Webhook.walletNameMap Webhook.sol_balance
                Webhook.token_accounts Webhook.route_sell_sol "SELL" _ Hin)
    as (_ & _ & _ & _ & M & E & _).
  split; [exact Hin|]. split; [exact M|].
  intro H. apply E in H. discriminate H.
Defined.
